(** * ReportGen: row-to-document mapping engine

    A shallow embedding of [ReportGen.py] (and of the photo section and row
    selection it shares with [ReportGenTemp.py]).

    Conventions of the embedding.
    - A Python [str] is a list of characters; a character is an 8-bit code
      point, so the embedding covers text in the range U+0000..U+00FF.  The
      character predicates below ([isspace], [isalnum], [lower_char]) are
      CPython's on that range.
    - Exceptions are values of an error monad ([result]); a [try]/[except
      Exception] is a [match] on it.
    - The log callback appends to a list of messages, so a call is
      modelled by the list of messages it issues, in order; the file system
      is a finite map from paths to saved documents.
    - Calls into python-docx and the file system ([add_paragraph],
      [add_heading], [save], [makedirs]) are taken to succeed; inserting a
      picture succeeds or raises according to the parameter [img_err]. *)

From stdpp Require Import base list strings gmap.
From Stdlib Require Import Arith Lia.
From Stdlib Require DecimalString Sorted.
Import Strings.Ascii (ascii, ascii_of_nat, nat_of_ascii).
Import (notations) Strings.Ascii.

Set Implicit Arguments.
Local Open Scope list_scope.
Local Open Scope bool_scope.

Abbreviation str := (list ascii).

(** A string literal of the source. *)
Definition lit (s : string) : str := Strings.String.list_ascii_of_string s.
Arguments lit s%_string_scope.

(* ================================================================== *)
(** ** Python string primitives *)

Module PyStr.

Definition code (c : ascii) : nat := nat_of_ascii c.

Definition between (lo hi : nat) (c : ascii) : bool :=
  (lo <=? code c) && (code c <=? hi).

Definition code_is (n : nat) (c : ascii) : bool := code c =? n.

(** [str.isspace] on one character (also the class [\s] of [re] and the
    characters removed by [str.strip()]): TAB..CR, FS..US, space, NEL, NBSP. *)
Definition isspace (c : ascii) : bool :=
  between 9 13 c || between 28 32 c || code_is 133 c || code_is 160 c.

(** Characters with a lowercase counterpart: A-Z, and in Latin-1
    U+00C0..U+00D6 and U+00D8..U+00DE. *)
Definition has_lower (c : ascii) : bool :=
  between 65 90 c || between 192 214 c || between 216 222 c.

Definition lower_char (c : ascii) : ascii :=
  if has_lower c then ascii_of_nat (code c + 32) else c.

(** [str.lower()] *)
Definition lower (s : str) : str := map lower_char s.

Definition upper_char (c : ascii) : str :=
  if between 97 122 c || between 224 246 c || between 248 254 c
  then [ascii_of_nat (code c - 32)]
  else if code_is 223 c then ["S"; "S"]%char
  else [c].

(** [str.upper()]; U+00DF becomes ["SS"], and U+00B5 and U+00FF, whose
    capitals lie outside the range, are left as they are. *)
Definition upper (s : str) : str := concat (map upper_char s).

(** [str.isalnum] on one character: alphabetic, decimal, digit or numeric. *)
Definition isalnum (c : ascii) : bool :=
  between 48 57 c || between 65 90 c || between 97 122 c
  || code_is 170 c || code_is 181 c || code_is 186 c
  || between 178 179 c || code_is 185 c || between 188 190 c
  || between 192 214 c || between 216 246 c || between 248 255 c.

Fixpoint lstrip (s : str) : str :=
  match s with
  | c :: t => if isspace c then lstrip t else s
  | [] => []
  end.

Definition rstrip (s : str) : str := rev (lstrip (rev s)).

(** [str.strip()] *)
Definition strip (s : str) : str := rstrip (lstrip s).

Definition eqb (a b : str) : bool := bool_decide (a = b).

(** [x in [k1, k2, ...]] for strings. *)
Definition mem (x : str) (l : list str) : bool := existsb (eqb x) l.

(** [c in s] for a one-character [c]. *)
Definition char_in (c : ascii) (s : str) : bool :=
  existsb (Strings.Ascii.eqb c) s.

(** [s.startswith(p)], returning what follows the prefix. *)
Fixpoint drop_prefix (p s : str) : option str :=
  match p with
  | [] => Some s
  | a :: p' =>
      match s with
      | b :: s' => if Strings.Ascii.eqb a b then drop_prefix p' s' else None
      | [] => None
      end
  end.

(** [s.split(sep)] for a non-empty [sep]: the scan emits the text gathered
    so far at every occurrence of [sep] and resumes after it.  [skip] counts
    the characters of the occurrence still to be passed over, [cur] is the
    current piece, reversed. *)
Fixpoint split_go (sep : str) (skip : nat) (cur s : str) : list str :=
  match s with
  | [] => [rev cur]
  | c :: t =>
      match skip with
      | S k => split_go sep k cur t
      | 0 =>
          match drop_prefix sep s with
          | Some _ => rev cur :: split_go sep (length sep - 1) [] t
          | None => split_go sep 0 (c :: cur) t
          end
      end
  end.

(** The newline character, as a string. *)
Definition nl : str := ["010"%char].

(** [str(n)] for a non-negative integer. *)
Definition of_nat (n : nat) : str :=
  lit (DecimalString.NilEmpty.string_of_uint (Nat.to_uint n)).

End PyStr.

(* ================================================================== *)
(** ** The fragment of [re] used by the label pattern *)

Module Re.
Import PyStr.

(** One-character atoms: [\s], [.] (anything but a newline) and a literal,
    which under [re.IGNORECASE] matches up to letter case. *)
Inductive atom :=
| ASpace
| ADot
| ALit (c : ascii).

Definition amatch (a : atom) (c : ascii) : bool :=
  match a with
  | ASpace => isspace c
  | ADot => negb (code_is 10 c)
  | ALit l => Strings.Ascii.eqb (lower_char c) (lower_char l)
  end.

Inductive regex :=
| REps
| RAtom (a : atom)
| RStar (a : atom)
| ROpt (r : regex)
| RSeq (r1 r2 : regex)
| RAlt (r1 r2 : regex).

(** A literal word, character by character. *)
Fixpoint RWord (w : str) : regex :=
  match w with
  | [] => REps
  | c :: w' => RSeq (RAtom (ALit c)) (RWord w')
  end.

Definition or_else {A} (x : option A) (y : option A) : option A :=
  match x with Some _ => x | None => y end.

(** Greedy [a*]: take the longest run first and give characters back one
    at a time while the continuation [k] fails. *)
Fixpoint star (a : atom) (s : str) (k : str -> option str) : option str :=
  match s with
  | c :: t => if amatch a c then or_else (star a t k) (k s) else k s
  | [] => k []
  end.

(** The backtracking matcher: [rmatch r s k] matches [r] at the front of
    [s] and passes what is left to [k]; alternatives are tried in order and
    the first overall success wins.  The result is the text after the match. *)
Fixpoint rmatch (r : regex) (s : str) (k : str -> option str) : option str :=
  match r with
  | REps => k s
  | RAtom a =>
      match s with
      | c :: t => if amatch a c then k t else None
      | [] => None
      end
  | RStar a => star a s k
  | ROpt r1 => or_else (rmatch r1 s k) (k s)
  | RSeq r1 r2 => rmatch r1 s (fun s' => rmatch r2 s' k)
  | RAlt r1 r2 => or_else (rmatch r1 s k) (rmatch r2 s k)
  end.

(** [re.match]: the text after the match when [r] matches at the front. *)
Definition match_at (r : regex) (s : str) : option str := rmatch r s Some.

(** [re.sub(r, "", s)]: every leftmost non-overlapping match is removed.
    [skip] counts the characters of the current match still to be dropped. *)
Fixpoint sub_go (r : regex) (skip : nat) (s : str) : str :=
  match s with
  | [] => []
  | c :: t =>
      match skip with
      | S k => sub_go r k t
      | 0 =>
          match match_at r s with
          | Some rest =>
              match length s - length rest with
              | S n => sub_go r n t
              | 0 => c :: sub_go r 0 t
              end
          | None => c :: sub_go r 0 t
          end
      end
  end.

Definition sub (r : regex) (s : str) : str := sub_go r 0 s.

(** [re.search(r, s) is not None] *)
Fixpoint search (r : regex) (s : str) : bool :=
  match match_at r s with
  | Some _ => true
  | None => match s with [] => false | _ :: t => search r t end
  end.

End Re.

(* ================================================================== *)
(** ** Label normalisation (the Field Classifier's [normalize]) *)

Module Label.
Import PyStr Re.

(** [r"\s*\((?:select.*|dd/mm/yyyy)\)\s*:?"] *)
Definition qualifier : regex :=
  RSeq (RStar ASpace)
    (RSeq (RAtom (ALit "("))
       (RSeq (RAlt (RSeq (RWord (lit "select")) (RStar ADot))
                   (RWord (lit "dd/mm/yyyy")))
          (RSeq (RAtom (ALit ")"))
             (RSeq (RStar ASpace) (ROpt (RAtom (ALit ":"))))))).

(** [display_col_name]: the label without its qualifier, trimmed. *)
Definition display_name (label : str) : str := strip (sub qualifier label).

(** [col_name]: the FieldKey. *)
Definition normalize (label : str) : str :=
  strip (lower (sub qualifier label)).

End Label.

(* ================================================================== *)
(** ** The document object model (the part of python-docx the code uses) *)

Module Docx.
Import PyStr.

Inductive align := AlignLeft | AlignCenter | AlignRight.

Definition rgb : Type := nat * nat * nat.

(** Content of a run, in insertion order. *)
Inductive item :=
| Text (s : str)
| Break
| Picture (path : str) (size : option (N * N)).

Record font := Font {
  f_name : option str;
  f_size : option nat;          (* points *)
  f_bold : option bool;
  f_italic : option bool;
  f_underline : option bool;
  f_color : option rgb }.

Definition no_font : font := Font None None None None None None.

Record run := Run { r_items : list item; r_font : font }.

Record para := Para {
  p_style : str;                (* named style; empty for the default *)
  p_runs : list run;
  p_align : option align;
  p_spacing : option nat }.     (* line spacing, in hundredths *)

Record cell := Cell {
  c_paras : list para;
  c_valign_center : bool;
  c_padding : option (nat * nat * nat * nat) }.

Inductive block :=
| BPara (p : para)
| BPageBreak
| BGrid (rows : list (list cell)).

(** The slots of the 4x1 metadata table and of the 1x2 table nested in its
    first row. *)
Inductive slot := NestedLeft | NestedRight | ImageCell | RiskCell | CauseCell.

Record meta_table := Meta {
  m_left : cell;                (* nestedt.cell(0,0) *)
  m_right : cell;               (* nestedt.cell(0,1) *)
  m_image : cell;               (* table.cell(1,0) *)
  m_risk : cell;                (* table.cell(2,0) *)
  m_cause : cell }.             (* table.cell(3,0) *)

(** A document under construction: what precedes the metadata table (the
    template's content and the title), the table, and what was appended
    after it. *)
Record document := Document {
  d_front : list block;
  d_meta : meta_table;
  d_body : list block }.

Definition text_run (s : str) : run := Run [Text s] no_font.
Definition empty_run : run := Run [] no_font.

(** [add_paragraph(text, style)]: a run is created only for non-empty text. *)
Definition new_para (text style : str) : para :=
  Para style (match text with [] => [] | _ => [text_run text] end) None None.

(** [add_heading(text, level)] *)
Definition new_heading (text : str) (level : nat) : para :=
  new_para text (lit "Heading " ++ of_nat level).

(** A fresh table cell holds one empty paragraph. *)
Definition new_cell : cell := Cell [new_para [] []] false None.

(** [cell.text = s]: the content is replaced by one paragraph with one run. *)
Definition set_cell_text (s : str) (c : cell) : cell :=
  Cell [Para [] [text_run s] None None]
       (c_valign_center c) (c_padding c).

Definition get_slot (s : slot) (m : meta_table) : cell :=
  match s with
  | NestedLeft => m_left m
  | NestedRight => m_right m
  | ImageCell => m_image m
  | RiskCell => m_risk m
  | CauseCell => m_cause m
  end.

Definition alter_slot (f : cell -> cell) (s : slot) (m : meta_table) : meta_table :=
  match s with
  | NestedLeft => Meta (f (m_left m)) (m_right m) (m_image m) (m_risk m) (m_cause m)
  | NestedRight => Meta (m_left m) (f (m_right m)) (m_image m) (m_risk m) (m_cause m)
  | ImageCell => Meta (m_left m) (m_right m) (f (m_image m)) (m_risk m) (m_cause m)
  | RiskCell => Meta (m_left m) (m_right m) (m_image m) (f (m_risk m)) (m_cause m)
  | CauseCell => Meta (m_left m) (m_right m) (m_image m) (m_risk m) (f (m_cause m))
  end.

(** Text of a run and of a paragraph; a line break reads as a newline. *)
Definition item_text (i : item) : str :=
  match i with
  | Text s => s
  | Break => nl
  | Picture _ _ => []
  end.

Definition run_text (r : run) : str := concat (map item_text (r_items r)).
Definition para_text (p : para) : str := concat (map run_text (p_runs p)).

(** The lines a paragraph shows. *)
Definition para_lines (p : para) : list str :=
  split_go nl 0 [] (para_text p).

(** *** The style registry *)

Record style_spec := Style {
  font_name : str;
  font_size : nat;
  bold : bool;
  italic : bool;
  underline : bool;
  color : rgb;
  alignment : option align;
  line_spacing : nat }.

End Docx.

(* ================================================================== *)
(** ** Values, exceptions and the rendering monad *)

Module Py.
Import PyStr Docx.

(** A cell of the data frame: text, or a scalar of another type (a number,
    a missing value), known by its type name and its [str()]. *)
Inductive value :=
| VStr (s : str)
| VOther (ty repr : str).

Definition str_of (v : value) : str :=
  match v with VStr s => s | VOther _ r => r end.

Inductive exn :=
| AttributeError (ty attr : str)
| IndexError
| OtherError (msg : str).

(** [str(e)] *)
Definition exn_str (e : exn) : str :=
  match e with
  | AttributeError ty attr =>
      lit "'" ++ ty ++ lit "' object has no attribute '" ++ attr ++ lit "'"
  | IndexError => lit "list index out of range"
  | OtherError msg => msg
  end.

Inductive result (A : Type) :=
| Ok (a : A)
| Raise (e : exn).
Arguments Ok {A} a.
Arguments Raise {A} e.

(** What one call of [generate_docs] mutates: the document, the carried
    note and the log. *)
Record rstate := RState {
  doc : document;
  note : str;
  log : list str }.

(** Computations that read and write the state and may raise; the state
    reached when an exception is raised is kept. *)
Definition M (A : Type) : Type := rstate -> result A * rstate.

Definition ret {A} (a : A) : M A := fun st => (Ok a, st).

Definition bind {A B} (m : M A) (k : A -> M B) : M B :=
  fun st =>
    match m st with
    | (Ok a, st') => k a st'
    | (Raise e, st') => (Raise e, st')
    end.

Definition raise {A} (e : exn) : M A := fun st => (Raise e, st).

(** [try: body  except Exception as e: handler(e)] *)
Definition try_except {A} (body : M A) (handler : exn -> M A) : M A :=
  fun st =>
    match body st with
    | (Ok a, st') => (Ok a, st')
    | (Raise e, st') => handler e st'
    end.

Definition modify (f : rstate -> rstate) : M unit := fun st => (Ok tt, f st).

Definition gets {A} (f : rstate -> A) : M A := fun st => (Ok (f st), st).

Definition when (b : bool) (m : M unit) : M unit := if b then m else ret tt.

(** [for x in l: body(x)] *)
Fixpoint for_each {A} (l : list A) (body : A -> M unit) : M unit :=
  match l with
  | [] => ret tt
  | x :: l' => bind (body x) (fun _ => for_each l' body)
  end.

End Py.

Notation "x <- m ;; k" := (Py.bind m (fun x => k))
  (at level 100, m at next level, right associativity).
Notation "m ;;; k" := (Py.bind m (fun _ => k))
  (at level 100, right associativity).

(* ================================================================== *)
(** ** ReportGen.py *)

Module ReportGen.
Import PyStr Re Label Docx Py.

(** *** STYLE_MAP and apply_style *)

Definition accent : rgb := (47, 84, 150).
Definition black : rgb := (0, 0, 0).

Definition times : str := lit "Times New Roman".

Definition STYLE_MAP : list (str * style_spec) :=
  [ (lit "Normal",
      Style times 12 false false false black None 115);
    (lit "Heading 1",
      Style times 18 true false true accent (Some AlignCenter) 150);
    (lit "Heading 3",
      Style times 12 true false false accent (Some AlignLeft) 150);
    (lit "List Paragraph",
      Style times 12 true false false black None 115) ].

Fixpoint assoc {A} (k : str) (l : list (str * A)) : option A :=
  match l with
  | [] => None
  | (k', v) :: l' => if eqb k k' then Some v else assoc k l'
  end.

(** [STYLE_MAP.get(style_key, STYLE_MAP["Normal"])] *)
Definition style_get (style_key : str) : style_spec :=
  match assoc style_key STYLE_MAP with
  | Some s => s
  | None => Style times 12 false false false black None 115
  end.

Definition style_font (s : style_spec) : font :=
  Font (Some (font_name s)) (Some (font_size s)) (Some (bold s))
       (Some (italic s)) (Some (underline s)) (Some (color s)).

Definition apply_style (style_key : str) (p : para) : para :=
  let style := style_get style_key in
  Para (p_style p)
       (map (fun r => Run (r_items r) (style_font style)) (p_runs p))
       (match alignment style with Some a => Some a | None => p_align p end)
       (Some (line_spacing style)).

Definition set_bold (b : bool) (r : run) : run :=
  let f := r_font r in
  Run (r_items r)
      (Font (f_name f) (f_size f) (Some b) (f_italic f) (f_underline f) (f_color f)).

Definition set_color (c : rgb) (r : run) : run :=
  let f := r_font r in
  Run (r_items r)
      (Font (f_name f) (f_size f) (f_bold f) (f_italic f) (f_underline f) (Some c)).

Definition set_size (n : nat) (r : run) : run :=
  let f := r_font r in
  Run (r_items r)
      (Font (f_name f) (Some n) (f_bold f) (f_italic f) (f_underline f) (f_color f)).

Definition add_item (i : item) (r : run) : run :=
  Run (r_items r ++ [i]) (r_font r).

Definition set_align (a : align) (p : para) : para :=
  Para (p_style p) (p_runs p) (Some a) (p_spacing p).

Definition set_spacing (n : nat) (p : para) : para :=
  Para (p_style p) (p_runs p) (p_align p) (Some n).

(** [para.add_run(text)]: the text is set only when it is non-empty. *)
Definition new_run (text : str) : run :=
  match text with [] => empty_run | _ => text_run text end.

Definition push_run (r : run) (p : para) : para :=
  Para (p_style p) (p_runs p ++ [r]) (p_align p) (p_spacing p).

(** *** Paragraph and run objects

    The code keeps references to paragraphs and runs it has already put in
    the document and goes on changing them; a reference is the position of
    the object in the document. *)

Inductive pref :=
| InBody (i : nat)
| InSlot (s : slot) (i : nat).

Definition rref : Type := pref * nat.

Definition alter_block (f : para -> para) (b : block) : block :=
  match b with BPara p => BPara (f p) | _ => b end.

Definition alter_cell_para (f : para -> para) (i : nat) (c : cell) : cell :=
  Cell (alter f i (c_paras c)) (c_valign_center c) (c_padding c).

Definition alter_para_doc (f : para -> para) (r : pref) (d : document) : document :=
  match r with
  | InBody i => Document (d_front d) (d_meta d) (alter (alter_block f) i (d_body d))
  | InSlot s i => Document (d_front d) (alter_slot (alter_cell_para f i) s (d_meta d)) (d_body d)
  end.

Definition with_doc (f : document -> document) : M unit :=
  modify (fun st => RState (f (doc st)) (note st) (log st)).

Definition alter_para (r : pref) (f : para -> para) : M unit :=
  with_doc (alter_para_doc f r).

Definition alter_run (r : rref) (f : run -> run) : M unit :=
  alter_para (fst r)
    (fun p => Para (p_style p) (alter f (snd r) (p_runs p)) (p_align p) (p_spacing p)).

Definition push_block (b : block) (d : document) : document :=
  Document (d_front d) (d_meta d) (d_body d ++ [b]).

(** [doc.add_paragraph(text, style)] *)
Definition add_paragraph (text style : str) : M pref :=
  n <- gets (fun st => length (d_body (doc st)));;
  with_doc (push_block (BPara (new_para text style)));;;
  ret (InBody n).

(** [doc.add_heading(text, level)] *)
Definition add_heading (text : str) (level : nat) : M pref :=
  n <- gets (fun st => length (d_body (doc st)));;
  with_doc (push_block (BPara (new_heading text level)));;;
  ret (InBody n).

(** [doc.add_page_break()] *)
Definition add_page_break : M unit := with_doc (push_block BPageBreak).

(** [cell.add_paragraph()] on a slot of the metadata table *)
Definition cell_add_paragraph (s : slot) : M pref :=
  n <- gets (fun st => length (c_paras (get_slot s (d_meta (doc st)))));;
  with_doc (fun d =>
    Document (d_front d)
      (alter_slot (fun c => Cell (c_paras c ++ [new_para [] []])
                                 (c_valign_center c) (c_padding c)) s (d_meta d))
      (d_body d));;;
  ret (InSlot s n).

Definition para_of (r : pref) (d : document) : option para :=
  match r with
  | InBody i =>
      match d_body d !! i with Some (BPara p) => Some p | _ => None end
  | InSlot s i => c_paras (get_slot s (d_meta d)) !! i
  end.

(** [para.add_run(text)] *)
Definition add_run (r : pref) (text : str) : M rref :=
  n <- gets (fun st =>
        match para_of r (doc st) with Some p => length (p_runs p) | None => 0 end);;
  alter_para r (push_run (new_run text));;;
  ret (r, n).

Definition add_break (r : rref) : M unit := alter_run r (add_item Break).

Definition apply_style_to (r : pref) (style_key : str) : M unit :=
  alter_para r (apply_style style_key).

Definition set_note (s : str) : M unit :=
  modify (fun st => RState (doc st) s (log st)).

Definition log_callback (msg : str) : M unit :=
  modify (fun st => RState (doc st) (note st) (log st ++ [msg])).

(** [l[i]] *)
Definition index {A} (l : list A) (i : nat) : M A :=
  match l !! i with Some x => ret x | None => raise IndexError end.

(** [v.split(sep)]: only text has the method. *)
Definition split_method (v : value) (sep : str) : M (list str) :=
  match v with
  | VStr s => ret (split_go sep 0 [] s)
  | VOther ty _ => raise (AttributeError ty (lit "split"))
  end.

(** [data[row_index][i]] *)
Definition data_at (data : list (list value)) (row_index i : nat) : M value :=
  row <- index data row_index;;
  index row i.

(** *** The field loop of generate_docs *)

Definition metadata_keys : list str :=
  [ lit "policyholder"; lit "address"; lit "insurer"; lit "adjuster";
    lit "description of risk"; lit "claim #"; lit "date of report";
    lit "date assigned"; lit "date of inspection"; lit "date of loss";
    lit "type of loss"; lit "cause of loss"; lit "assigned gc";
    lit "pm contact" ].

Definition secondary_keys : list str :=
  [ lit "claim #"; lit "date of report"; lit "date assigned";
    lit "assigned gc"; lit "pm contact" ].

Definition reserve_keys : list str :=
  [ lit "indemnity reserves:"; lit "expense reserves:" ].

(** The cell a metadata field is written to: the three assignments to
    [textCell], in order. *)
Definition text_cell (col_name : str) : slot :=
  let c := NestedLeft in
  let c := if eqb col_name (lit "cause of loss") then CauseCell else c in
  let c := if eqb col_name (lit "description of risk") then RiskCell else c in
  if mem col_name secondary_keys then NestedRight else c.

Definition own_line (col_name : str) : bool :=
  eqb col_name (lit "cause of loss") || eqb col_name (lit "description of risk").

Section Fields.

Variable data : list (list value).
Variable row_index : nat.

(** The branches of the [if]/[elif] chain in the [try] for column [i]. *)

(** [if col_name in [...]]: the metadata block. *)
Definition metadata_field (col_name display_col_name : str) (i : nat) : M unit :=
  para <- cell_add_paragraph (text_cell col_name);;
  run <- add_run para (display_col_name ++ lit ": ");;
  (if own_line col_name then
     v <- data_at data row_index i;;
     add_run para (nl ++ str_of v ++ nl)
   else
     v <- data_at data row_index i;;
     add_run para (str_of v));;;
  apply_style_to para (lit "Normal");;;
  alter_run run (set_bold true);;;
  when (own_line col_name) (alter_run run (set_color accent)).

(** [elif col_name in ["indemnity reserves:", "expense reserves:"]] *)
Definition reserve_field (col_name display_col_name : str) (i : nat) : M unit :=
  para <- add_paragraph (display_col_name ++ lit " ") (lit "List Bullet");;
  if eqb col_name (lit "indemnity reserves:") then
    v <- data_at data row_index i;;
    temp <- split_method v (lit "HST");;
    t1 <- index temp 1;;
    set_note t1;;;
    t0 <- index temp 0;;
    run <- add_run para (t0 ++ lit "HST");;
    apply_style_to para (lit "List Paragraph");;;
    alter_run run (set_bold false)
  else
    v <- data_at data row_index i;;
    run <- add_run para (str_of v);;
    n <- gets note;;
    run1 <- add_run para (nl ++ lit "Note: " ++ strip n);;
    add_break run1;;;
    apply_style_to para (lit "List Paragraph");;;
    alter_run run (set_bold false);;;
    alter_run run1 (set_bold false).

(** [elif col_name == "product manager"] *)
Definition manager_field (display_col_name : str) (i : nat) : M unit :=
  v <- data_at data row_index i;;
  temp <- split_method v nl;;
  para1 <- cell_add_paragraph NestedLeft;;
  run2 <- add_run para1 (display_col_name ++ lit ": ");;
  t0 <- index temp 0;;
  add_run para1 t0;;;
  apply_style_to para1 (lit "Normal");;;
  alter_run run2 (set_bold true);;;
  para <- add_paragraph [] [];;
  r0 <- add_run para [];;
  add_break r0;;;
  run <- add_run para (lit "Thank you,");;
  run1 <- add_run para (nl ++ t0);;
  for_each (drop 1 temp) (fun line => add_run para (nl ++ line);;; ret tt);;;
  apply_style_to para (lit "Normal");;;
  alter_run run1 (set_bold true).

(** [else] *)
Definition narrative_field (col_name display_col_name : str) (i : nat) : M unit :=
  if eqb col_name (lit "conclusion") then
    p0 <- add_paragraph [] [];;
    r0 <- add_run p0 [];;
    add_break r0;;;
    heading2 <- add_heading display_col_name 2;;
    v <- data_at data row_index i;;
    par <- add_paragraph (str_of v) [];;
    apply_style_to heading2 (lit "Heading 3");;;
    apply_style_to par (lit "Normal")
  else
    hed <- add_heading display_col_name 2;;
    apply_style_to hed (lit "Heading 3");;;
    v <- data_at data row_index i;;
    para <- add_paragraph (str_of v) [];;
    apply_style_to para (lit "Normal");;;
    if negb (eqb col_name (lit "recommended reserves for trinity's involvement:")) then
      r <- add_run para [];;
      add_break r
    else
      alter_para para (set_spacing 150).

(** The body of the [try] for column [i]. *)
Definition render_field (col_name display_col_name : str) (i : nat) : M unit :=
  if mem col_name metadata_keys then
    metadata_field col_name display_col_name i
  else if mem col_name reserve_keys then
    reserve_field col_name display_col_name i
  else if eqb col_name (lit "product manager") then
    manager_field display_col_name i
  else
    narrative_field col_name display_col_name i.

(** One iteration of [for i in range(len(columns))]. *)
Definition field_step (label : str) (i : nat) : M unit :=
  let col_name := normalize label in
  let display_col_name := display_name label in
  try_except (render_field col_name display_col_name i)
    (fun e => log_callback
       (lit "[WARNING] Failed to insert column " ++ display_col_name
        ++ lit ": " ++ exn_str e)).

(** The loop over the columns, from column [i] on. *)
Fixpoint field_loop (columns : list str) (i : nat) : M unit :=
  match columns with
  | [] => ret tt
  | label :: rest => field_step label i;;; field_loop rest (S i)
  end.

End Fields.

(** *** Header image and photo section *)

Section Images.

(** [img_err path] is [None] when [run.add_picture(path, ...)] succeeds and
    the message of the exception it raises otherwise. *)
Variable img_err : str -> option str.

Definition is_home (k : str) : bool := eqb (lower k) (lit "home").

(** [next(((k, v) for k, v in m.items() if k.lower() == "home"), None)] *)
Definition find_home (m : list (str * list str)) : option (str * list str) :=
  List.find (fun kv => is_home (fst kv)) m.

Definition with_image_cell (f : cell -> cell) : M unit :=
  with_doc (fun d => Document (d_front d) (alter_slot f ImageCell (d_meta d)) (d_body d)).

Definition add_picture (r : rref) (path : str) (size : option (N * N)) : M unit :=
  match img_err path with
  | None => alter_run r (add_item (Picture path size))
  | Some msg => raise (OtherError msg)
  end.

Definition header_image (room_image_map : list (str * list str)) : M unit :=
  try_except
    (let imageCell := InSlot ImageCell 0 in
     with_image_cell (fun c => Cell (c_paras c) true (c_padding c));;;
     match find_home room_image_map with
     | Some home_tuple =>
         run <- add_run imageCell [];;
         add_break run;;;
         add_break run;;;
         try_except
           (path <- index (snd home_tuple) 0;;
            add_picture run path None;;;
            alter_para imageCell (set_align AlignCenter);;;
            add_break run)
           (fun e =>
              with_image_cell (set_cell_text (lit "[Header image missing]"));;;
              log_callback (lit "[WARNING] Failed to insert header image: " ++ exn_str e))
     | None =>
         with_image_cell (set_cell_text (lit "[Header image not provided]"))
     end)
    (fun e => log_callback (lit "[WARNING] Failed to load image header: " ++ exn_str e)).

(** [range(start, stop, step)] for a positive [step]; [stop - start]
    iterations are always enough. *)
Fixpoint range_fuel (fuel start stop step : nat) : list nat :=
  match fuel with
  | 0 => []
  | S f => if start <? stop then start :: range_fuel f (start + step) stop step else []
  end.

Definition range (start stop step : nat) : list nat :=
  range_fuel (stop - start) start stop step.

(** [Inches(2.5)], in English Metric Units *)
Definition inches_2_5 : N := 2286000%N.

(** [set_cell_padding(cell)] with its default 200 twips on every side *)
Definition set_cell_padding (c : cell) : cell :=
  Cell (c_paras c) (c_valign_center c) (Some (200, 200, 200, 200)).

(** The body of the two inner loops for the cell at [(row, col)]: the cell
    after it, and the warning logged if the picture could not be inserted. *)
Definition fill_cell (batch : list str) (row col : nat) (c : cell) : cell * list str :=
  let img_idx := row * 2 + col in
  match batch !! img_idx with
  | Some path =>
      let c := alter_cell_para
                 (set_align (if col =? 0 then AlignRight else AlignLeft)) 0 c in
      let c := alter_cell_para (push_run empty_run) 0 c in
      let c := set_cell_padding c in
      match img_err path with
      | None =>
          (alter_cell_para
             (fun p => Para (p_style p)
                         (alter (add_item (Picture path (Some (inches_2_5, inches_2_5))))
                                (length (p_runs p) - 1) (p_runs p))
                         (p_align p) (p_spacing p)) 0 c,
           [])
      | Some msg =>
          (set_cell_text (lit "[Image missing]") c,
           [lit "[WARNING] Failed to insert image " ++ path ++ lit ": " ++ msg])
      end
  | None => (c, [])
  end.

(** One 2x2 table for one batch, cells visited row by row. *)
Definition grid_table (batch : list str) : list (list cell) * list str :=
  let c00 := fill_cell batch 0 0 new_cell in
  let c01 := fill_cell batch 0 1 new_cell in
  let c10 := fill_cell batch 1 0 new_cell in
  let c11 := fill_cell batch 1 1 new_cell in
  ([[fst c00; fst c01]; [fst c10; fst c11]],
   snd c00 ++ snd c01 ++ snd c10 ++ snd c11).

(** [image_list[i:i + 4]] *)
Definition batch_at (image_list : list str) (i : nat) : list str :=
  take 4 (drop i image_list).

(** The tables of one sub-category: [for i in range(0, len(image_list), 4)]. *)
Definition grid_tables (image_list : list str) : list (list (list cell) * list str) :=
  map (fun i => grid_table (batch_at image_list i))
      (range 0 (length image_list) 4).

Definition add_grid (g : list (list cell) * list str) : M unit :=
  with_doc (push_block (BGrid (fst g)));;;
  for_each (snd g) log_callback.

(** One iteration of the loop over the sub-categories. *)
Definition room_section (count idx : nat) (room_name : str) (image_list : list str) : M unit :=
  rhead <- add_heading (upper room_name) 3;;
  r <- add_run rhead [];;
  add_break r;;;
  apply_style_to rhead (lit "Normal");;;
  alter_para rhead (set_align AlignCenter);;;
  alter_para rhead
    (fun p => Para (p_style p) (map (set_size 18) (p_runs p)) (p_align p) (p_spacing p));;;
  for_each (grid_tables image_list) add_grid;;;
  when (idx <? count - 1) add_page_break.

Fixpoint room_loop (count idx : nat) (m : list (str * list str)) : M unit :=
  match m with
  | [] => ret tt
  | (room_name, image_list) :: rest =>
      room_section count idx room_name image_list;;;
      room_loop count (S idx) rest
  end.

(** [any(room_image_map.values())]: some list of images is non-empty. *)
Definition any_images (m : list (str * list str)) : bool :=
  existsb (fun kv => match snd kv with [] => false | _ => true end) m.

Definition photo_section (room_image_map : list (str * list str)) : M unit :=
  when (any_images room_image_map)
    (add_page_break;;;
     phead <- add_heading (lit "PHOTOGRAPHS") 1;;
     r <- add_run phead [];;
     add_break r;;;
     apply_style_to phead (lit "Heading 1");;;
     let room_image_map := List.filter (fun kv => negb (is_home (fst kv))) room_image_map in
     when (match room_image_map with [] => true | _ => false end)
       (add_paragraph (lit "[No photographs provided]") [];;; ret tt);;;
     room_loop (length room_image_map) 0 room_image_map).

(** *** generate_docs *)

(** The data frame: [df.columns] and [df.values]. *)
Record table := Table {
  columns : list str;
  values : list (list value) }.

(** What is outside one call: the log shown to the user and the files
    written so far. *)
Record world := World {
  w_log : list str;
  w_fs : gmap str document }.

Definition say (msgs : list str) (w : world) : world :=
  World (w_log w ++ msgs) (w_fs w).

Definition title : para :=
  apply_style (lit "Heading 1") (new_heading (lit "FIRST INSPECTION REPORT") 1).

(** The document before the header image is placed: the template's content
    (none for the blank fallback), the title and the empty metadata table. *)
Definition start_document (front : list block) : document :=
  Document (front ++ [BPara title])
           (Meta new_cell new_cell new_cell new_cell new_cell) [].

(** Everything from the header image to the photo section, for the row
    chosen: the document built, and in [log] the messages issued on the way. *)
Definition build (df : table) (front : list block)
    (room_image_map : list (str * list str)) (row_index : nat) : rstate :=
  snd ((header_image room_image_map;;;
        set_note [];;;
        field_loop (values df) row_index (columns df) 0;;;
        photo_section room_image_map)
       (RState (start_document front) [] [])).

(** The row that is used: [row_index] itself, or the last row with a warning
    when it is out of bounds ([ReportGenTemp.py] has the same lines). *)
Definition clamp_row (rows row_index : nat) : nat * list str :=
  if rows <=? row_index then
    (rows - 1,
     [lit "[WARNING] Row index " ++ of_nat row_index
      ++ lit " out of bounds. Using last available row."])
  else (row_index, []).

(** [excel] is what [pd.read_excel] gives or raises, [template] the
    template's content when the file exists and loads. *)
Definition generate_docs (excel : result table) (template : option (list block))
    (room_image_map : list (str * list str)) (output_filename : str)
    (row_index : nat) (w : world) : option str * world :=
  match excel with
  | Raise e =>
      (None, say [lit "[ERROR] Failed to read Excel file: " ++ exn_str e] w)
  | Ok df =>
      let data := values df in
      if length data =? 0 then
        (None, say [lit "[ERROR] Excel file contains no rows."] w)
      else
        let '(row_index, warn) := clamp_row (length data) row_index in
        let '(front, fallback) :=
          match template with
          | Some t => (t, [])
          | None => ([], [lit "[WARNING] Template missing or inaccessible. Using blank document."])
          end in
        let st := build df front room_image_map row_index in
        (Some output_filename,
         World (w_log w ++ warn ++ fallback ++ log st
                ++ [lit "[SUCCESS] Document saved: " ++ output_filename])
               (<[output_filename := doc st]> (w_fs w)))
  end.

End Images.

(** *** The loop over the cases in process_files *)

Definition safe_char (c : ascii) : ascii :=
  if isalnum c || char_in c (lit " ._-") then c else "_"%char.

(** ["".join(c if c.isalnum() or c in " ._-" else "_" for c in name).strip()] *)
Definition sanitize (claim_name : str) : str := strip (map safe_char claim_name).

Definition safe_name (i : nat) (claim_name : str) : str :=
  match sanitize claim_name with
  | [] => lit "claim_" ++ of_nat (i + 1)
  | s => s
  end.

Section Cases.

Variable img_err : str -> option str.

(** [os.path.join] *)
Variable path_join : str -> str -> str.

Variable output_folder : str.
Variable excel : result table.
Variable template : option (list block).

Definition output_path (i : nat) (claim_name : str) : str :=
  path_join output_folder (safe_name i claim_name ++ lit ".docx").

(** One iteration of [for i, (claim_name, room_images) in enumerate(...)]. *)
Definition case_step (i : nat) (claim_name : str) (room_images : list (str * list str))
    (acc : list str * world) : list str * world :=
  let '(generated_files, w) := acc in
  let output_filename := output_path i claim_name in
  let w := say [lit "[INFO] Generating document for claim: " ++ claim_name
                ++ lit " -> " ++ output_filename] w in
  match generate_docs img_err excel template room_images output_filename i w with
  | (Some (c :: r), w') => (generated_files ++ [c :: r], w')
  | (_, w') =>
      (generated_files,
       say [lit "[WARNING] Document generation returned no result for claim: "
            ++ claim_name] w')
  end.

Fixpoint case_loop (i : nat) (claims : list (str * list (str * list str)))
    (acc : list str * world) : list str * world :=
  match claims with
  | [] => acc
  | (claim_name, room_images) :: rest =>
      case_loop (S i) rest (case_step i claim_name room_images acc)
  end.

End Cases.

End ReportGen.

(* ================================================================== *)
(** ** Observations and specification-side definitions

    What the properties below are stated with: measures on patterns, the
    placement table as the specification words it, the paragraphs and
    blocks the branches are expected to produce, and the views of a
    document that the statements read. *)

Module Obs.
Import PyStr Re Label Docx Py ReportGen.

(** *** Patterns *)

(** The weight of a text: the sum of the weights of its characters. *)
Definition weigh (w : ascii -> nat) (s : str) : nat := list_sum (map w s).

(** The least weight of a match of [r], given a lower bound [aw] on the
    weight of a character an atom accepts. *)
Fixpoint min_weight (aw : atom -> nat) (r : regex) : nat :=
  match r with
  | RAtom a => aw a
  | RSeq r1 r2 => min_weight aw r1 + min_weight aw r2
  | RAlt r1 r2 => Nat.min (min_weight aw r1) (min_weight aw r2)
  | REps | RStar _ | ROpt _ => 0
  end.

(** A continuation that returns a suffix of its input, having taken
    characters of total weight at least [d]. *)
Definition consumes (w : ascii -> nat) (d : nat) (k : str -> option str) : Prop :=
  forall s x, k s = Some x -> exists m, s = m ++ x /\ d <= weigh w m.

Definition paren_weight (c : ascii) : nat :=
  if Strings.Ascii.eqb c "(" then 1 else 0.

Definition paren_atom (a : atom) : nat :=
  match a with
  | ALit c => paren_weight c
  | _ => 0
  end.

(** The number of opening parentheses. *)
Definition open_parens (s : str) : nat := weigh paren_weight s.

Definition is_some {A} (x : option A) : bool :=
  match x with Some _ => true | None => false end.

(** *** Text *)

Definition newline : ascii := "010"%char.

(** [sep] occurs somewhere in [s]. *)
Fixpoint occurs (sep s : str) : bool :=
  match drop_prefix sep s with
  | Some _ => true
  | None => match s with [] => false | _ :: t => occurs sep t end
  end.

Definition HST : str := lit "HST".

(** The characters the sanitiser lets through. *)
Definition allowed (c : ascii) : Prop :=
  isalnum c = true \/ In c (lit " ._-").

(** *** The placement table *)

Inductive category :=
| Metadata
| ReserveNoteProducer
| ReserveNoteConsumer
| ManagerSignoff
| NarrativeConclusion
| NarrativeSection.

(** The FieldKey -> PlacementCategory table of the specification, as it is
    worded there (refinement target for the [if]/[elif] chain). *)
Definition spec_metadata_keys : list str :=
  [ lit "policyholder"; lit "address"; lit "insurer"; lit "adjuster";
    lit "description of risk"; lit "claim #"; lit "date of report";
    lit "date assigned"; lit "date of inspection"; lit "date of loss";
    lit "type of loss"; lit "cause of loss"; lit "assigned gc";
    lit "pm contact" ].

Definition spec_table : list (str * category) :=
  map (fun k => (k, Metadata)) spec_metadata_keys
  ++ [ (lit "indemnity reserves:", ReserveNoteProducer);
       (lit "expense reserves:", ReserveNoteConsumer);
       (lit "product manager", ManagerSignoff);
       (lit "conclusion", NarrativeConclusion) ].

(** [classify]: table lookup, with narrative-section as the default. *)
Definition classify (key : str) : category :=
  match assoc key spec_table with
  | Some c => c
  | None => NarrativeSection
  end.

Section Handlers.

Variable data : list (list value).
Variable row_index : nat.

(** The rendering each category stands for. *)
Definition handle (c : category) (key display : str) (i : nat) : M unit :=
  match c with
  | Metadata => metadata_field data row_index key display i
  | ReserveNoteProducer =>
      reserve_field data row_index (lit "indemnity reserves:") display i
  | ReserveNoteConsumer =>
      reserve_field data row_index (lit "expense reserves:") display i
  | ManagerSignoff => manager_field data row_index display i
  | NarrativeConclusion =>
      narrative_field data row_index (lit "conclusion") display i
  | NarrativeSection => narrative_field data row_index key display i
  end.

(** The producer gets as far as storing the note: its value is text with
    an ["HST"] in it. *)
Definition producer_ok (i : nat) : bool :=
  match data !! row_index with
  | Some row =>
      match row !! i with
      | Some (VStr s) => occurs HST s
      | _ => false
      end
  | None => false
  end.

End Handlers.

(** *** Effects on the state *)

Definition keeps_note {A} (m : M A) : Prop :=
  forall st, note (snd (m st)) = note st.

Definition append_block (b : block) (st : rstate) : rstate :=
  RState (push_block b (doc st)) (note st) (log st).

Definition warning_for (display : str) (e : exn) : str :=
  lit "[WARNING] Failed to insert column " ++ display ++ lit ": " ++ exn_str e.

(** What the [try]/[except] around a field makes of its outcome. *)
Definition recovered (display : str) (r : result unit * rstate) : rstate :=
  match r with
  | (Ok _, st1) => st1
  | (Raise e, st1) =>
      RState (doc st1) (note st1) (log st1 ++ [warning_for display e])
  end.

Definition row_warning (row_index : nat) : str :=
  lit "[WARNING] Row index " ++ of_nat row_index
  ++ lit " out of bounds. Using last available row.".

(** *** Expected paragraphs and blocks *)

Definition bullet_font (b : bool) : font :=
  Font (Some times) (Some 12) (Some b) (Some false) (Some false) (Some black).

(** The paragraph of a producer whose value splits into [t0], [t1], ... *)
Definition producer_para (display t0 : str) : para :=
  Para (lit "List Bullet")
       [ Run [Text (display ++ lit " ")] (bullet_font true);
         Run [Text (t0 ++ lit "HST")] (bullet_font false) ]
       None (Some 115).

(** The paragraph of a consumer rendered with the note [n]. *)
Definition consumer_para (display : str) (v : value) (n : str) : para :=
  Para (lit "List Bullet")
       [ Run [Text (display ++ lit " ")] (bullet_font true);
         Run (r_items (new_run (str_of v))) (bullet_font false);
         Run [Text (nl ++ lit "Note: " ++ strip n); Break] (bullet_font false) ]
       None (Some 115).

(** The section heading and a sub-category heading, as they end up. *)
Definition photo_heading : para :=
  apply_style (lit "Heading 1")
    (Para (lit "Heading 1") [text_run (lit "PHOTOGRAPHS"); Run [Break] no_font]
          None None).

Definition room_heading (room_name : str) : para :=
  let p := apply_style (lit "Normal")
             (push_run (Run [Break] no_font) (new_heading (upper room_name) 3)) in
  Para (p_style p) (map (set_size 18) (p_runs p)) (Some AlignCenter) (p_spacing p).

Definition placeholder : block :=
  BPara (new_para (lit "[No photographs provided]") []).

Definition not_home (m : list (str * list str)) : list (str * list str) :=
  List.filter (fun kv => negb (is_home (fst kv))) m.

Section Photos.

Variable img_err : str -> option str.

(** The blocks of one sub-category, and of the sub-categories from position
    [idx] on. *)
Definition room_blocks (count idx : nat) (room_name : str) (image_list : list str)
    : list block :=
  BPara (room_heading room_name)
  :: map (fun g => BGrid (fst g)) (grid_tables img_err image_list)
  ++ (if idx <? count - 1 then [BPageBreak] else []).

Fixpoint rooms_blocks (count idx : nat) (m : list (str * list str)) : list block :=
  match m with
  | [] => []
  | (room_name, image_list) :: rest =>
      room_blocks count idx room_name image_list ++ rooms_blocks count (S idx) rest
  end.

(** The whole section. *)
Definition photo_blocks (m : list (str * list str)) : list block :=
  if any_images m then
    BPageBreak :: BPara photo_heading
    :: (match not_home m with [] => [placeholder] | _ => [] end)
    ++ rooms_blocks (length (not_home m)) 0 (not_home m)
  else [].

End Photos.

Definition normal_font (b : bool) (c : rgb) : font :=
  Font (Some times) (Some 12) (Some b) (Some false) (Some false) (Some c).

(** The paragraph of a metadata field. *)
Definition metadata_para (key display : str) (v : value) : para :=
  Para []
       [ Run [Text (display ++ lit ": ")]
             (normal_font true (if own_line key then accent else black));
         Run (r_items (new_run (if own_line key then nl ++ str_of v ++ nl
                                else str_of v)))
             (normal_font false black) ]
       None (Some 115).

(** Heading and paragraph of a narrative section. *)
Definition section_heading (display : str) : para :=
  apply_style (lit "Heading 3") (new_heading display 2).

Definition section_para (key : str) (v : value) : para :=
  let p := apply_style (lit "Normal") (new_para (str_of v) []) in
  if eqb key (lit "recommended reserves for trinity's involvement:")
  then set_spacing 150 p
  else push_run (Run [Break] no_font) p.

(** The paragraphs of the conclusion. *)
Definition blank_para : para := Para [] [Run [Break] no_font] None None.

Definition conclusion_para (v : value) : para :=
  apply_style (lit "Normal") (new_para (str_of v) []).

(** The two paragraphs of the sign-off: the one in the metadata block and
    the closing salutation. *)
Definition manager_meta_para (display t0 : str) : para :=
  Para []
       [ Run [Text (display ++ lit ": ")] (normal_font true black);
         Run (r_items (new_run t0)) (normal_font false black) ]
       None (Some 115).

Definition salutation_para (t0 : str) (more : list str) : para :=
  let p := apply_style (lit "Normal")
             (Para []
                ([Run [Break] no_font; text_run (lit "Thank you,");
                  text_run (nl ++ t0)]
                 ++ map (fun line => text_run (nl ++ line)) more)
                None None) in
  Para (p_style p) (alter (set_bold true) 2 (p_runs p)) (p_align p) (p_spacing p).

Definition push_para (p : para) (c : cell) : cell :=
  Cell (c_paras c ++ [p]) (c_valign_center c) (c_padding c).

(** The state after a paragraph was added to a slot of the metadata table. *)
Definition in_slot (s : slot) (p : para) (st : rstate) : rstate :=
  RState (Document (d_front (doc st))
            (alter_slot (push_para p) s (d_meta (doc st)))
            (d_body (doc st)))
         (note st) (log st).

(** What rendering a field gives for each category, when the value [v] of
    the field is there. *)
Definition placed (data : list (list value)) (row_index i : nat)
    (key display : str) (v : value) (st : rstate) : Prop :=
  let run := render_field data row_index key display i st in
  match classify key with
  | Metadata =>
      run = (Ok tt, in_slot (text_cell key) (metadata_para key display v) st)
  | ReserveNoteProducer =>
      forall s t0 t1 rest,
        v = VStr s -> split_go HST 0 [] s = t0 :: t1 :: rest ->
        run = (Ok tt, RState (push_block (BPara (producer_para display t0)) (doc st))
                             t1 (log st))
  | ReserveNoteConsumer =>
      run = (Ok tt, append_block (BPara (consumer_para display v (note st))) st)
  | ManagerSignoff =>
      forall s t0 more,
        v = VStr s -> split_go nl 0 [] s = t0 :: more ->
        run = (Ok tt, append_block (BPara (salutation_para t0 more))
                        (in_slot NestedLeft (manager_meta_para display t0) st))
  | NarrativeConclusion =>
      run = (Ok tt, append_block (BPara (conclusion_para v))
                      (append_block (BPara (section_heading display))
                         (append_block (BPara blank_para) st)))
  | NarrativeSection =>
      run = (Ok tt, append_block (BPara (section_para key v))
                      (append_block (BPara (section_heading display)) st))
  end.

(** *** Views of a grid *)

Definition block_grid (b : block) : option (list (list cell)) :=
  match b with BGrid t => Some t | _ => None end.

(** What a cell of a grid shows. *)
Definition item_picture (i : item) : list (str * option (N * N)) :=
  match i with Picture p s => [(p, s)] | _ => [] end.

Definition cell_pictures (c : cell) : list (str * option (N * N)) :=
  concat (map (fun p => concat (map (fun r => concat (map item_picture (r_items r)))
                                   (p_runs p)))
              (c_paras c)).

Definition cell_text (c : cell) : str := concat (map para_text (c_paras c)).

Definition cell_align (c : cell) : list (option align) := map p_align (c_paras c).

(** The cell at [(row, col)] of a table. *)
Definition cell_at (t : list (list cell)) (row col : nat) : option cell :=
  match t !! row with Some r => r !! col | None => None end.

Section Cells.

Variable img_err : str -> option str.

(** The cell the spec describes for the image (if any) at a batch index. *)
Definition cell_shows (col : nat) (image : option str) (c : cell) : Prop :=
  match image with
  | Some path =>
      c_padding c = Some (200, 200, 200, 200) /\
      match img_err path with
      | None =>
          cell_pictures c = [(path, Some (inches_2_5, inches_2_5))]
          /\ cell_text c = []
          /\ cell_align c = [Some (if col =? 0 then AlignRight else AlignLeft)]
      | Some _ =>
          cell_pictures c = [] /\ cell_text c = lit "[Image missing]"
      end
  | None => c = new_cell
  end.

End Cells.

(** *** Sample inputs *)

Definition reserves_row : list value :=
  [VStr (lit "$1,000 plus HST tax included"); VStr (lit "$500")].

Definition no_hst_table : table :=
  Table [lit "Indemnity Reserves:"; lit "Expense Reserves:"]
        [[VStr (lit "no tax"); VStr (lit "$500")]].

Definition one_row : table :=
  Table [lit "Policyholder"] [[VStr (lit "A. Holder")]].

Definition posix_join (a b : str) : str := a ++ lit "/" ++ b.

End Obs.

(* ================================================================== *)
(** ** More of the code: Python primitives *)

Module PyMore.
Import PyStr.

(** [s.startswith(p)] *)
Definition startswith (p s : str) : bool :=
  match drop_prefix p s with Some _ => true | None => false end.

(** [s.endswith(p)] *)
Definition endswith (p s : str) : bool := startswith (rev p) (rev s).

(** [a < b] for strings: by code point, a proper prefix being smaller. *)
Fixpoint str_ltb (a b : str) : bool :=
  match a, b with
  | _, [] => false
  | [], _ :: _ => true
  | x :: a', y :: b' =>
      if code x <? code y then true
      else if code y <? code x then false
      else str_ltb a' b'
  end.

(** [sorted(l)] for a list of strings.  The sort is stable; an element is
    put in front of the first element of the sorted rest that is not smaller
    than it. *)
Fixpoint insert_sorted (x : str) (l : list str) : list str :=
  match l with
  | [] => [x]
  | y :: l' => if str_ltb y x then y :: insert_sorted x l' else x :: l
  end.

Definition sorted (l : list str) : list str := foldr insert_sorted [] l.

(** [d[k] = v] on a dict in insertion order: the value is replaced where
    the key is, the pair is added at the end otherwise. *)
Fixpoint dict_set {A} (k : str) (v : A) (d : list (str * A)) : list (str * A) :=
  match d with
  | [] => [(k, v)]
  | (k', v') :: d' =>
      if eqb k k' then (k', v) :: d' else (k', v') :: dict_set k v d'
  end.

(** [s.replace(old, new)] for a non-empty [old]: the leftmost occurrences
    that do not overlap are replaced.  [skip] counts the characters of the
    occurrence still to be passed over. *)
Fixpoint replace_go (old new : str) (skip : nat) (s : str) : str :=
  match s with
  | [] => []
  | c :: t =>
      match skip with
      | S k => replace_go old new k t
      | 0 =>
          match drop_prefix old s with
          | Some _ => new ++ replace_go old new (length old - 1) t
          | None => c :: replace_go old new 0 t
          end
      end
  end.

(** [s.replace(old, new)]; an empty [old] matches before every character
    and at the end. *)
Definition replace (old new s : str) : str :=
  match old with
  | [] => new ++ concat (map (fun c => c :: new) s)
  | _ :: _ => replace_go old new 0 s
  end.

(** [sep.join(pieces)] *)
Fixpoint join (sep : str) (pieces : list str) : str :=
  match pieces with
  | [] => []
  | [x] => x
  | x :: rest => x ++ sep ++ join sep rest
  end.

End PyMore.

(* ================================================================== *)
(** ** ReportGen.py: the cell margins written by set_cell_padding *)

Module CellMargins.
Import PyStr PyMore.

(** An element of the cell's XML: its tag and its attributes. *)
Record element := Element {
  tag : str;
  attrs : list (str * str) }.

(** [parent.find(tag)]: the position of the first child with that tag. *)
Fixpoint find (t : str) (children : list element) : option nat :=
  match children with
  | [] => None
  | e :: rest =>
      if eqb (tag e) t then Some 0
      else match find t rest with Some i => Some (S i) | None => None end
  end.

(** [node.set(k, v)] *)
Definition set_attr (k v : str) (node : element) : element :=
  Element (tag node) (dict_set k v (attrs node)).

(** One iteration of the loop over the four sides, on the children of
    [w:tcMar]. *)
Definition set_side (tcMar : list element) (side : str) (value : nat) : list element :=
  let t := lit "w:" ++ side in
  let '(tcMar, i) :=
    match find t tcMar with
    | Some i => (tcMar, i)
    | None => (tcMar ++ [Element t []], length tcMar)
    end in
  alter (fun node => set_attr (lit "w:type") (lit "dxa")
                       (set_attr (lit "w:w") (of_nat value) node)) i tcMar.

(** [set_cell_padding(cell, top, start, bottom, end)]: [tcMar] holds the
    children of the cell's [w:tcMar] element when the cell has one; the
    result is the children of the element after the call. *)
Definition set_cell_padding (tcMar : option (list element))
    (top start bottom end_ : nat) : list element :=
  let tcMar := match tcMar with Some m => m | None => [] end in
  fold_left (fun m sv => set_side m (fst sv) (snd sv))
    [ (lit "top", top); (lit "start", start);
      (lit "bottom", bottom); (lit "end", end_) ]
    tcMar.

End CellMargins.

(* ================================================================== *)
(** ** ReportGen.py: the application object *)

Module MultiDocApp.
Import PyStr PyMore Docx Py ReportGen.

(** *** The log area *)

Definition quote : str := ["034"%char].

(** The colour [log] picks for a message. *)
Definition log_color (message : str) : str :=
  if startswith (lit "[ERROR]") message then lit "red"
  else if startswith (lit "[SUCCESS]") message then lit "lightgreen"
  else if startswith (lit "[WARNING]") message then lit "yellow"
  else lit "white".

(** [self.log(message)], on the content of the log area. *)
Definition log (message : str) (content : str) : str :=
  content ++ lit "<span style=" ++ quote ++ lit "color:" ++ log_color message
  ++ quote ++ lit ">" ++ message ++ lit "</span><br>".

(** [self.clear_log()] *)
Definition clear_log (content : str) : str := [].

(** *** The state of the application

    [out] holds the lines logged since the log area was last cleared and
    the documents in the output folder; [archive] is the content of
    [Generated_Reports.zip] when that file exists. *)
Record app := App {
  excel_path : option str;
  claim_image_map : list (str * list (str * list str));
  download_path : str;
  archive : option (list (str * document));
  out : world }.

(** *** The scan of an uploaded folder tree *)

(** What [os.listdir] and [os.path.isdir] see of the extracted archive. *)
#[local] Unset Elimination Schemes.
Inductive node :=
| File
| Dir (entries : list (str * node)).
#[local] Set Elimination Schemes.

Definition isdir (n : node) : bool :=
  match n with Dir _ => true | File => false end.

Definition listdir (n : node) : list (str * node) :=
  match n with Dir entries => entries | File => [] end.

Definition valid_ext : list str := [lit ".jpg"; lit ".jpeg"; lit ".png"].

(** [f.lower().endswith(valid_ext)] *)
Definition is_image (f : str) : bool :=
  existsb (fun ext => endswith ext (lower f)) valid_ext.

Section Upload.

(** [os.path.join] *)
Variable path_join : str -> str -> str.

(** The sorted list comprehension over the entries of a room folder. *)
Definition images_of (room_path : str) (entries : list (str * node)) : list str :=
  sorted (map (fun f => path_join room_path (fst f))
              (List.filter (fun f => is_image (fst f)) entries)).

(** The loop over the entries of a claim folder. *)
Definition scan_rooms (claim_path : str) (entries : list (str * node))
    : list (str * list str) :=
  fold_left
    (fun room_images e =>
       let room := fst e in
       let room_path := path_join claim_path room in
       if isdir (snd e) then
         match images_of room_path (listdir (snd e)) with
         | [] => room_images
         | images => dict_set room images room_images
         end
       else room_images)
    entries [].

(** The loop over the entries of the parent folder. *)
Definition scan_claims (parent_folder : str) (entries : list (str * node))
    : list (str * list (str * list str)) :=
  fold_left
    (fun m e =>
       let claim := fst e in
       let claim_path := path_join parent_folder claim in
       if isdir (snd e) then
         match scan_rooms claim_path (listdir (snd e)) with
         | [] => m
         | room_images => dict_set claim room_images m
         end
       else m)
    entries [].

Definition set_out (w : world) (a : app) : app :=
  App (excel_path a) (claim_image_map a) (download_path a) (archive a) w.

(** [handle_folder_zip_upload] from the point where the archive has been
    extracted: [extracted] is the listing of [extract_base]. *)
Definition handle_folder_zip_upload (extract_base : str)
    (extracted : list (str * node)) (a : app) : app :=
  match List.filter (fun d => isdir (snd d)) extracted with
  | [] => set_out (say [lit "[ERROR] ZIP did not contain any folders."] (out a)) a
  | d :: _ =>
      let parent_folder := path_join extract_base (fst d) in
      let w := say [lit "[INFO] Detected parent folder: " ++ parent_folder] (out a) in
      let m := scan_claims parent_folder (listdir (snd d)) in
      let w :=
        match m with
        | [] => say [lit "[WARNING] No valid claim folders or images found."] w
        | _ :: _ =>
            say [lit "[SUCCESS] Found " ++ of_nat (length m)
                 ++ lit " claim(s) inside " ++ parent_folder] w
        end in
      App (excel_path a) m (download_path a) (archive a) w
  end.

End Upload.

(** *** process_files *)

Section Process.

Variable img_err : str -> option str.
Variable path_join : str -> str -> str.

(** [os.path.basename] *)
Variable basename : str -> str.

Variable output_folder : str.
Variable excel : result table.
Variable template : option (list block).

(** The entries written to the archive: one for every generated path that
    exists, under its base name, with the content the file has then. *)
Definition zip_entries (generated_files : list str) (fs : gmap str document)
    : list (str * document) :=
  omap (fun fpath =>
          match fs !! fpath with
          | Some d => Some (basename fpath, d)
          | None => None
          end)
       generated_files.

Definition process_files (a : app) : app :=
  let no_excel := match excel_path a with Some (_ :: _) => false | _ => true end in
  let no_claims := match claim_image_map a with [] => true | _ :: _ => false end in
  if no_excel || no_claims then
    set_out (say [lit "[ERROR] Please upload an Excel file and a valid image folder structure (ZIP)."]
                 (out a)) a
  else
    let w := World [lit "[INFO] Preparing to generate documents..."] (w_fs (out a)) in
    let '(generated_files, w) :=
      case_loop img_err path_join output_folder excel template 0
        (claim_image_map a) ([], w) in
    match generated_files with
    | [] => set_out (say [lit "[WARNING] No documents were generated."] w) a
    | _ :: _ =>
        let n := of_nat (length generated_files) in
        let w := say [lit "[SUCCESS] " ++ n ++ lit " document(s) generated in "
                      ++ output_folder] w in
        let zip_path := path_join output_folder (lit "Generated_Reports.zip") in
        let entries := zip_entries generated_files (w_fs w) in
        let w := say [lit "[INFO] Packaged " ++ n ++ lit " documents into: "
                      ++ zip_path] w in
        App (excel_path a) (claim_image_map a) zip_path (Some entries) w
    end.

End Process.

End MultiDocApp.

(* ================================================================== *)
(** ** ReportGenTemp.py: filling the placeholders of the template *)

Module ReportGenTemp.
Import PyStr PyMore Docx Py ReportGen Obs.

(** What [replace_placeholders] visits of a document: the paragraphs of the
    body and, table by table and row by row, the cells of its tables. *)
Record template_doc := TemplateDoc {
  paragraphs : list para;
  tables : list (list (list cell)) }.

(** [para.text = text]: the runs are replaced by one run with the text;
    the paragraph keeps its style and format. *)
Definition set_text (text : str) (p : para) : para :=
  Para (p_style p) [new_run text] (p_align p) (p_spacing p).

(** The loop over [replacements.items()] for one paragraph; [key in
    para.text] is [occurs key (para_text p)]. *)
Definition replace_in_para (replacements : list (str * value)) (p : para) : para :=
  fold_left
    (fun p kv =>
       if occurs (fst kv) (para_text p)
       then set_text (replace (fst kv) (str_of (snd kv)) (para_text p)) p
       else p)
    replacements p.

Definition replace_in_cell (replacements : list (str * value)) (c : cell) : cell :=
  Cell (map (replace_in_para replacements) (c_paras c))
       (c_valign_center c) (c_padding c).

Definition replace_placeholders (d : template_doc)
    (replacements : list (str * value)) : template_doc :=
  TemplateDoc
    (map (replace_in_para replacements) (paragraphs d))
    (map (map (map (replace_in_cell replacements))) (tables d)).

(** [row.get(label, default)], the default being the empty string, for the
    row of a frame with the given columns ([read_excel] gives every column
    a label of its own, so the first column of a label is the column). *)
Definition row_get (columns : list str) (row : list value) (label : str) : value :=
  match assoc label (zip columns row) with
  | Some v => v
  | None => VStr []
  end.

(** The placeholders and the column each is filled from. *)
Definition placeholders : list (str * str) :=
  [ (lit "{{POLICY_HOLDER}}", lit "POLICYHOLDER");
    (lit "{{ADDRESS}}", lit "ADDRESS");
    (lit "{{INSURER}}", lit "INSURER");
    (lit "{{CLAIM#}}", lit "CLAIM #");
    (lit "{{ADJUSTER}}", lit "ADJUSTER");
    (lit "{{GC}}", lit "ASSIGNED GC");
    (lit "{{PM}}", lit "PRODUCT MANAGER");
    (lit "{{CONTACT}}", lit "PM Contact");
    (lit "{{DATE_OF_LOSS}}", lit "Date of Loss");
    (lit "{{DA}}", lit "Date Assigned");
    (lit "{{DI}}", lit "Date of Inspection");
    (lit "{{DR}}", lit "Date of Report");
    (lit "{{LOSS}}", lit "Type of Loss");
    (lit "{{DESCRIPTION_OF_RISK}}", lit "Description of Risk");
    (lit "{{CAUSE_OF_LOSS}}", lit "Cause of Loss");
    (lit "{{ORIGINS_OF_LOSS}}", lit "Origins of Loss");
    (lit "{{SCOPE_OF_WORK}}", lit "Scope of Work");
    (lit "{{INSURED_CONTENTS_LOSS}}", lit "Insured Contents Loss");
    (lit "{{TRINITY_RESERVES}}", lit "Trinity Reserves");
    (lit "{{PLAN_OF_ACTION}}", lit "Plan of Action");
    (lit "{{SIGNATURE}}", lit "Product Manager") ].

(** The [replacements] dict of [generate_docs]. *)
Definition replacements (columns : list str) (row : list value) : list (str * value) :=
  map (fun kl => (fst kl, row_get columns row (snd kl))) placeholders.

End ReportGenTemp.
(* ================================================================== *)
(** ** Further observations *)

Module Views.
Import PyStr PyMore Label Docx Py ReportGen Obs.

(** *** Cell margins *)

(** What a side of the cell margins reads: the [w:w] and [w:type]
    attributes of the first node with the side's tag. *)
Definition margin (side : str) (tcMar : list CellMargins.element)
    : option (option str * option str) :=
  match CellMargins.find (lit "w:" ++ side) tcMar with
  | Some i =>
      match tcMar !! i with
      | Some node =>
          Some (assoc (lit "w:w") (CellMargins.attrs node),
                assoc (lit "w:type") (CellMargins.attrs node))
      | None => None
      end
  | None => None
  end.

Definition side_tags : list str :=
  [lit "w:top"; lit "w:start"; lit "w:bottom"; lit "w:end"].

(** What [set_side] does to the node of its side. *)
Definition stamp (value : nat) (node : CellMargins.element) : CellMargins.element :=
  CellMargins.set_attr (lit "w:type") (lit "dxa")
    (CellMargins.set_attr (lit "w:w") (of_nat value) node).

(** A side that reads [value] twentieths of a point. *)
Definition set_to (value : nat) : option (option str * option str) :=
  Some (Some (of_nat value), Some (lit "dxa")).

(** *** Characters and text *)

Definition digit (c : ascii) : Prop := between 48 57 c = true.

(** [a <= b] for strings. *)
Definition str_le (a b : str) : Prop := str_ltb b a = false.

(** During a split: no non-empty end of the current piece, followed by
    the rest of the text, begins with the separator. *)
Definition piece_open (sep cur s : str) : Prop :=
  forall a b, rev cur = a ++ b -> b <> [] -> drop_prefix sep (b ++ s) = None.

Definition is_warning (msg : str) : Prop :=
  startswith (lit "[WARNING]") msg = true.

(** *** What rendering leaves in place *)

(** A cell that still has the paragraphs it had, in front of any new ones. *)
Definition cell_kept (c0 c : cell) : Prop :=
  c_paras c0 `prefix_of` c_paras c
  /\ c_valign_center c = c_valign_center c0
  /\ c_padding c = c_padding c0.

(** A state that still has all that [st0] had: the front matter and the
    image cell are the same, the blocks of the body and the paragraphs of
    every cell of the metadata table are still there, unchanged, in front
    of whatever was added. *)
Record kept (st0 st : rstate) : Prop := Kept {
  kept_front : d_front (doc st) = d_front (doc st0);
  kept_image : m_image (d_meta (doc st)) = m_image (d_meta (doc st0));
  kept_body : d_body (doc st0) `prefix_of` d_body (doc st);
  kept_cells : forall s, cell_kept (get_slot s (d_meta (doc st0)))
                                   (get_slot s (d_meta (doc st))) }.

(** A paragraph that was not there in [st0]. *)
Definition fresh (st0 : rstate) (r : pref) : Prop :=
  match r with
  | InBody i => length (d_body (doc st0)) <= i
  | InSlot s i =>
      s <> ImageCell /\ length (c_paras (get_slot s (d_meta (doc st0)))) <= i
  end.

(** A computation that keeps what [st0] had, logs nothing, and returns
    values that satisfy [Q]. *)
Definition safe {A} (st0 : rstate) (Q : A -> Prop) (m : M A) : Prop :=
  forall st, kept st0 st ->
    kept st0 (snd (m st))
    /\ log (snd (m st)) = log st
    /\ forall a, fst (m st) = Ok a -> Q a.

(** The exception a field raises, by the category of its key and the value
    in its column: only the note producer and the sign-off depend on the
    value being text. *)
Definition field_error (key : str) (v : value) : option exn :=
  match classify key, v with
  | ReserveNoteProducer, VStr s =>
      if occurs HST s then None else Some IndexError
  | ReserveNoteProducer, VOther ty _ => Some (AttributeError ty (lit "split"))
  | ManagerSignoff, VOther ty _ => Some (AttributeError ty (lit "split"))
  | _, _ => None
  end.

(** The warning a failing field leaves in the log. *)
Definition field_warning (label : str) (v : value) : list str :=
  match field_error (normalize label) v with
  | Some e => [warning_for (display_name label) e]
  | None => []
  end.

(** *** The header image *)

Section Header.

Variable img_err : str -> option str.

(** The image cell with a message in place of the picture. *)
Definition message_cell (msg : str) (c : cell) : cell :=
  Cell [Para [] [text_run msg] None None] true (c_padding c).

(** The image cell with the picture: a run of two line breaks, the picture
    at its natural size and a line break, added to the first paragraph,
    which is centred. *)
Definition picture_cell (path : str) (c : cell) : cell :=
  match c_paras c with
  | p :: ps =>
      Cell (Para (p_style p)
                 (p_runs p ++ [Run [Break; Break; Picture path None; Break] no_font])
                 (Some AlignCenter) (p_spacing p) :: ps)
           true (c_padding c)
  | [] => c
  end.

(** The image cell and the line logged when the picture cannot be inserted. *)
Definition header_missing (e : exn) (c : cell) : cell * list str :=
  (message_cell (lit "[Header image missing]") c,
   [lit "[WARNING] Failed to insert header image: " ++ exn_str e]).

(** The image cell and the lines logged, by what the image set holds. *)
Definition header_cell (m : list (str * list str)) (c : cell) : cell * list str :=
  match find_home m with
  | None => (message_cell (lit "[Header image not provided]") c, [])
  | Some (_, []) => header_missing IndexError c
  | Some (_, path :: _) =>
      match img_err path with
      | None => (picture_cell path c, [])
      | Some msg => header_missing (OtherError msg) c
      end
  end.

End Header.

(** *** The photographs *)

Section PhotoViews.

Variable img_err : str -> option str.

Definition image_warning (path msg : str) : str :=
  lit "[WARNING] Failed to insert image " ++ path ++ lit ": " ++ msg.

(** The warnings for the images of a list that cannot be inserted, and the
    images that can, both in the order of the list. *)
Definition failures (image_list : list str) : list str :=
  omap (fun path =>
          match img_err path with
          | Some msg => Some (image_warning path msg)
          | None => None
          end)
       image_list.

Definition shown (image_list : list str) : list str :=
  List.filter (fun path => match img_err path with None => true | Some _ => false end)
              image_list.

(** The pictures of a table, cell by cell and row by row. *)
Definition table_pictures (t : list (list cell)) : list (str * option (N * N)) :=
  concat (map cell_pictures (concat t)).

(** The lines the photo section logs. *)
Definition photo_warnings (m : list (str * list str)) : list str :=
  if any_images m
  then concat (map (fun kv => failures (snd kv)) (not_home m))
  else [].

End PhotoViews.


(** *** Runs of process_files *)

(** The error [generate_docs] stops with when the source cannot be used. *)
Definition read_error (excel : result table) : option str :=
  match excel with
  | Raise e => Some (lit "[ERROR] Failed to read Excel file: " ++ exn_str e)
  | Ok df =>
      match values df with
      | [] => Some (lit "[ERROR] Excel file contains no rows.")
      | _ :: _ => None
      end
  end.

Section Runs.

Variable path_join : str -> str -> str.
Variable output_folder : str.


(** The lines of the cases when the source gives the error [err]. *)
Fixpoint failed_lines (err : str) (i : nat)
    (claims : list (str * list (str * list str))) : list str :=
  match claims with
  | [] => []
  | (claim_name, _) :: rest =>
      [ lit "[INFO] Generating document for claim: " ++ claim_name
        ++ lit " -> " ++ output_path path_join output_folder i claim_name;
        err;
        lit "[WARNING] Document generation returned no result for claim: "
        ++ claim_name ]
      ++ failed_lines err (S i) rest
  end.

End Runs.

(** *** The map of cases *)

(** A list of images as the scan leaves it: not empty, ascending. *)
Definition tidy_room (images : list str) : Prop :=
  images <> [] /\ Sorted.StronglySorted str_le images.

(** A case with a sub-category at least, each with images. *)
Definition tidy_case (rooms : list (str * list str)) : Prop :=
  rooms <> [] /\ Forall (fun room => tidy_room (snd room)) rooms.

Definition tidy (m : list (str * list (str * list str))) : Prop :=
  Forall (fun claim => tidy_case (snd claim)) m.

Section ScanViews.

Variable path_join : str -> str -> str.

(** What a folder of a case adds to the map of the case, if anything. *)
Definition room_entry (claim_path : str) (e : str * MultiDocApp.node)
    : option (str * list str) :=
  if MultiDocApp.isdir (snd e) then
    match MultiDocApp.images_of path_join (path_join claim_path (fst e))
            (MultiDocApp.listdir (snd e)) with
    | [] => None
    | images => Some (fst e, images)
    end
  else None.

(** What a folder of the parent folder adds to the map of cases. *)
Definition claim_entry (parent_folder : str) (e : str * MultiDocApp.node)
    : option (str * list (str * list str)) :=
  if MultiDocApp.isdir (snd e) then
    match MultiDocApp.scan_rooms path_join (path_join parent_folder (fst e))
            (MultiDocApp.listdir (snd e)) with
    | [] => None
    | rooms => Some (fst e, rooms)
    end
  else None.

End ScanViews.

(** *** Placeholders *)

Definition no_brace (s : str) : Prop := ~ In "{"%char s.

(** A key of the form ["{{body}}"], the body without braces. *)
Definition placeholder_key (key : str) : Prop :=
  exists body,
    key = lit "{{" ++ body ++ lit "}}"
    /\ ~ In "{"%char body /\ ~ In "}"%char body.

(** The same, as a test: what is between the first two and the last two
    characters, and whether a text has no brace. *)
Definition inner (key : str) : str := rev (drop 2 (rev (drop 2 key))).

Definition braceless (s : str) : bool :=
  forallb (fun c => negb (Strings.Ascii.eqb c "{" || Strings.Ascii.eqb c "}")) s.

Definition is_placeholder_key (key : str) : bool :=
  eqb key (lit "{{" ++ inner key ++ lit "}}") && braceless (inner key).

(** The replacements applied to a text one after the other. *)
Definition fill (replacements : list (str * value)) (text : str) : str :=
  fold_left (fun t kv => replace (fst kv) (str_of (snd kv)) t) replacements text.

(** The paragraphs [replace_placeholders] visits. *)
Definition all_paragraphs (d : ReportGenTemp.template_doc) : list para :=
  ReportGenTemp.paragraphs d
  ++ concat (map c_paras (concat (concat (ReportGenTemp.tables d)))).

(** The application has a source file and cases to process. *)
Definition has_input (a : MultiDocApp.app) : bool :=
  match MultiDocApp.excel_path a, MultiDocApp.claim_image_map a with
  | Some (_ :: _), _ :: _ => true
  | _, _ => false
  end.

(** The content of the log area after some lines, each logged with
    [MultiDocApp.log]. *)
Definition log_area (content : str) (lines : list str) : str :=
  fold_left (fun c line => MultiDocApp.log line c) lines content.

(** A state with another image cell and more lines in the log. *)
Definition with_image (c : cell) (msgs : list str) (st : rstate) : rstate :=
  RState (Document (d_front (doc st))
            (alter_slot (fun _ => c) ImageCell (d_meta (doc st)))
            (d_body (doc st)))
         (note st) (log st ++ msgs).

End Views.

(* ================================================================== *)
(** * Properties *)

(** ** Characters and trimming *)

Module PyStrFacts.
Import PyStr Obs.

Ltac by_char c := destruct c as [[] [] [] [] [] [] [] []]; vm_compute; try reflexivity; try congruence.

Lemma lower_char_idem c : lower_char (lower_char c) = lower_char c.
Proof. by_char c. Qed.

Lemma isspace_lower_char c : isspace (lower_char c) = isspace c.
Proof. by_char c. Qed.

Lemma isalnum_not_space c : isalnum c = true -> isspace c = false.
Proof. by_char c. Qed.

Lemma lower_idem s : lower (lower s) = lower s.
Proof.
  unfold lower. rewrite map_map. apply map_ext. intros; apply lower_char_idem.
Qed.

Lemma lstrip_length s : length (lstrip s) <= length s.
Proof. induction s as [|c t IH]; simpl; [lia|]. destruct (isspace c); simpl; lia. Qed.

Lemma lstrip_idem s : lstrip (lstrip s) = lstrip s.
Proof.
  induction s as [|c t IH]; simpl; [reflexivity|].
  destruct (isspace c) eqn:E; [assumption|]. simpl. now rewrite E.
Qed.

(** Left-trimming a concatenation: the second part is reached only when the
    first is all white space. *)
Lemma lstrip_app a b :
  lstrip (a ++ b) = match lstrip a with [] => lstrip b | l => l ++ b end.
Proof.
  induction a as [|c t IH]; simpl; [reflexivity|].
  destruct (isspace c); [assumption|reflexivity].
Qed.

Lemma rstrip_cons c t :
  rstrip (c :: t) =
  match rstrip t with
  | [] => if isspace c then [] else [c]
  | l => c :: l
  end.
Proof.
  unfold rstrip. simpl rev. rewrite lstrip_app.
  destruct (lstrip (rev t)) as [|x l] eqn:E; simpl.
  - destruct (isspace c); reflexivity.
  - rewrite rev_app_distr. simpl.
    destruct (rev l ++ [x]) eqn:E'; [|reflexivity].
    destruct (rev l); discriminate.
Qed.

Lemma rstrip_length s : length (rstrip s) <= length s.
Proof.
  unfold rstrip. rewrite length_rev.
  etransitivity; [apply lstrip_length|]. now rewrite length_rev.
Qed.

Lemma rstrip_idem s : rstrip (rstrip s) = rstrip s.
Proof. unfold rstrip. now rewrite rev_involutive, lstrip_idem. Qed.

(** Right-trimming keeps a first character that is not white space. *)
Lemma lstrip_rstrip_lstrip s : lstrip (rstrip (lstrip s)) = rstrip (lstrip s).
Proof.
  induction s as [|c t IH]; simpl; [reflexivity|].
  destruct (isspace c) eqn:E; [assumption|].
  rewrite rstrip_cons. destruct (rstrip t); rewrite ?E; simpl; now rewrite E.
Qed.

Lemma strip_idem s : strip (strip s) = strip s.
Proof. unfold strip. now rewrite lstrip_rstrip_lstrip, rstrip_idem. Qed.

Lemma strip_length s : length (strip s) <= length s.
Proof.
  unfold strip. etransitivity; [apply rstrip_length|apply lstrip_length].
Qed.

Lemma lstrip_lower s : lstrip (lower s) = lower (lstrip s).
Proof.
  induction s as [|c t IH]; simpl; [reflexivity|].
  rewrite isspace_lower_char. destruct (isspace c); [assumption|reflexivity].
Qed.

Lemma strip_lower s : strip (lower s) = lower (strip s).
Proof.
  unfold strip, rstrip. rewrite lstrip_lower. unfold lower.
  rewrite <- map_rev. fold (lower (rev (lstrip s))).
  rewrite lstrip_lower. unfold lower. now rewrite map_rev.
Qed.

(** A string with a character that is not white space does not trim to
    nothing. *)
Lemma lstrip_nonempty s c :
  In c s -> isspace c = false -> lstrip s <> [].
Proof.
  induction s as [|a t IH]; simpl; [tauto|].
  intros [->|Hin] Hc.
  - now rewrite Hc.
  - destruct (isspace a); [auto|discriminate].
Qed.

Lemma lstrip_suffix s : exists p, s = p ++ lstrip s.
Proof.
  induction s as [|a t [p IH]]; simpl; [now exists []|].
  destruct (isspace a).
  - exists (a :: p). simpl. now f_equal.
  - now exists [].
Qed.

Lemma lstrip_In s c : In c s -> isspace c = false -> In c (lstrip s).
Proof.
  induction s as [|a t IH]; simpl; [tauto|].
  intros [->|Hin] Hc.
  - rewrite Hc. now left.
  - destruct (isspace a); [auto|now right].
Qed.

Lemma strip_nonempty s c :
  In c s -> isspace c = false -> strip s <> [].
Proof.
  intros Hin Hc. unfold strip, rstrip.
  assert (H1 : In c (rev (lstrip s))).
  { apply in_rev. rewrite rev_involutive. now apply lstrip_In. }
  pose proof (lstrip_nonempty _ _ H1 Hc) as H2.
  intros H3. apply H2.
  apply (f_equal (@rev ascii)) in H3. now rewrite rev_involutive in H3.
Qed.

End PyStrFacts.

(** ** The matcher and the substitution *)

Module ReFacts.
Import PyStr Re Obs PyStrFacts.

Lemma weigh_app w a b : weigh w (a ++ b) = weigh w a + weigh w b.
Proof. unfold weigh. now rewrite map_app, list_sum_app. Qed.

Lemma weigh_cons w c s : weigh w (c :: s) = w c + weigh w s.
Proof. reflexivity. Qed.

Lemma or_else_Some {A} (x y : option A) (v : A) :
  or_else x y = Some v -> x = Some v \/ y = Some v.
Proof. destruct x; simpl; auto. Qed.

Section Weights.

Variable w : ascii -> nat.
Variable aw : atom -> nat.
Hypothesis aw_sound : forall a c, amatch a c = true -> aw a <= w c.

Lemma consumes_Some : consumes w 0 Some.
Proof. intros s x [= ->]. exists []. split; [reflexivity|cbn; lia]. Qed.

Lemma consumes_step d k c :
  forall t x e, k t = Some x -> consumes w d k -> e <= w c ->
  exists m, c :: t = m ++ x /\ d + e <= weigh w m.
Proof.
  intros t x e Hk Hc He. destruct (Hc _ _ Hk) as (m & -> & Hm).
  exists (c :: m). split; [reflexivity|]. rewrite weigh_cons. lia.
Qed.

Lemma star_consumes a d k :
  consumes w d k -> consumes w d (fun s => star a s k).
Proof.
  intros Hk s. induction s as [|c t IH]; intros x; simpl.
  - apply Hk.
  - destruct (amatch a c).
    + intros H. apply or_else_Some in H as [H|H]; [|now apply Hk].
      destruct (IH _ H) as (m & -> & Hm). exists (c :: m).
      split; [reflexivity|]. rewrite weigh_cons. lia.
    + apply Hk.
Qed.

Lemma rmatch_consumes r : forall d k,
  consumes w d k -> consumes w (d + min_weight aw r) (fun s => rmatch r s k).
Proof.
  induction r as [|a|a|r IH|r1 IH1 r2 IH2|r1 IH1 r2 IH2];
    intros d k Hk s x; simpl.
  - rewrite Nat.add_0_r. apply Hk.
  - destruct s as [|c t]; [discriminate|].
    destruct (amatch a c) eqn:E; [|discriminate].
    intros H. eapply consumes_step; eauto.
  - rewrite Nat.add_0_r. apply (star_consumes a Hk).
  - rewrite Nat.add_0_r. intros H. apply or_else_Some in H as [H|H].
    + destruct (IH _ _ Hk _ _ H) as (m & -> & Hm). exists m. split; [reflexivity|lia].
    + now apply Hk.
  - intros H. destruct (IH1 _ _ (IH2 _ _ Hk) _ _ H) as (m & -> & Hm).
    exists m. split; [reflexivity|lia].
  - intros H. apply or_else_Some in H as [H|H].
    + destruct (IH1 _ _ Hk _ _ H) as (m & -> & Hm). exists m. split; [reflexivity|lia].
    + destruct (IH2 _ _ Hk _ _ H) as (m & -> & Hm). exists m. split; [reflexivity|lia].
Qed.

(** A match takes a prefix of weight at least [min_weight aw r]. *)
Lemma match_at_consumes r s rest :
  match_at r s = Some rest ->
  exists m, s = m ++ rest /\ min_weight aw r <= weigh w m.
Proof.
  intros H. apply (rmatch_consumes r consumes_Some) in H. exact H.
Qed.

End Weights.

Lemma weigh_length s : weigh (fun _ => 1) s = length s.
Proof. induction s as [|c s IH]; [reflexivity|]. rewrite weigh_cons, IH. reflexivity. Qed.

Lemma weigh_drop_le w k s : weigh w (drop k s) <= weigh w s.
Proof.
  rewrite <- (take_drop k s) at 2. rewrite weigh_app. lia.
Qed.

Lemma sub_go_cons r k c t :
  sub_go r k (c :: t) =
  match k with
  | S k' => sub_go r k' t
  | 0 =>
      match match_at r (c :: t) with
      | Some rest =>
          match length (c :: t) - length rest with
          | S n => sub_go r n t
          | 0 => c :: sub_go r 0 t
          end
      | None => c :: sub_go r 0 t
      end
  end.
Proof. reflexivity. Qed.

(** What is left after a match, as the part of the text behind it. *)
Lemma match_at_drop r c t rest n :
  match_at r (c :: t) = Some rest ->
  length (c :: t) - length rest = S n ->
  drop n t = rest.
Proof.
  intros H Hn.
  destruct (@match_at_consumes (fun _ => 0) (fun _ => 0)
              ltac:(intros; lia) r _ _ H) as (m & E & _).
  rewrite E, length_app in Hn.
  destruct m as [|c' m]; cbn in Hn; [lia|].
  injection E as -> ->. assert (n = length m) as -> by lia.
  apply drop_app_length.
Qed.

Section Sub.

Variable w : ascii -> nat.
Variable aw : atom -> nat.
Hypothesis aw_sound : forall a c, amatch a c = true -> aw a <= w c.

(** Substitution removes text: the weight does not grow. *)
Lemma sub_go_weight r : forall s k,
  weigh w (sub_go r k s) <= weigh w (drop k s).
Proof.
  induction s as [|c t IH]; intros k; [now destruct k|].
  rewrite sub_go_cons. destruct k as [|k]; [|apply IH].
  rewrite drop_0. pose proof (IH 0) as IH0. rewrite drop_0 in IH0.
  destruct (match_at r (c :: t)) as [rest|] eqn:E.
  - destruct (length (c :: t) - length rest) as [|n] eqn:En.
    + rewrite !weigh_cons. lia.
    + etransitivity; [apply IH|]. rewrite weigh_cons.
      pose proof (weigh_drop_le w n t). lia.
  - rewrite !weigh_cons. lia.
Qed.

(** With a match somewhere, at least the least weight of a match goes. *)
Lemma sub_match_weight r s :
  0 < min_weight (fun _ => 1) r ->
  search r s = true ->
  weigh w (sub r s) + min_weight aw r <= weigh w s.
Proof.
  intros Hpos. unfold sub. induction s as [|c t IH].
  - cbn [search]. destruct (match_at r []) as [rest|] eqn:E; [|discriminate].
    destruct (@match_at_consumes (fun _ => 1) (fun _ => 1)
                ltac:(intros; lia) r _ _ E) as (m & Em & Hm).
    destruct m; [cbn in Hm; lia|discriminate].
  - rewrite sub_go_cons. cbn [search].
    destruct (match_at r (c :: t)) as [rest|] eqn:E.
    + intros _.
      destruct (@match_at_consumes (fun _ => 1) (fun _ => 1)
                  ltac:(intros; lia) r _ _ E) as (m1 & Em1 & Hm1).
      destruct (@match_at_consumes w aw aw_sound r _ _ E) as (m & Em & Hm).
      assert (m1 = m) as ->.
      { apply (app_inv_tail rest). congruence. }
      rewrite weigh_length in Hm1.
      destruct (length (c :: t) - length rest) as [|n] eqn:En.
      { rewrite Em, length_app in En. lia. }
      pose proof (sub_go_weight r t n) as Hs.
      rewrite (@match_at_drop r c t rest n E En) in Hs.
      rewrite Em, weigh_app. lia.
    + intros H. apply IH in H. rewrite !weigh_cons. lia.
Qed.

(** A text too light for a match has none. *)
Lemma search_needs_weight r s :
  weigh w s < min_weight aw r -> search r s = false.
Proof.
  induction s as [|c t IH]; intros H; cbn [search].
  - destruct (match_at r []) as [rest|] eqn:E; [|reflexivity].
    destruct (@match_at_consumes w aw aw_sound r _ _ E) as (m & Em & Hm).
    destruct m; [cbn in *; lia|discriminate].
  - destruct (match_at r (c :: t)) as [rest|] eqn:E.
    + destruct (@match_at_consumes w aw aw_sound r _ _ E) as (m & Em & Hm).
      rewrite Em, weigh_app in H. lia.
    + apply IH. rewrite weigh_cons in H. lia.
Qed.

End Sub.

(** *** Matching does not depend on letter case or on what follows *)

Lemma amatch_lower a c : amatch a (lower_char c) = amatch a c.
Proof.
  destruct a as [| |l]; cbn [amatch].
  - apply isspace_lower_char.
  - f_equal. by_char c.
  - now rewrite lower_char_idem.
Qed.



Lemma or_else_is_some {A} (x y : option A) :
  is_some (or_else x y) = is_some x || is_some y.
Proof. now destruct x. Qed.

Lemma star_lower a : forall s k k',
  (forall s', is_some (k' (lower s')) = is_some (k s')) ->
  is_some (star a (lower s) k') = is_some (star a s k).
Proof.
  induction s as [|c t IH]; intros k k' Hk; cbn [lower map star].
  - apply (Hk []).
  - rewrite amatch_lower. destruct (amatch a c); [|apply (Hk (c :: t))].
    rewrite !or_else_is_some. f_equal; [now apply IH|apply (Hk (c :: t))].
Qed.

Lemma rmatch_lower r : forall s k k',
  (forall s', is_some (k' (lower s')) = is_some (k s')) ->
  is_some (rmatch r (lower s) k') = is_some (rmatch r s k).
Proof.
  induction r as [|a|a|r IH|r1 IH1 r2 IH2|r1 IH1 r2 IH2];
    intros s k k' Hk; cbn [rmatch].
  - apply Hk.
  - destruct s as [|c t]; [reflexivity|]. cbn [lower map].
    rewrite amatch_lower. destruct (amatch a c); [apply (Hk t)|reflexivity].
  - now apply star_lower.
  - rewrite !or_else_is_some. f_equal; [now apply IH|apply Hk].
  - apply IH1. intros s'. now apply IH2.
  - rewrite !or_else_is_some. f_equal; [now apply IH1|now apply IH2].
Qed.

Lemma search_is_some r s :
  search r s = is_some (match_at r s)
               || match s with [] => false | _ :: t => search r t end.
Proof. destruct s; cbn [search]; now destruct (match_at r _). Qed.

Lemma match_at_lower r s :
  is_some (match_at r (lower s)) = is_some (match_at r s).
Proof. apply (rmatch_lower r s Some Some). reflexivity. Qed.

Lemma search_lower r s : search r (lower s) = search r s.
Proof.
  induction s as [|c t IH].
  - rewrite (search_is_some r []), (search_is_some r (lower [])).
    now rewrite match_at_lower.
  - rewrite (search_is_some r (c :: t)), (search_is_some r (lower (c :: t))).
    rewrite match_at_lower. cbn [lower map]. fold (lower t). now rewrite IH.
Qed.

Lemma star_extend a suffix : forall s k k',
  (forall s', is_some (k s') = true -> is_some (k' (s' ++ suffix)) = true) ->
  is_some (star a s k) = true -> is_some (star a (s ++ suffix) k') = true.
Proof.
  intros s k k' Hk.
  assert (Hbase : forall u, is_some (k' u) = true -> is_some (star a u k') = true).
  { intros [|c u] H; cbn [star]; [exact H|].
    destruct (amatch a c); [|exact H].
    rewrite or_else_is_some, H. apply orb_true_r. }
  induction s as [|c t IH]; cbn [star app].
  - intros H. apply Hbase. now apply (Hk []).
  - destruct (amatch a c); [|apply (Hk (c :: t))].
    rewrite !or_else_is_some. intros H. apply orb_true_iff in H as [H|H].
    + rewrite (IH H). reflexivity.
    + pose proof (Hk (c :: t) H) as H'. cbn [app] in H'.
      rewrite H'. apply orb_true_r.
Qed.

Lemma rmatch_extend suffix r : forall s k k',
  (forall s', is_some (k s') = true -> is_some (k' (s' ++ suffix)) = true) ->
  is_some (rmatch r s k) = true -> is_some (rmatch r (s ++ suffix) k') = true.
Proof.
  induction r as [|a|a|r IH|r1 IH1 r2 IH2|r1 IH1 r2 IH2];
    intros s k k' Hk; cbn [rmatch].
  - apply Hk.
  - destruct s as [|c t]; [discriminate|]. cbn [app].
    destruct (amatch a c); [apply (Hk t)|discriminate].
  - now apply star_extend.
  - rewrite !or_else_is_some. intros H. apply orb_true_iff in H as [H|H].
    + rewrite (IH _ _ _ Hk H). reflexivity.
    + rewrite (Hk _ H). apply orb_true_r.
  - apply IH1. intros s'. now apply IH2.
  - rewrite !or_else_is_some. intros H. apply orb_true_iff in H as [H|H].
    + rewrite (IH1 _ _ _ Hk H). reflexivity.
    + rewrite (IH2 _ _ _ Hk H). apply orb_true_r.
Qed.

(** A match inside a part of a text is a match inside the text. *)
Lemma search_app_r r s suffix :
  search r s = true -> search r (s ++ suffix) = true.
Proof.
  induction s as [|c t IH].
  - rewrite (search_is_some r []), orb_false_r. intros H.
    rewrite search_is_some. apply orb_true_iff. left.
    apply (rmatch_extend suffix r [] Some Some); [reflexivity|exact H].
  - rewrite (search_is_some r (c :: t)). cbn [app].
    rewrite (search_is_some r (c :: t ++ suffix)).
    intros H. apply orb_true_iff in H as [H|H]; apply orb_true_iff.
    + left. apply (rmatch_extend suffix r (c :: t) Some Some); [reflexivity|exact H].
    + right. now apply IH.
Qed.

Lemma search_app_l r prefix s :
  search r s = true -> search r (prefix ++ s) = true.
Proof.
  intros H. induction prefix as [|c p IH]; [exact H|].
  cbn [app]. rewrite search_is_some, IH. apply orb_true_r.
Qed.

(** Without a match anywhere the substitution changes nothing. *)
Lemma sub_no_match r s : search r s = false -> sub r s = s.
Proof.
  unfold sub. induction s as [|c t IH]; [reflexivity|].
  rewrite sub_go_cons. cbn [search].
  destruct (match_at r (c :: t)); [discriminate|].
  intros H. f_equal. apply IH. exact H.
Qed.

(** With a match somewhere, and a pattern that cannot match the empty
    string, the substitution makes the text shorter. *)
Lemma sub_match_shorter r s :
  0 < min_weight (fun _ => 1) r -> search r s = true ->
  length (sub r s) < length s.
Proof.
  intros Hr H.
  pose proof (@sub_match_weight (fun _ => 1) (fun _ => 1) ltac:(intros; lia)
                r s Hr H) as Hw.
  rewrite !weigh_length in Hw. lia.
Qed.

End ReFacts.

(** ** Label normalisation *)

Module LabelFacts.
Import PyStr Re Label Obs PyStrFacts ReFacts.

Lemma qualifier_min_len : min_weight (fun _ => 1) qualifier = 8.
Proof. reflexivity. Qed.

Lemma qualifier_paren : min_weight paren_atom qualifier = 1.
Proof. reflexivity. Qed.

(** A literal ["("] only matches ["("]. *)
Lemma paren_atom_sound a c : amatch a c = true -> paren_atom a <= paren_weight c.
Proof.
  destruct a as [| |l]; cbn [paren_atom]; try lia.
  unfold paren_weight at 1.
  destruct (Strings.Ascii.eqb_spec l "("%char) as [->|_]; [|lia].
  by_char c.
Qed.

Lemma open_parens_lower s : open_parens (lower s) = open_parens s.
Proof.
  unfold open_parens. induction s as [|c t IH]; [reflexivity|].
  cbn [lower map]. fold (lower t). rewrite !weigh_cons, IH. f_equal. by_char c.
Qed.

Lemma weigh_lstrip w s : weigh w (lstrip s) <= weigh w s.
Proof.
  induction s as [|c t IH]; [reflexivity|]. cbn [lstrip].
  destruct (isspace c); [rewrite weigh_cons; lia|reflexivity].
Qed.

Lemma weigh_rev w s : weigh w (rev s) = weigh w s.
Proof.
  induction s as [|c t IH]; [reflexivity|].
  cbn [rev]. rewrite weigh_app, IH, !weigh_cons. cbn. lia.
Qed.

Lemma weigh_strip w s : weigh w (strip s) <= weigh w s.
Proof.
  unfold strip, rstrip. rewrite weigh_rev.
  etransitivity; [apply weigh_lstrip|]. rewrite weigh_rev. apply weigh_lstrip.
Qed.

Lemma rstrip_prefix s : exists q, s = rstrip s ++ q.
Proof.
  destruct (lstrip_suffix (rev s)) as [p H]. exists (rev p). unfold rstrip.
  rewrite <- rev_app_distr, <- H. now rewrite rev_involutive.
Qed.

(** A match in the trimmed text is a match in the text. *)
Lemma search_strip r s : search r (strip s) = true -> search r s = true.
Proof.
  intros H. unfold strip in H.
  destruct (lstrip_suffix s) as [p Hp]. destruct (rstrip_prefix (lstrip s)) as [q Hq].
  rewrite Hp, Hq. apply search_app_l, search_app_r, H.
Qed.

(** A normalised label is already lower-case and trimmed. *)
Lemma normalize_lower_strip x :
  strip (lower (normalize x)) = normalize x.
Proof.
  unfold normalize.
  now rewrite <- strip_lower, lower_idem, strip_idem.
Qed.

Lemma normalize_length x : length (normalize x) <= length (sub qualifier x).
Proof.
  unfold normalize. etransitivity; [apply strip_length|].
  unfold lower. now rewrite length_map.
Qed.

(** A key without a qualifier is a fixed point. *)
Lemma normalize_fixed x :
  search qualifier (normalize x) = false ->
  normalize (normalize x) = normalize x.
Proof.
  intros H. unfold normalize at 1.
  rewrite (sub_no_match _ _ H). apply normalize_lower_strip.
Qed.

(** With at most one ["("] in the label nothing is left to match. *)
Lemma normalize_one_paren x :
  open_parens x <= 1 -> search qualifier (normalize x) = false.
Proof.
  intros Hx. destruct (search qualifier x) eqn:E.
  - pose proof (@sub_match_weight paren_weight paren_atom paren_atom_sound
                  qualifier x ltac:(rewrite qualifier_min_len; lia) E) as Hw.
    rewrite qualifier_paren in Hw.
    apply (@search_needs_weight paren_weight paren_atom paren_atom_sound).
    rewrite qualifier_paren. unfold normalize.
    pose proof (weigh_strip paren_weight (lower (sub qualifier x))) as Hs.
    fold (open_parens (lower (sub qualifier x))) in Hs.
    rewrite open_parens_lower in Hs. unfold open_parens in *. lia.
  - unfold normalize. rewrite (sub_no_match _ _ E).
    destruct (search qualifier (strip (lower x))) eqn:E'; [|reflexivity].
    apply search_strip in E'. rewrite search_lower in E'. congruence.
Qed.

(** C3 (as the code has it): normalising a second time changes the key
    exactly when the key still contains a match of the qualifier pattern;
    a key without one is a fixed point of [normalize], and that is the case
    of every label with at most one opening parenthesis. *)
Theorem normalize_idempotent_iff (x : str) :
  (normalize (normalize x) = normalize x <->
   search qualifier (normalize x) = false)
  /\ (open_parens x <= 1 -> normalize (normalize x) = normalize x).
Proof.
  split; [split|].
  - intros H. destruct (search qualifier (normalize x)) eqn:E; [|reflexivity].
    exfalso.
    apply (sub_match_shorter qualifier) in E; [|rewrite qualifier_min_len; lia].
    pose proof (normalize_length (normalize x)) as L.
    rewrite H in L. lia.
  - apply normalize_fixed.
  - intros H. apply normalize_fixed, normalize_one_paren, H.
Qed.

Lemma normalize_idempotent_iff_witness :
  normalize (normalize (lit "Type of Loss (Select one):"))
  = normalize (lit "Type of Loss (Select one):").
Proof.
  apply (proj2 (normalize_idempotent_iff (lit "Type of Loss (Select one):"))).
  vm_compute. lia.
Defined.

(** C3 fails as stated: removing the inner qualifier of
    ["(sel(dd/mm/yyyy)ect)"] leaves ["(select)"], which the second pass
    removes. *)
Lemma normalize_not_idempotent :
  let x := lit "(sel(dd/mm/yyyy)ect)" in
  normalize x = lit "(select)" /\
  normalize (normalize x) = [] /\
  normalize (normalize x) <> normalize x.
Proof. vm_compute. repeat split. discriminate. Qed.

End LabelFacts.

(** ** File names *)

Module SanitizeFacts.
Import PyStr PyStrFacts ReportGen Obs.

Lemma char_in_In c s : char_in c s = true <-> In c s.
Proof.
  unfold char_in. rewrite existsb_exists. split.
  - intros (x & Hx & E). apply Strings.Ascii.eqb_eq in E. now subst.
  - intros H. exists c. split; [assumption|apply Strings.Ascii.eqb_refl].
Qed.

Lemma safe_char_allowed c : allowed c -> safe_char c = c.
Proof.
  unfold safe_char, allowed. intros [H|H].
  - now rewrite H.
  - apply char_in_In in H. rewrite H. now rewrite orb_true_r.
Qed.

Lemma safe_char_other c : ~ allowed c -> safe_char c = "_"%char.
Proof.
  unfold safe_char, allowed. intros H.
  destruct (isalnum c) eqn:E1; [tauto|].
  destruct (char_in c (lit " ._-")) eqn:E2; [|reflexivity].
  apply char_in_In in E2. tauto.
Qed.

(** C9: every character outside the allowed set becomes an underscore and
    the others are kept, the result is trimmed; ["Claim #42/A"] gives
    ["Claim _42_A"]; a name with an alphanumeric character never sanitises
    to the empty string; an empty result is replaced by ["claim_<i+1>"]. *)
Theorem sanitize_spec (claim_name : str) (i : nat) :
  sanitize claim_name = strip (map safe_char claim_name)
  /\ (forall c, (allowed c -> safe_char c = c)
             /\ (~ allowed c -> safe_char c = "_"%char))
  /\ sanitize (lit "Claim #42/A") = lit "Claim _42_A"
  /\ ((exists c, In c claim_name /\ isalnum c = true) -> sanitize claim_name <> [])
  /\ (sanitize claim_name = [] ->
      safe_name i claim_name = lit "claim_" ++ of_nat (i + 1))
  /\ (sanitize claim_name <> [] -> safe_name i claim_name = sanitize claim_name).
Proof.
  split; [reflexivity|].
  split; [intros c; split; [apply safe_char_allowed|apply safe_char_other]|].
  split; [vm_compute; reflexivity|].
  split; [|split].
  - intros (c & Hin & Hal). unfold sanitize.
    apply (@strip_nonempty _ c).
    + apply in_map_iff. exists c. split; [|assumption].
      apply safe_char_allowed. now left.
    + now apply isalnum_not_space.
  - unfold safe_name. now intros ->.
  - unfold safe_name. destruct (sanitize claim_name); [congruence|reflexivity].
Qed.

Lemma sanitize_spec_witness :
  sanitize (lit "Claim #42/A") <> []
  /\ safe_name 2 (lit " ") = lit "claim_3"
  /\ safe_name 0 (lit "Claim #42/A") = lit "Claim _42_A".
Proof.
  split; [|split].
  - apply (sanitize_spec (lit "Claim #42/A") 0).
    exists "C"%char. split; [left; reflexivity|reflexivity].
  - apply (sanitize_spec (lit " ") 2). reflexivity.
  - transitivity (sanitize (lit "Claim #42/A")); [|reflexivity].
    apply (sanitize_spec (lit "Claim #42/A") 0). vm_compute. discriminate.
Defined.

End SanitizeFacts.

(** ** The photo grid *)

Module GridFacts.
Import PyStr Docx Py ReportGen Obs.

Lemma ceil4_step d : 0 < d -> (d + 3) / 4 = S ((d - 4 + 3) / 4).
Proof.
  intros Hd. destruct (Nat.lt_ge_cases d 4) as [Hlt|Hge].
  - destruct d as [|[|[|[|d]]]]; try lia; reflexivity.
  - replace (d + 3) with ((d - 4 + 3) + 1 * 4) by lia.
    rewrite Nat.div_add by lia. lia.
Qed.

(** [range(start, stop, 4)] is [start, start + 4, ...], one index for every
    started group of four; the fuel of [range] is enough. *)
Lemma range_fuel_4 : forall fuel start stop,
  stop - start <= fuel ->
  range_fuel fuel start stop 4 =
  map (fun k => start + 4 * k) (seq 0 ((stop - start + 3) / 4)).
Proof.
  induction fuel as [|f IH]; intros start stop Hf; cbn [range_fuel].
  - replace (stop - start) with 0 by lia. reflexivity.
  - destruct (start <? stop) eqn:E.
    + apply Nat.ltb_lt in E.
      rewrite (@ceil4_step (stop - start)) by lia.
      rewrite IH by lia. cbn [seq map]. f_equal; [lia|].
      rewrite <- seq_shift, map_map.
      replace (stop - (start + 4)) with (stop - start - 4) by lia.
      apply map_ext. intros; lia.
    + apply Nat.ltb_ge in E.
      replace (stop - start) with 0 by lia. reflexivity.
Qed.

Lemma range_0_4 n :
  range 0 n 4 = map (fun k => 4 * k) (seq 0 ((n + 3) / 4)).
Proof.
  unfold range. rewrite range_fuel_4 by lia.
  now rewrite Nat.sub_0_r.
Qed.

Section Grid.

Variable img_err : str -> option str.

Lemma fill_cell_shows batch row col :
  cell_shows img_err col (batch !! (row * 2 + col))
             (fst (fill_cell img_err batch row col new_cell)).
Proof.
  unfold cell_shows, fill_cell.
  destruct (batch !! (row * 2 + col)) as [path|]; [|reflexivity].
  destruct (img_err path); cbn; auto.
Qed.

Lemma grid_table_cells batch row col :
  row < 2 -> col < 2 ->
  exists c, cell_at (fst (grid_table img_err batch)) row col = Some c
            /\ cell_shows img_err col (batch !! (row * 2 + col)) c.
Proof.
  intros Hr Hc.
  destruct row as [|[|row]]; [| |lia]; (destruct col as [|[|col]]; [| |lia]);
    (eexists; split; [reflexivity|apply fill_cell_shows]).
Qed.

Lemma batch_at_lookup (l : list str) i j :
  j < 4 -> batch_at l i !! j = l !! (i + j).
Proof.
  intros Hj. unfold batch_at. rewrite lookup_take_lt by lia.
  now rewrite lookup_drop.
Qed.

(** The tables of a sub-category with [n] images: [ceil(n/4)] tables of
    two rows of two cells, the [k]-th for the [k]-th batch of four; the
    cell at [(row, col)] shows the image at index [row*2+col] of its batch
    when there is one and is left untouched otherwise. *)
Lemma grid_tables_cells (image_list : list str) :
  let tables := grid_tables img_err image_list in
  length tables = (length image_list + 3) / 4
  /\ (length image_list = 5 -> length tables = 2)
  /\ forall k, k < (length image_list + 3) / 4 ->
       exists t, tables !! k = Some t
         /\ length (fst t) = 2
         /\ Forall (fun r => length r = 2) (fst t)
         /\ forall row col, row < 2 -> col < 2 ->
              exists c, cell_at (fst t) row col = Some c
                /\ batch_at image_list (4 * k) !! (row * 2 + col)
                   = image_list !! (4 * k + (row * 2 + col))
                /\ cell_shows img_err col (batch_at image_list (4 * k) !! (row * 2 + col)) c.
Proof.
  cbn zeta. unfold grid_tables. rewrite range_0_4, map_map.
  split; [now rewrite length_map, length_seq|].
  split; [intros ->; reflexivity|].
  intros k Hk.
  exists (grid_table img_err (batch_at image_list (4 * k))).
  split.
  { rewrite list_lookup_fmap, lookup_seq_lt by assumption. reflexivity. }
  split; [reflexivity|].
  split; [repeat constructor|].
  intros row col Hr Hc.
  destruct (grid_table_cells (batch_at image_list (4 * k)) Hr Hc) as (c & H1 & H2).
  exists c. split; [assumption|]. split; [|assumption].
  apply batch_at_lookup. destruct row as [|[|row]]; lia.
Qed.

End Grid.

End GridFacts.

(** ** Running the field branches *)

Module RenderFacts.
Import PyStr PyStrFacts Label Docx Py ReportGen Obs.

Lemma alter_snoc {A} (f : A -> A) (l : list A) x :
  alter f (length l) (l ++ [x]) = l ++ [f x].
Proof.
  replace (length l) with (length l + 0) by lia.
  now rewrite alter_app_r.
Qed.

Lemma lookup_snoc {A} (l : list A) x : (l ++ [x]) !! length l = Some x.
Proof. now apply list_lookup_middle. Qed.

Lemma new_para_app s c t style :
  new_para (s ++ c :: t) style = Para style [text_run (s ++ c :: t)] None None.
Proof. unfold new_para. destruct s; reflexivity. Qed.

Lemma new_run_app s c t : new_run (s ++ c :: t) = text_run (s ++ c :: t).
Proof. unfold new_run. destruct s; reflexivity. Qed.

Lemma new_run_cons c s : new_run (c :: s) = text_run (c :: s).
Proof. reflexivity. Qed.

Lemma run_text_new_run s : run_text (new_run s) = s.
Proof. destruct s; cbn; [reflexivity|]. now rewrite app_nil_r. Qed.

Lemma data_at_ok data ri i row v st :
  data !! ri = Some row -> row !! i = Some v ->
  data_at data ri i st = (Ok v, st).
Proof.
  intros H1 H2. unfold data_at, index, bind.
  rewrite H1. cbn. now rewrite H2.
Qed.

#[local] Arguments lit : simpl never.
#[local] Arguments style_get : simpl never.
#[local] Arguments new_para : simpl never.
#[local] Arguments new_run : simpl never.
#[local] Arguments strip : simpl never.
#[local] Arguments split_go : simpl never.

(** Decide the tests on a key that is a literal. *)
Ltac pick_branch :=
  repeat match goal with
  | |- context [mem ?a ?l] =>
      let b := fresh "b" in set (b := mem a l); vm_compute in b; subst b; cbv iota
  | |- context [eqb ?a ?l] =>
      let b := fresh "b" in set (b := eqb a l); vm_compute in b; subst b; cbv iota
  end.

Ltac unfold_ops :=
  unfold add_paragraph, add_heading, add_page_break, cell_add_paragraph,
    add_run, add_break, apply_style_to, alter_run, alter_para, set_note,
    log_callback, with_doc, modify, gets, when.

(** Run straight-line code on a state whose document is spelled out. *)
Ltac run :=
  unfold_ops;
  repeat first
    [ rewrite lookup_snoc | rewrite alter_snoc | rewrite new_para_app
    | rewrite new_run_app | rewrite new_run_cons | progress cbn ].

(** *** Splitting *)

Lemma split_go_cons sep skip cur c t :
  split_go sep skip cur (c :: t) =
  match skip with
  | S k => split_go sep k cur t
  | 0 =>
      match drop_prefix sep (c :: t) with
      | Some _ => rev cur :: split_go sep (length sep - 1) [] t
      | None => split_go sep 0 (c :: cur) t
      end
  end.
Proof. reflexivity. Qed.

(** Text without the separator is one piece. *)
Lemma split_none sep : sep <> [] -> forall s cur,
  occurs sep s = false -> split_go sep 0 cur s = [rev cur ++ s].
Proof.
  intros Hsep. induction s as [|c t IH]; intros cur H.
  - now rewrite app_nil_r.
  - rewrite split_go_cons. cbn [occurs] in H.
    destruct (drop_prefix sep (c :: t)); [discriminate|].
    rewrite IH by exact H. cbn [rev]. now rewrite <- app_assoc.
Qed.

(** An occurrence of ["HST"] cannot begin inside [pre] and end in an
    ["HST"] that follows it, so text without ["HST"] before an occurrence
    is the text before the first occurrence. *)
Lemma HST_first_occurrence c pre rest :
  occurs HST (c :: pre) = false ->
  drop_prefix HST (c :: pre ++ HST ++ rest) = None.
Proof.
  intros H. cbn [occurs] in H.
  destruct (drop_prefix HST (c :: pre)) eqn:E; [discriminate|].
  revert E. unfold HST. change (lit "HST") with ["H"; "S"; "T"]%char.
  cbn [drop_prefix app].
  destruct (Strings.Ascii.eqb_spec "H"%char c) as [<-|]; [|reflexivity].
  destruct pre as [|c1 pre]; [reflexivity|]. cbn [app].
  destruct (Strings.Ascii.eqb_spec "S"%char c1) as [<-|]; [|reflexivity].
  destruct pre as [|c2 pre]; [reflexivity|]. cbn [app].
  destruct (Strings.Ascii.eqb_spec "T"%char c2) as [<-|]; [|reflexivity].
  discriminate.
Qed.

Lemma occurs_tail sep c s : occurs sep (c :: s) = false -> occurs sep s = false.
Proof. cbn [occurs]. now destruct (drop_prefix sep (c :: s)). Qed.

(** Splitting at the first ["HST"]. *)
Lemma split_HST_first : forall pre cur rest,
  occurs HST pre = false ->
  split_go HST 0 cur (pre ++ HST ++ rest)
  = (rev cur ++ pre) :: split_go HST 0 [] rest.
Proof.
  induction pre as [|c pre IH]; intros cur rest H.
  - rewrite app_nil_r. destruct rest as [|r rest]; reflexivity.
  - cbn [app]. rewrite split_go_cons, HST_first_occurrence by exact H.
    rewrite IH by (eapply occurs_tail; eassumption).
    cbn [rev]. now rewrite <- app_assoc.
Qed.

(** *** The carried note is written by the producer only *)

Lemma keeps_ret {A} (a : A) : keeps_note (ret a).
Proof. now intros st. Qed.

Lemma keeps_raise {A} e : keeps_note (@raise A e).
Proof. now intros st. Qed.

Lemma keeps_bind {A B} (m : M A) (k : A -> M B) :
  keeps_note m -> (forall a, keeps_note (k a)) -> keeps_note (bind m k).
Proof.
  intros Hm Hk st. unfold bind. specialize (Hm st).
  destruct (m st) as [[a|e] st']; cbn in *; [|assumption].
  now rewrite Hk.
Qed.

Lemma keeps_try {A} (m : M A) h :
  keeps_note m -> (forall e, keeps_note (h e)) -> keeps_note (try_except m h).
Proof.
  intros Hm Hh st. unfold try_except. specialize (Hm st).
  destruct (m st) as [[a|e] st']; cbn in *; [assumption|].
  now rewrite Hh.
Qed.

Lemma keeps_with_doc f : keeps_note (with_doc f).
Proof. now intros st. Qed.

Lemma keeps_gets {A} (f : rstate -> A) : keeps_note (gets f).
Proof. now intros st. Qed.

Lemma keeps_log msg : keeps_note (log_callback msg).
Proof. now intros st. Qed.

Lemma keeps_index {A} (l : list A) i : keeps_note (index l i).
Proof. unfold index. destruct (l !! i); [apply keeps_ret|apply keeps_raise]. Qed.

Lemma keeps_split v sep : keeps_note (split_method v sep).
Proof. destruct v; [apply keeps_ret|apply keeps_raise]. Qed.

Lemma keeps_when b m : keeps_note m -> keeps_note (when b m).
Proof. destruct b; [auto|intros _; apply keeps_ret]. Qed.

Lemma keeps_for_each {A} (l : list A) body :
  (forall x, keeps_note (body x)) -> keeps_note (for_each l body).
Proof.
  intros H. induction l as [|x l IH]; [apply keeps_ret|].
  cbn [for_each]. apply keeps_bind; auto.
Qed.

Create HintDb keeps.
#[local] Hint Resolve keeps_ret keeps_raise keeps_with_doc keeps_gets
  keeps_log keeps_index keeps_split : keeps.

(** The operations on the document leave the note alone. *)
Ltac keeps :=
  unfold data_at;
  unfold add_paragraph, add_heading, add_page_break, cell_add_paragraph,
    add_run, add_break, apply_style_to, alter_run, alter_para;
  repeat first
    [ apply keeps_bind; [|intro]
    | apply keeps_when
    | apply keeps_for_each; intro
    | match goal with |- keeps_note (if ?b then _ else _) => destruct b end
    | solve [auto with keeps] ].

Section Note.

Variable data : list (list value).
Variable row_index : nat.

Lemma keeps_metadata key display i :
  keeps_note (metadata_field data row_index key display i).
Proof. unfold metadata_field. keeps. Qed.

Lemma keeps_manager display i :
  keeps_note (manager_field data row_index display i).
Proof. unfold manager_field. keeps. Qed.

Lemma keeps_narrative key display i :
  keeps_note (narrative_field data row_index key display i).
Proof. unfold narrative_field. keeps. Qed.

Lemma keeps_consumer key display i :
  eqb key (lit "indemnity reserves:") = false ->
  keeps_note (reserve_field data row_index key display i).
Proof. intros H. unfold reserve_field. rewrite H. keeps. Qed.

Lemma keeps_failed_producer display i :
  producer_ok data row_index i = false ->
  keeps_note (reserve_field data row_index (lit "indemnity reserves:") display i).
Proof.
  unfold producer_ok. intros H. unfold reserve_field.
  apply keeps_bind; [keeps|intros para]. pick_branch.
  intros st. unfold data_at, index, bind.
  destruct (data !! row_index) as [row|]; [|reflexivity]. cbn.
  destruct (row !! i) as [[s|ty r]|]; cbn; try reflexivity.
  fold HST. rewrite split_none by (exact H || discriminate).
  reflexivity.
Qed.

(** A field other than a producer that gets through leaves the note as it
    was, whether it fails or not. *)
Lemma field_step_note label i st :
  (normalize label = lit "indemnity reserves:" -> producer_ok data row_index i = false) ->
  note (snd (field_step data row_index label i st)) = note st.
Proof.
  intros H. unfold field_step. apply keeps_try; [|intros e; apply keeps_log].
  unfold render_field.
  destruct (mem (normalize label) metadata_keys); [apply keeps_metadata|].
  destruct (mem (normalize label) reserve_keys).
  - destruct (eqb (normalize label) (lit "indemnity reserves:")) eqn:E.
    + apply bool_decide_eq_true in E. rewrite E.
      apply keeps_failed_producer. auto.
    + now apply keeps_consumer.
  - destruct (eqb (normalize label) (lit "product manager"));
      [apply keeps_manager|apply keeps_narrative].
Qed.

Lemma field_loop_note : forall labels i st,
  (forall j label, labels !! j = Some label ->
     normalize label = lit "indemnity reserves:" -> producer_ok data row_index (i + j) = false) ->
  note (snd (field_loop data row_index labels i st)) = note st.
Proof.
  induction labels as [|label rest IH]; intros i st H; [reflexivity|].
  cbn [field_loop]. unfold bind.
  pose proof (@field_step_note label i st) as H1.
  destruct (field_step data row_index label i st) as [[[]|e] st1]; cbn in *.
  - rewrite IH.
    + apply H1. intros E. rewrite <- (Nat.add_0_r i). now apply (H 0 label).
    + intros j l Hj E. replace (S i + j) with (i + S j) by lia.
      now apply (H (S j) l).
  - apply H1. intros E. rewrite <- (Nat.add_0_r i). now apply (H 0 label).
Qed.

End Note.

(** *** The two reserve fields *)

Section Reserves.

Variable data : list (list value).
Variable row_index : nat.

Lemma producer_run display i row s t0 t1 rest st :
  data !! row_index = Some row -> row !! i = Some (VStr s) ->
  split_go HST 0 [] s = t0 :: t1 :: rest ->
  reserve_field data row_index (lit "indemnity reserves:") display i st
  = (Ok tt, RState (push_block (BPara (producer_para display t0)) (doc st))
                   t1 (log st)).
Proof.
  intros H1 H2 H3. destruct st as [[front meta body] nt lg].
  unfold reserve_field. pick_branch.
  unfold data_at, index, bind. unfold_ops.
  rewrite H1. cbn. rewrite H2. cbn. fold HST. rewrite H3.
  change (lit " ") with [" "%char]. unfold HST.
  change (lit "HST") with ["H"; "S"; "T"]%char.
  run. reflexivity.
Qed.

Lemma consumer_run display i row v st :
  data !! row_index = Some row -> row !! i = Some v ->
  reserve_field data row_index (lit "expense reserves:") display i st
  = (Ok tt, append_block (BPara (consumer_para display v (note st))) st).
Proof.
  intros H1 H2. destruct st as [[front meta body] nt lg].
  unfold reserve_field. pick_branch.
  unfold data_at, index, bind. unfold_ops.
  rewrite H1. cbn. rewrite H2.
  change (lit " ") with [" "%char]. change nl with ["010"%char].
  run. reflexivity.
Qed.

End Reserves.

(** *** Lines of a paragraph *)

Lemma split1_cons c x t cur :
  split_go [c] 0 cur (x :: t) =
  if Strings.Ascii.eqb c x then rev cur :: split_go [c] 0 [] t
  else split_go [c] 0 (x :: cur) t.
Proof.
  rewrite split_go_cons. cbn [drop_prefix length Nat.sub].
  now destruct (Strings.Ascii.eqb c x).
Qed.

Lemma split1_piece c : forall b cur rest,
  ~ In c b ->
  split_go [c] 0 cur (b ++ c :: rest) = (rev cur ++ b) :: split_go [c] 0 [] rest.
Proof.
  induction b as [|x b IH]; intros cur rest H.
  - cbn [app]. rewrite split1_cons, Strings.Ascii.eqb_refl. now rewrite app_nil_r.
  - cbn [app]. rewrite split1_cons.
    destruct (Strings.Ascii.eqb_spec c x) as [->|_]; [exfalso; apply H; now left|].
    rewrite IH by (intros Hb; apply H; now right).
    cbn [rev]. now rewrite <- app_assoc.
Qed.

(** A piece between two separators is one of the pieces. *)
Lemma split1_in c : forall a cur b rest,
  ~ In c b -> In b (split_go [c] 0 cur (a ++ c :: b ++ c :: rest)).
Proof.
  induction a as [|x a IH]; intros cur b rest H.
  - cbn [app]. rewrite split1_cons, Strings.Ascii.eqb_refl.
    right. rewrite split1_piece by assumption. now left.
  - cbn [app]. rewrite split1_cons.
    destruct (Strings.Ascii.eqb c x); [right|]; now apply IH.
Qed.

Lemma consumer_para_text display v n :
  para_text (consumer_para display v n)
  = (display ++ lit " " ++ str_of v) ++ nl ++ (lit "Note: " ++ strip n) ++ nl.
Proof.
  unfold para_text, consumer_para. cbn [p_runs map concat].
  unfold run_text at 1 3. cbn [r_items map concat item_text].
  change (run_text {| r_items := r_items (new_run (str_of v));
                      r_font := bullet_font false |})
    with (run_text (new_run (str_of v))).
  rewrite run_text_new_run. rewrite !app_nil_r.
  now rewrite <- !app_assoc.
Qed.

(** The note line of a consumer, when the trimmed note is a single line. *)
Lemma consumer_note_line display v n :
  ~ In newline (strip n) ->
  In (lit "Note: " ++ strip n) (para_lines (consumer_para display v n)).
Proof.
  intros H. unfold para_lines. rewrite consumer_para_text.
  change nl with [newline].
  apply (@split1_in newline (display ++ lit " " ++ str_of v) []
           (lit "Note: " ++ strip n) []).
  intros Hin. apply in_app_or in Hin as [Hin|Hin]; [|auto].
  unfold newline in Hin. vm_compute in Hin. intuition discriminate.
Qed.

(** *** The other branches *)

Lemma alter_snoc2 {A} (f : A -> A) (l : list A) x y :
  alter f (length l) ((l ++ [x]) ++ [y]) = (l ++ [f x]) ++ [y].
Proof.
  rewrite alter_app_l by (rewrite length_app; cbn; lia).
  now rewrite alter_snoc.
Qed.

Lemma alter_snoc_at {A} (f : A -> A) n (l : list A) x :
  length l = n -> alter f n (l ++ [x]) = l ++ [f x].
Proof. intros <-. apply alter_snoc. Qed.

Lemma split_go_nonempty sep : forall s skip cur,
  exists t0 more, split_go sep skip cur s = t0 :: more.
Proof.
  induction s as [|c t IH]; intros skip cur; [cbn; eauto|].
  rewrite split_go_cons. destruct skip as [|k]; [|apply IH].
  destruct (drop_prefix sep (c :: t)); [eauto|apply IH].
Qed.

(** A loop whose body adds one run to the last paragraph of the body. *)
Lemma for_each_push_runs (body : str -> M unit) (g : str -> run) f m b n l :
  (forall line p,
     body line (RState (Document f m (b ++ [BPara p])) n l)
     = (Ok tt, RState (Document f m (b ++ [BPara (push_run (g line) p)])) n l)) ->
  forall lines p,
    for_each lines body (RState (Document f m (b ++ [BPara p])) n l)
    = (Ok tt,
       RState (Document f m
                 (b ++ [BPara (Para (p_style p) (p_runs p ++ map g lines)
                                 (p_align p) (p_spacing p))]))
              n l).
Proof.
  intros Hbody. induction lines as [|line lines IH]; intros p.
  - cbn. rewrite app_nil_r. now destruct p.
  - cbn [for_each map]. unfold bind. rewrite Hbody, IH.
    unfold push_run. cbn [p_style p_runs p_align p_spacing].
    now rewrite <- app_assoc.
Qed.

Lemma new_para_nil style : new_para [] style = Para style [] None None.
Proof. reflexivity. Qed.

Ltac run_cell :=
  unfold_ops; unfold alter_para_doc, alter_cell_para;
  repeat first
    [ rewrite lookup_snoc | rewrite alter_snoc | rewrite new_para_app
    | rewrite new_run_app | rewrite new_run_cons | rewrite new_para_nil
    | progress cbn ].

Section Branches.
Variable data : list (list value).
Variable row_index : nat.

Lemma metadata_run key display i row v st :
  data !! row_index = Some row -> row !! i = Some v ->
  metadata_field data row_index key display i st
  = (Ok tt, in_slot (text_cell key) (metadata_para key display v) st).
Proof.
  intros H1 H2. destruct st as [[front [l r im rk ca] body] nt lg].
  unfold metadata_field, metadata_para.
  change (lit ": ") with [":"; " "]%char. change nl with ["010"%char].
  destruct (text_cell key); destruct (own_line key);
    unfold data_at, index, bind; unfold_ops; rewrite H1; cbn; rewrite H2;
    run_cell; reflexivity.
Qed.

Lemma narrative_run key display i row v st :
  data !! row_index = Some row -> row !! i = Some v ->
  eqb key (lit "conclusion") = false ->
  narrative_field data row_index key display i st
  = (Ok tt, append_block (BPara (section_para key v))
              (append_block (BPara (section_heading display)) st)).
Proof.
  intros H1 H2 Hk. destruct st as [[front meta body] nt lg].
  unfold narrative_field, section_para, section_heading. rewrite Hk.
  destruct (eqb key (lit "recommended reserves for trinity's involvement:"));
    cbn [negb];
    unfold data_at, index, bind; unfold_ops; rewrite H1; cbn; rewrite H2;
    run; reflexivity.
Qed.

Lemma conclusion_run display i row v st :
  data !! row_index = Some row -> row !! i = Some v ->
  narrative_field data row_index (lit "conclusion") display i st
  = (Ok tt, append_block (BPara (conclusion_para v))
              (append_block (BPara (section_heading display))
                 (append_block (BPara blank_para) st))).
Proof.
  intros H1 H2. destruct st as [[front meta body] nt lg].
  unfold narrative_field, conclusion_para, section_heading, blank_para.
  pick_branch.
  unfold data_at, index, bind; unfold_ops; rewrite H1; cbn; rewrite H2.
  run. rewrite alter_snoc2.
  rewrite (@alter_snoc_at _ _ (length ((body ++ [BPara blank_para])
                                        ++ [BPara (new_heading display 2)])))
    by (rewrite !length_app; reflexivity).
  reflexivity.
Qed.


Lemma manager_run display i row s t0 more st :
  data !! row_index = Some row -> row !! i = Some (VStr s) ->
  split_go nl 0 [] s = t0 :: more ->
  manager_field data row_index display i st
  = (Ok tt, append_block (BPara (salutation_para t0 more))
              (in_slot NestedLeft (manager_meta_para display t0) st)).
Proof.
  intros H1 H2 H3. destruct st as [[front [l r im rk ca] body] nt lg].
  unfold manager_field, manager_meta_para, salutation_para.
  change (lit ": ") with [":"; " "]%char.
  change nl with ["010"%char].
  unfold data_at, index, bind; unfold_ops; rewrite H1; cbn; rewrite H2; cbn.
  change ["010"%char] with nl. rewrite H3. change nl with ["010"%char].
  run_cell.
  erewrite (@for_each_push_runs _ (fun line => text_run ("010"%char :: line))).
  2:{ intros line p. cbn. now rewrite ?lookup_snoc, ?alter_snoc. }
  run_cell. reflexivity.
Qed.

End Branches.

End RenderFacts.

(** ** The reserve note *)

Module ReserveNote.
Import PyStr PyStrFacts Label Docx Py ReportGen RenderFacts Obs.

Lemma render_producer data row_index display i :
  render_field data row_index (lit "indemnity reserves:") display i
  = reserve_field data row_index (lit "indemnity reserves:") display i.
Proof. reflexivity. Qed.

Lemma render_consumer data row_index display i :
  render_field data row_index (lit "expense reserves:") display i
  = reserve_field data row_index (lit "expense reserves:") display i.
Proof. reflexivity. Qed.

(** The first piece and the second piece of a value with an ["HST"]. *)
Lemma split_HST_value pre mid tail :
  occurs HST pre = false -> occurs HST mid = false ->
  tail = [] \/ (exists more, tail = HST ++ more) ->
  exists rest, split_go HST 0 [] (pre ++ HST ++ mid ++ tail) = pre :: mid :: rest.
Proof.
  intros Hpre Hmid Htail. rewrite split_HST_first by assumption. cbn [rev app].
  destruct Htail as [->|[more ->]].
  - rewrite app_nil_r, split_none by (assumption || discriminate).
    now exists [].
  - rewrite split_HST_first by assumption. eauto.
Qed.

(** C1 (as the code has it): the producer line holds the value up to and
    including its first ["HST"]; the note is the text from there to the
    next ["HST"], or to the end when there is none; a consumer rendered
    later with that note gets the run ["\nNote: " + note.strip()], which
    shows as the line ["Note: ..."] when the trimmed note is one line. *)
Theorem reserve_note_split (data : list (list value)) (row_index i : nat)
    (row : list value) (display pre mid tail : str) (st : rstate) :
  data !! row_index = Some row ->
  row !! i = Some (VStr (pre ++ HST ++ mid ++ tail)) ->
  occurs HST pre = false ->
  occurs HST mid = false ->
  tail = [] \/ (exists more, tail = HST ++ more) ->
  render_field data row_index (lit "indemnity reserves:") display i st
  = (Ok tt, RState (push_block (BPara (producer_para display pre)) (doc st))
                   mid (log st))
  /\ p_style (producer_para display pre) = lit "List Bullet"
  /\ map run_text (p_runs (producer_para display pre))
     = [display ++ lit " "; pre ++ HST]
  /\ forall j v display' st',
       row !! j = Some v -> note st' = mid ->
       render_field data row_index (lit "expense reserves:") display' j st'
       = (Ok tt, append_block (BPara (consumer_para display' v mid)) st')
       /\ map run_text (p_runs (consumer_para display' v mid))
          = [display' ++ lit " "; str_of v; nl ++ lit "Note: " ++ strip mid ++ nl]
       /\ (~ In newline (strip mid) ->
           In (lit "Note: " ++ strip mid)
              (para_lines (consumer_para display' v mid))).
Proof.
  intros Hrow Hv Hpre Hmid Htail.
  destruct (@split_HST_value pre mid tail Hpre Hmid Htail) as [rest Hsplit].
  split; [|split; [reflexivity|split]].
  - rewrite render_producer. eapply producer_run; eassumption.
  - cbn. now rewrite !app_nil_r.
  - intros j v display' st' Hj Hnote. split; [|split].
    + rewrite render_consumer, <- Hnote. eapply consumer_run; eassumption.
    + unfold consumer_para. cbn [p_runs map].
      change (run_text (Run (r_items (new_run (str_of v))) (bullet_font false)))
        with (run_text (new_run (str_of v))).
      rewrite run_text_new_run. unfold run_text.
      cbn [r_items map concat item_text].
      now rewrite !app_nil_r, <- !app_assoc.
    + apply consumer_note_line.
Qed.

(** The example of the specification: producer text ["$1,000 plus HST"],
    note [" tax included"], and the consumer line ["Note: tax included"]. *)
Lemma reserve_note_split_witness :
  let st0 := RState (start_document []) [] [] in
  let st1 := snd (render_field [reserves_row] 0 (lit "indemnity reserves:")
                    (lit "Indemnity Reserves:") 0 st0) in
  note st1 = lit " tax included"
  /\ map run_text (p_runs (producer_para (lit "Indemnity Reserves:") (lit "$1,000 plus ")))
     = [lit "Indemnity Reserves: "; lit "$1,000 plus HST"]
  /\ d_body (doc st1)
     = [BPara (producer_para (lit "Indemnity Reserves:") (lit "$1,000 plus "))]
  /\ In (lit "Note: tax included")
        (para_lines (consumer_para (lit "Expense Reserves:") (VStr (lit "$500"))
                       (lit " tax included"))).
Proof.
  pose (st0 := RState (start_document []) [] []).
  destruct (@reserve_note_split [reserves_row] 0 0 reserves_row
              (lit "Indemnity Reserves:") (lit "$1,000 plus ")
              (lit " tax included") [] st0)
    as (Hrun & _ & Htext & Hcons);
    [reflexivity|reflexivity|reflexivity|reflexivity|now left|].
  destruct (Hcons 1 (VStr (lit "$500")) (lit "Expense Reserves:")
              (RState (start_document []) (lit " tax included") []))
    as (_ & _ & Hline); [reflexivity|reflexivity|].
  cbn zeta. fold st0. rewrite Hrun. cbn [snd note doc].
  split; [reflexivity|]. split; [exact Htext|]. split; [reflexivity|].
  apply Hline. vm_compute. intuition discriminate.
Defined.

(** C1 fails as stated when the value has a second ["HST"]: the note is
    the text between the two, neither all the text after the first nor the
    text after the last. *)
Lemma reserve_note_two_tokens :
  let st0 := RState (start_document []) [] [] in
  let st1 := snd (render_field [[VStr (lit "a HST b HST c")]] 0
                    (lit "indemnity reserves:") (lit "Indemnity Reserves:") 0 st0) in
  note st1 = lit " b "
  /\ note st1 <> lit " b HST c"
  /\ note st1 <> lit " c".
Proof. vm_compute. repeat split; discriminate. Qed.

(** C7: the note is empty when the field loop starts; as long as no
    producer got as far as storing a note it stays empty, and a consumer
    rendered then ends with the run ["\nNote: "]: its note line reads
    ["Note: "]. *)
Theorem note_line_without_producer (data : list (list value)) (row_index j : nat)
    (row : list value) (labels : list str) (display : str) (v : value)
    (st : rstate) :
  (forall k label, labels !! k = Some label ->
     normalize label = lit "indemnity reserves:" ->
     producer_ok data row_index k = false) ->
  data !! row_index = Some row ->
  row !! j = Some v ->
  let st1 := snd ((set_note [];;; field_loop data row_index labels 0) st) in
  let p := consumer_para display v [] in
  note st1 = []
  /\ render_field data row_index (lit "expense reserves:") display j st1
     = (Ok tt, append_block (BPara p) st1)
  /\ last (p_runs p) = Some (Run [Text (nl ++ lit "Note: "); Break] (bullet_font false))
  /\ In (lit "Note: ") (para_lines p).
Proof.
  intros Hprod Hrow Hv st1 p.
  assert (H1 : note st1 = []).
  { unfold st1, bind, set_note, modify. cbn [fst snd].
    rewrite field_loop_note; [reflexivity|]. intros k label. apply Hprod. }
  split; [assumption|]. split; [|split].
  - rewrite render_consumer. unfold p. rewrite <- H1.
    eapply consumer_run; eassumption.
  - reflexivity.
  - apply (@consumer_note_line display v []). vm_compute. tauto.
Qed.

Lemma note_line_without_producer_witness :
  let data := [[VStr (lit "no tax here"); VStr (lit "$500")]] in
  let st0 := RState (start_document []) (lit "left over") [] in
  let st1 := snd ((set_note [];;; field_loop data 0 [lit "Indemnity Reserves:"] 0) st0) in
  note st1 = []
  /\ In (lit "Note: ")
        (para_lines (consumer_para (lit "Expense Reserves:") (VStr (lit "$500")) [])).
Proof.
  destruct (@note_line_without_producer
              [[VStr (lit "no tax here"); VStr (lit "$500")]] 0 1
              [VStr (lit "no tax here"); VStr (lit "$500")]
              [lit "Indemnity Reserves:"] (lit "Expense Reserves:")
              (VStr (lit "$500")) (RState (start_document []) (lit "left over") []))
    as (H1 & _ & _ & H2).
  - intros [|k] label Hk _; [reflexivity|destruct k; discriminate].
  - reflexivity.
  - reflexivity.
  - split; [exact H1|exact H2].
Defined.

End ReserveNote.

(** ** Field dispatch against the placement table *)

Module Dispatch.
Import PyStr Docx Py ReportGen Obs RenderFacts.

Lemma eqb_eq a b : eqb a b = true <-> a = b.
Proof. unfold eqb. apply bool_decide_eq_true. Qed.

Lemma assoc_tagged {A} key (c : A) ks rest :
  assoc key (map (fun k => (k, c)) ks ++ rest) =
  if mem key ks then Some c else assoc key rest.
Proof.
  induction ks as [|k ks IH]; simpl; [reflexivity|].
  destruct (eqb key k); [reflexivity|exact IH].
Qed.

Lemma mem_In key ks : mem key ks = true <-> In key ks.
Proof.
  unfold mem. rewrite existsb_exists. split.
  - intros (k & Hk & E). apply eqb_eq in E. now subst.
  - intros H. exists key. split; [assumption|now apply eqb_eq].
Qed.

Lemma classify_metadata key :
  mem key metadata_keys = true -> classify key = Metadata.
Proof.
  intros H. unfold classify, spec_table. rewrite assoc_tagged.
  change spec_metadata_keys with metadata_keys. now rewrite H.
Qed.

Lemma classify_other key :
  mem key metadata_keys = false ->
  classify key =
  if eqb key (lit "indemnity reserves:") then ReserveNoteProducer
  else if eqb key (lit "expense reserves:") then ReserveNoteConsumer
  else if eqb key (lit "product manager") then ManagerSignoff
  else if eqb key (lit "conclusion") then NarrativeConclusion
  else NarrativeSection.
Proof.
  intros H. unfold classify, spec_table. rewrite assoc_tagged.
  change spec_metadata_keys with metadata_keys. rewrite H.
  cbn [assoc].
  repeat match goal with |- context [eqb key ?k] => destruct (eqb key k) end;
    reflexivity.
Qed.

(** The [if]/[elif] chain and the table pick the same branch. *)
Lemma dispatch (data : list (list value)) (row_index : nat)
    (key display : str) (i : nat) :
  render_field data row_index key display i
  = handle data row_index (classify key) key display i
  /\ (In key spec_metadata_keys <-> classify key = Metadata)
  /\ (key = lit "indemnity reserves:" <-> classify key = ReserveNoteProducer)
  /\ (key = lit "expense reserves:" <-> classify key = ReserveNoteConsumer)
  /\ (key = lit "product manager" <-> classify key = ManagerSignoff)
  /\ (key = lit "conclusion" <-> classify key = NarrativeConclusion).
Proof.
  change spec_metadata_keys with metadata_keys.
  rewrite <- mem_In.
  destruct (mem key metadata_keys) eqn:Hm.
  - assert (Hc := classify_metadata key Hm).
    unfold render_field. rewrite Hm, Hc.
    split; [reflexivity|]. split; [tauto|].
    repeat split; try discriminate;
      intros ->; vm_compute in Hm; discriminate.
  - assert (Hc := classify_other key Hm).
    unfold render_field. rewrite Hm, Hc. unfold mem, reserve_keys, existsb.
    destruct (eqb key (lit "indemnity reserves:")) eqn:E1.
    { apply eqb_eq in E1. subst key.
      split; [reflexivity|].
      repeat split; try discriminate; try reflexivity. }
    destruct (eqb key (lit "expense reserves:")) eqn:E2.
    { apply eqb_eq in E2. subst key.
      split; [reflexivity|].
      repeat split; try discriminate; try reflexivity. }
    destruct (eqb key (lit "product manager")) eqn:E3.
    { apply eqb_eq in E3. subst key.
      split; [reflexivity|].
      repeat split; try discriminate; try reflexivity. }
    destruct (eqb key (lit "conclusion")) eqn:E4.
    { apply eqb_eq in E4. subst key.
      split; [reflexivity|].
      repeat split; try discriminate; try reflexivity. }
    split; [reflexivity|].
    repeat split; try discriminate;
      intros ->; vm_compute in E1, E2, E3, E4; discriminate.
Qed.

(** C4: the category the table of section 6 gives a key, and the branch the
    code takes for it, agree for every key: the fourteen metadata keys are
    written to the metadata block, ["indemnity reserves:"] is the note
    producer, ["expense reserves:"] the note consumer, ["product manager"]
    the sign-off, ["conclusion"] the conclusion and any other key a
    narrative section of a heading and a paragraph with the value. *)
Theorem render_field_by_table (data : list (list value)) (row_index : nat)
    (key display : str) (i : nat) :
  render_field data row_index key display i
  = handle data row_index (classify key) key display i
  /\ (In key spec_metadata_keys <-> classify key = Metadata)
  /\ (key = lit "indemnity reserves:" <-> classify key = ReserveNoteProducer)
  /\ (key = lit "expense reserves:" <-> classify key = ReserveNoteConsumer)
  /\ (key = lit "product manager" <-> classify key = ManagerSignoff)
  /\ (key = lit "conclusion" <-> classify key = NarrativeConclusion)
  /\ (forall row v st,
        data !! row_index = Some row -> row !! i = Some v ->
        placed data row_index i key display v st).
Proof.
  pose proof (dispatch data row_index key display i)
    as (Hd & Hm & Hp & Hc & Hs & Hn).
  repeat (split; [assumption|]).
  intros row v st Hrow Hv. unfold placed. cbn zeta. rewrite Hd.
  destruct (classify key) eqn:E; cbn [handle].
  - eapply metadata_run; eassumption.
  - intros s t0 t1 rest -> Hsplit. eapply producer_run; eassumption.
  - eapply consumer_run; eassumption.
  - intros s t0 more -> Hsplit. eapply manager_run; eassumption.
  - eapply conclusion_run; eassumption.
  - eapply narrative_run; [eassumption|eassumption|].
    destruct (eqb key (lit "conclusion")) eqn:Ek; [|reflexivity].
    apply eqb_eq in Ek. apply Hn in Ek. congruence.
Qed.

Lemma render_field_by_table_witness :
  classify (lit "claim #") = Metadata
  /\ classify (lit "origins of loss") = NarrativeSection
  /\ placed [[VStr (lit "C-1"); VStr (lit "Burst pipe")]] 0 1
            (lit "origins of loss") (lit "Origins of Loss") (VStr (lit "Burst pipe"))
            (RState (start_document []) [] []).
Proof.
  pose proof (@render_field_by_table [[VStr (lit "C-1"); VStr (lit "Burst pipe")]]
                0 (lit "claim #") (lit "Claim #") 0) as (_ & H1 & _).
  pose proof (@render_field_by_table [[VStr (lit "C-1"); VStr (lit "Burst pipe")]]
                0 (lit "origins of loss") (lit "Origins of Loss") 1)
    as (_ & _ & _ & _ & _ & _ & H2).
  split; [|split].
  - apply H1. vm_compute. tauto.
  - reflexivity.
  - apply (H2 [VStr (lit "C-1"); VStr (lit "Burst pipe")]); reflexivity.
Defined.

End Dispatch.


(** ** Failures inside one field *)

Module FieldErrors.
Import PyStr Label Docx Py ReportGen RenderFacts Obs.

Section Loop.

Variable data : list (list value).
Variable row_index : nat.

Lemma field_step_recovers label i st :
  field_step data row_index label i st
  = (Ok tt,
     recovered (display_name label)
       (render_field data row_index (normalize label) (display_name label) i st)).
Proof.
  unfold field_step, try_except, recovered.
  destruct (render_field _ _ _ _ _ st) as [[[]|e] st1]; reflexivity.
Qed.

Lemma field_loop_ok : forall labels i st,
  fst (field_loop data row_index labels i st) = Ok tt.
Proof.
  induction labels as [|label rest IH]; intros i st; [reflexivity|].
  cbn [field_loop]. unfold bind. rewrite field_step_recovers. apply IH.
Qed.

Lemma field_loop_cons label rest i st :
  field_loop data row_index (label :: rest) i st
  = field_loop data row_index rest (S i)
      (snd (field_step data row_index label i st)).
Proof.
  cbn [field_loop]. unfold bind. now rewrite field_step_recovers.
Qed.

(** The loop goes on after any field: the fields after [label] are
    rendered, in column order, from the state [label] left. *)
Lemma field_loop_app : forall before label after i st,
  field_loop data row_index (before ++ label :: after) i st
  = field_loop data row_index after (S (i + length before))
      (snd (field_step data row_index label (i + length before)
              (snd (field_loop data row_index before i st)))).
Proof.
  induction before as [|b before IH]; intros label after i st.
  - cbn [app length]. rewrite Nat.add_0_r. apply field_loop_cons.
  - cbn [app length]. rewrite !field_loop_cons, IH.
    now replace (S i + length before) with (i + S (length before)) by lia.
Qed.

(** A producer whose value is not text, or has no ["HST"], fails after its
    label paragraph is in the document. *)
Lemma failed_producer_run display i row v st :
  data !! row_index = Some row -> row !! i = Some v ->
  producer_ok data row_index i = false ->
  exists e,
    render_field data row_index (lit "indemnity reserves:") display i st
    = (Raise e,
       append_block (BPara (new_para (display ++ lit " ") (lit "List Bullet"))) st)
    /\ e = match v with
           | VStr _ => IndexError
           | VOther ty _ => AttributeError ty (lit "split")
           end.
Proof.
  intros H1 H2. unfold producer_ok. rewrite H1, H2. intros H3.
  change (render_field data row_index (lit "indemnity reserves:") display i)
    with (reserve_field data row_index (lit "indemnity reserves:") display i).
  destruct st as [[front meta body] nt lg].
  unfold reserve_field. pick_branch.
  unfold data_at, index, bind. unfold_ops. rewrite H1. cbn. rewrite H2. cbn.
  destruct v as [s|ty r]; cbn.
  - fold HST. rewrite split_none by (assumption || discriminate). cbn. eauto.
  - eauto.
Qed.

End Loop.

Section Generate.

Variable img_err : str -> option str.

Lemma generate_docs_saves df template m out ri w :
  values df <> [] ->
  exists st msgs,
    generate_docs img_err (Ok df) template m out ri w
    = (Some out, World (w_log w ++ msgs) (<[out := doc st]> (w_fs w)))
    /\ st = build img_err df (default [] template) m
              (fst (clamp_row (length (values df)) ri)).
Proof.
  intros Hrows. unfold generate_docs.
  destruct (values df) as [|r rows] eqn:E; [congruence|]. cbn [length Nat.eqb].
  destruct (clamp_row (S (length rows)) ri) as [ri' warn].
  destruct template as [t|]; cbn [default fst]; eauto.
Qed.

(** C8 (as the code has it): an exception raised while a field is rendered
    is caught and logged as a warning, the rest of that field's rendering
    is abandoned (what it had already inserted stays, as for the label
    paragraph of a failed producer; the note is not changed), the loop goes
    on with the next column, and [generate_docs] saves the document and
    returns the output path. *)
Theorem field_failure_contained (df : table) (template : option (list block))
    (m : list (str * list str)) (out : str) (ri : nat) (w : world)
    (before after : list str) (label : str) (i : nat) (st : rstate) :
  let data := values df in
  (* caught, logged *)
  field_step data ri label i st
  = (Ok tt, recovered (display_name label)
              (render_field data ri (normalize label) (display_name label) i st))
  (* the next fields are rendered *)
  /\ fst (field_loop data ri (before ++ label :: after) i st) = Ok tt
  /\ field_loop data ri (before ++ label :: after) i st
     = field_loop data ri after (S (i + length before))
         (snd (field_step data ri label (i + length before)
                 (snd (field_loop data ri before i st))))
  (* what a failed producer leaves *)
  /\ (forall row v, data !! ri = Some row -> row !! i = Some v ->
        normalize label = lit "indemnity reserves:" ->
        producer_ok data ri i = false ->
        exists e,
          snd (field_step data ri label i st)
          = RState (push_block (BPara (new_para (display_name label ++ lit " ")
                                         (lit "List Bullet"))) (doc st))
                   (note st)
                   (log st ++ [warning_for (display_name label) e]))
  (* the document is saved *)
  /\ (data <> [] ->
      exists st' msgs,
        generate_docs img_err (Ok df) template m out ri w
        = (Some out, World (w_log w ++ msgs) (<[out := doc st']> (w_fs w)))).
Proof.
  cbn zeta. split; [apply field_step_recovers|].
  split; [apply field_loop_ok|]. split; [apply field_loop_app|]. split.
  - intros row v H1 H2 Hkey Hfail.
    destruct (@failed_producer_run (values df) ri (display_name label) i row v st
                H1 H2 Hfail) as (e & Hrun & _).
    exists e. rewrite field_step_recovers, Hkey, Hrun. reflexivity.
  - intros Hrows.
    destruct (@generate_docs_saves df template m out ri w Hrows)
      as (st' & msgs & H & _).
    eauto.
Qed.

End Generate.

Lemma field_failure_contained_witness :
  (exists e,
     snd (field_step (values no_hst_table) 0 (lit "Indemnity Reserves:") 0
            (RState (start_document []) [] []))
     = RState (push_block (BPara (new_para (lit "Indemnity Reserves: ")
                                    (lit "List Bullet")))
                 (start_document []))
              [] [warning_for (lit "Indemnity Reserves:") e])
  /\ exists st' msgs,
       generate_docs (fun _ => None) (Ok no_hst_table) None [] (lit "out/a.docx") 0
         (World [] ∅)
       = (Some (lit "out/a.docx"),
          World ([] ++ msgs) (<[lit "out/a.docx" := doc st']> ∅)).
Proof.
  pose proof (@field_failure_contained (fun _ => None) no_hst_table None []
                (lit "out/a.docx") 0 (World [] ∅) [] [lit "Expense Reserves:"]
                (lit "Indemnity Reserves:") 0 (RState (start_document []) [] []))
    as (_ & _ & _ & Hfail & Hsave).
  split.
  - apply (Hfail [VStr (lit "no tax"); VStr (lit "$500")] (VStr (lit "no tax")));
      reflexivity.
  - apply Hsave. discriminate.
Defined.

(** C8 fails as stated for a producer without ["HST"]: the exception is
    caught and logged, but the field is not skipped: its bulleted label
    paragraph is in the document. *)
Lemma failed_field_not_skipped :
  let st0 := RState (start_document []) [] [] in
  let data := values no_hst_table in
  fst (render_field data 0 (lit "indemnity reserves:") (lit "Indemnity Reserves:") 0 st0)
  = Raise IndexError
  /\ doc (snd (field_step data 0 (lit "Indemnity Reserves:") 0 st0)) <> doc st0
  /\ map para_text
       (omap (fun b => match b with BPara p => Some p | _ => None end)
          (d_body (doc (snd (field_step data 0 (lit "Indemnity Reserves:") 0 st0)))))
     = [lit "Indemnity Reserves: "]
  /\ log (snd (field_step data 0 (lit "Indemnity Reserves:") 0 st0))
     = [lit "[WARNING] Failed to insert column Indemnity Reserves:: list index out of range"].
Proof. vm_compute. repeat split. discriminate. Qed.

End FieldErrors.

(** ** The photo section *)

Module PhotoFacts.
Import PyStr Docx Py ReportGen RenderFacts Obs.

#[local] Arguments lit : simpl never.
#[local] Arguments style_get : simpl never.
#[local] Arguments new_para : simpl never.
#[local] Arguments new_run : simpl never.
#[local] Arguments upper : simpl never.
#[local] Arguments grid_tables : simpl never.

Section Photos.

Variable img_err : str -> option str.

Lemma for_each_log msgs : forall d n l,
  for_each msgs log_callback (RState d n l) = (Ok tt, RState d n (l ++ msgs)).
Proof.
  induction msgs as [|msg msgs IH]; intros d n l.
  - cbn. now rewrite app_nil_r.
  - cbn [for_each]. unfold bind, log_callback at 1, modify. cbn.
    rewrite IH. now rewrite <- app_assoc.
Qed.

Lemma for_each_grid gs : forall f m b n l,
  for_each gs add_grid (RState (Document f m b) n l)
  = (Ok tt, RState (Document f m (b ++ map (fun g => BGrid (fst g)) gs)) n
                   (l ++ concat (map snd gs))).
Proof.
  induction gs as [|g gs IH]; intros f m b n l.
  - cbn. now rewrite !app_nil_r.
  - cbn [for_each]. unfold bind, add_grid at 1. unfold bind, with_doc, modify.
    cbn [doc note log]. unfold push_block. cbn [d_front d_meta d_body].
    rewrite for_each_log, IH. cbn [map concat].
    now rewrite <- !app_assoc.
Qed.

Lemma room_section_run count idx room_name image_list f m b n l :
  exists l',
    room_section img_err count idx room_name image_list (RState (Document f m b) n l)
    = (Ok tt, RState (Document f m (b ++ room_blocks img_err count idx room_name image_list))
                     n l').
Proof.
  unfold room_section, room_blocks.
  generalize (idx <? count - 1). intros pb.
  unfold bind. unfold_ops. cbn.
  rewrite !lookup_snoc, !alter_snoc. cbn. rewrite !alter_snoc. cbn.
  rewrite for_each_grid.
  destruct pb; cbn; eexists.
  - unfold push_block. cbn. rewrite <- !app_assoc. reflexivity.
  - rewrite app_nil_r, <- !app_assoc. reflexivity.
Qed.

Lemma room_loop_run count : forall rooms idx f m b n l,
  exists l',
    room_loop img_err count idx rooms (RState (Document f m b) n l)
    = (Ok tt, RState (Document f m (b ++ rooms_blocks img_err count idx rooms)) n l').
Proof.
  induction rooms as [|[room_name image_list] rooms IH]; intros idx f m b n l.
  - exists l. cbn. now rewrite app_nil_r.
  - cbn [room_loop rooms_blocks]. unfold bind.
    destruct (room_section_run count idx room_name image_list f m b n l)
      as [l1 ->].
    destruct (IH (S idx) f m (b ++ room_blocks img_err count idx room_name image_list) n l1)
      as [l2 ->].
    exists l2. now rewrite <- app_assoc.
Qed.

Lemma photo_section_run rooms f m b n l :
  exists l',
    photo_section img_err rooms (RState (Document f m b) n l)
    = (Ok tt, RState (Document f m (b ++ photo_blocks img_err rooms)) n l').
Proof.
  unfold photo_section, photo_blocks. fold (not_home rooms).
  destruct (any_images rooms); cbn [when].
  2:{ exists l. cbn. now rewrite app_nil_r. }
  generalize (not_home rooms). intros nh.
  unfold bind. unfold_ops. cbn.
  rewrite !lookup_snoc, !alter_snoc. cbn. rewrite !alter_snoc. cbn.
  destruct nh as [|kv rest].
  - eexists. unfold ret, push_block. cbn.
    rewrite <- !app_assoc. reflexivity.
  - unfold ret.
    destruct (room_loop_run (length (kv :: rest)) (kv :: rest) 0 f m
                (((b ++ [BPageBreak]) ++ [BPara photo_heading])) n l) as [l' H].
    exists l'. etransitivity; [exact H|]. now rewrite <- !app_assoc.
Qed.

Lemma any_images_spec rooms :
  any_images rooms = true <-> exists k imgs, In (k, imgs) rooms /\ imgs <> [].
Proof.
  unfold any_images. rewrite existsb_exists. split.
  - intros ([k imgs] & Hin & H). exists k, imgs. split; [assumption|].
    cbn in H. now destruct imgs.
  - intros (k & imgs & Hin & H). exists (k, imgs). split; [assumption|].
    cbn. now destruct imgs.
Qed.

Lemma not_home_spec rooms k imgs :
  In (k, imgs) (not_home rooms) <-> In (k, imgs) rooms /\ lower k <> lit "home".
Proof.
  unfold not_home. rewrite filter_In. cbn [fst]. unfold is_home, eqb.
  rewrite negb_true_iff, bool_decide_eq_false. tauto.
Qed.

(** C2 (as the code has it): the page break and the PHOTOGRAPHS heading are
    emitted exactly when some key of the ImageSet, the header key included,
    has an image; the section then has the sub-categories other than the
    header entry, and the placeholder paragraph when none is left. *)
Theorem photo_section_emitted (rooms : list (str * list str)) (st : rstate) :
  let st' := snd (photo_section img_err rooms st) in
  d_body (doc st') = d_body (doc st) ++ photo_blocks img_err rooms
  /\ ((exists k imgs, In (k, imgs) rooms /\ imgs <> []) <->
      (exists rest,
         d_body (doc st')
         = d_body (doc st) ++ BPageBreak :: BPara photo_heading :: rest))
  /\ ((exists k imgs, In (k, imgs) rooms /\ imgs <> []) ->
      photo_blocks img_err rooms
      = BPageBreak :: BPara photo_heading
        :: (match not_home rooms with [] => [placeholder] | _ => [] end)
        ++ rooms_blocks img_err (length (not_home rooms)) 0 (not_home rooms))
  /\ (forall k imgs,
        In (k, imgs) (not_home rooms) <-> In (k, imgs) rooms /\ lower k <> lit "home").
Proof.
  cbn zeta. destruct st as [[f m b] n l].
  destruct (photo_section_run rooms f m b n l) as [l' Hrun].
  rewrite Hrun. cbn [snd doc d_body].
  split; [reflexivity|]. rewrite <- any_images_spec.
  split; [|split].
  - unfold photo_blocks. destruct (any_images rooms).
    + split; [eauto|reflexivity].
    + split; [discriminate|]. intros [rest H].
      apply app_inv_head in H. discriminate.
  - unfold photo_blocks. now intros ->.
  - apply not_home_spec.
Qed.

Lemma omap_grids (gs : list (list (list cell) * list str)) :
  omap block_grid (map (fun g => BGrid (fst g)) gs) = map fst gs.
Proof.
  induction gs as [|g gs IH]; [reflexivity|]. cbn. now f_equal.
Qed.

Lemma room_blocks_grids count idx room_name image_list :
  omap block_grid (room_blocks img_err count idx room_name image_list)
  = map fst (grid_tables img_err image_list).
Proof.
  unfold room_blocks. cbn [omap list_omap block_grid].
  change (omap block_grid ?l) with (omap block_grid l).
  rewrite omap_app, omap_grids.
  destruct (idx <? count - 1); cbn; now rewrite app_nil_r.
Qed.

(** C6: for a sub-category with [n] images the composer appends, after the
    heading, exactly [ceil(n/4)] tables of two rows of two cells, the
    [k]-th for the [k]-th batch of four images; the cell at [(row, col)]
    shows the image at index [row*2+col] of its batch when that index
    exists and is left untouched otherwise; five images give two tables. *)
Theorem photo_grid_spec (count idx : nat) (room_name : str)
    (image_list : list str) (st : rstate) :
  let st' := snd (room_section img_err count idx room_name image_list st) in
  let added := drop (length (d_body (doc st))) (d_body (doc st')) in
  let tables := omap block_grid added in
  d_body (doc st') = d_body (doc st) ++ added
  /\ tables = map fst (grid_tables img_err image_list)
  /\ length tables = (length image_list + 3) / 4
  /\ (length image_list = 5 -> length tables = 2)
  /\ forall k, k < (length image_list + 3) / 4 ->
       exists t, tables !! k = Some t
         /\ length t = 2
         /\ Forall (fun r => length r = 2) t
         /\ forall row col, row < 2 -> col < 2 ->
              exists c, cell_at t row col = Some c
                /\ batch_at image_list (4 * k) !! (row * 2 + col)
                   = image_list !! (4 * k + (row * 2 + col))
                /\ cell_shows img_err col
                     (batch_at image_list (4 * k) !! (row * 2 + col)) c.
Proof.
  cbn zeta. destruct st as [[f m b] n l].
  destruct (room_section_run count idx room_name image_list f m b n l) as [l' ->].
  cbn [snd doc d_body]. rewrite drop_app_length, room_blocks_grids.
  pose proof (GridFacts.grid_tables_cells img_err image_list) as (Hlen & H5 & Hk).
  split; [reflexivity|]. split; [reflexivity|].
  rewrite length_map. split; [assumption|]. split; [assumption|].
  intros k Hlt. destruct (Hk k Hlt) as (t & Ht & H2 & Hrows & Hcells).
  exists (fst t). split; [|auto].
  now rewrite list_lookup_fmap, Ht.
Qed.

End Photos.

Lemma photo_section_emitted_witness :
  photo_blocks (fun _ => None) [(lit "Kitchen", [lit "k1.jpg"])]
  = BPageBreak :: BPara photo_heading
    :: rooms_blocks (fun _ => None) 1 0 [(lit "Kitchen", [lit "k1.jpg"])].
Proof.
  apply (@photo_section_emitted (fun _ => None) [(lit "Kitchen", [lit "k1.jpg"])]
           (RState (start_document []) [] [])).
  exists (lit "Kitchen"), [lit "k1.jpg"]. split; [now left|discriminate].
Defined.

Lemma photo_grid_spec_witness :
  let five := [lit "1.jpg"; lit "2.jpg"; lit "3.jpg"; lit "4.jpg"; lit "5.jpg"] in
  let st0 := RState (start_document []) [] [] in
  let st' := snd (room_section (fun _ => None) 1 0 (lit "Kitchen") five st0) in
  length (omap block_grid (drop (length (d_body (doc st0))) (d_body (doc st')))) = 2.
Proof.
  cbn zeta.
  apply (@photo_grid_spec (fun _ => None) 1 0 (lit "Kitchen")
           [lit "1.jpg"; lit "2.jpg"; lit "3.jpg"; lit "4.jpg"; lit "5.jpg"]
           (RState (start_document []) [] [])).
  reflexivity.
Defined.

(** C2 fails as stated when the header image is the only image: there is no
    image under a key other than ["home"], and the page break, the heading
    and the placeholder are all emitted. *)
Lemma header_only_emits_section :
  let rooms := [(lit "Home", [lit "front.jpg"])] in
  let st' := snd (photo_section (fun _ => None) rooms
                    (RState (start_document []) [] [])) in
  (forall k imgs, In (k, imgs) rooms -> lower k = lit "home")
  /\ d_body (doc st') = [BPageBreak; BPara photo_heading; placeholder].
Proof.
  cbn zeta. split; [|reflexivity].
  intros k imgs [[= <- <-]|[]]. reflexivity.
Qed.

End PhotoFacts.

(** ** Row selection and output files *)

Module CaseFacts.
Import PyStr Docx Py ReportGen FieldErrors Obs.

Section Cases.

Variable img_err : str -> option str.

(** C5: with a readable source, no rows gives no result and an error in the
    log; a row index at or past the number of rows is reported with a
    warning and the document is built from the last row, exactly as for
    the index [rows - 1]. *)
Theorem row_selection (df : table) (template : option (list block))
    (m : list (str * list str)) (out : str) (row_index : nat) (w : world) :
  (values df = [] ->
   generate_docs img_err (Ok df) template m out row_index w
   = (None, say [lit "[ERROR] Excel file contains no rows."] w))
  /\ (values df <> [] -> length (values df) <= row_index ->
      let last_row := length (values df) - 1 in
      exists st rest,
        st = build img_err df (default [] template) m last_row
        /\ generate_docs img_err (Ok df) template m out row_index w
           = (Some out,
              World (w_log w ++ [row_warning row_index] ++ rest)
                    (<[out := doc st]> (w_fs w)))
        /\ generate_docs img_err (Ok df) template m out last_row w
           = (Some out,
              World (w_log w ++ rest) (<[out := doc st]> (w_fs w)))).
Proof.
  split.
  - intros E. unfold generate_docs. now rewrite E.
  - intros Hrows Hge. cbn zeta. unfold generate_docs, clamp_row.
    destruct (values df) as [|r rows] eqn:E; [congruence|].
    cbn [length Nat.eqb]. cbn [length] in Hge.
    replace (S (length rows) - 1) with (length rows) by lia.
    destruct (Nat.leb_spec (S (length rows)) row_index) as [_|]; [|lia].
    destruct (Nat.leb_spec (S (length rows)) (length rows)) as [|_]; [lia|].
    replace (S (length rows) - 1) with (length rows) by lia.
    destruct template as [t|]; cbn [default]; eexists; eexists;
      (split; [reflexivity|split; reflexivity]).
Qed.

(** *** The loop over the cases *)

Variable path_join : str -> str -> str.
Variable output_folder : str.

Lemma case_step_fs df template i claim_name room_images generated w :
  values df <> [] ->
  w_fs (snd (case_step img_err path_join output_folder (Ok df) template
               i claim_name room_images (generated, w)))
  = <[output_path path_join output_folder i claim_name
      := doc (build img_err df (default [] template) room_images
                (fst (clamp_row (length (values df)) i)))]> (w_fs w).
Proof.
  intros Hrows. unfold case_step.
  destruct (@generate_docs_saves img_err df template room_images
              (output_path path_join output_folder i claim_name) i
              (say [lit "[INFO] Generating document for claim: " ++ claim_name
                    ++ lit " -> " ++ output_path path_join output_folder i claim_name] w)
              Hrows) as (st & msgs & -> & ->).
  destruct (output_path path_join output_folder i claim_name); reflexivity.
Qed.

Lemma output_path_sanitized i claim_name :
  sanitize claim_name <> [] ->
  output_path path_join output_folder i claim_name
  = path_join output_folder (sanitize claim_name ++ lit ".docx").
Proof.
  intros H. unfold output_path, safe_name.
  now destruct (sanitize claim_name).
Qed.

(** C10: sanitising is not injective (["a/b"] and ["a_b"] both give
    ["a_b"]), the output path depends on the case name only through the
    sanitised name, and two cases whose names sanitise alike are saved to
    one path: after both, that path holds the document of the later case,
    and starting from an empty folder it is the only file. *)
Theorem colliding_names_share_a_file (df : table) (template : option (list block))
    (n1 n2 : str) (imgs1 imgs2 : list (str * list str)) (w : world) :
  values df <> [] ->
  n1 <> n2 ->
  sanitize n1 = sanitize n2 ->
  sanitize n1 <> [] ->
  let p := path_join output_folder (sanitize n1 ++ lit ".docx") in
  let later := doc (build img_err df (default [] template) imgs2
                      (fst (clamp_row (length (values df)) 1))) in
  let r := case_loop img_err path_join output_folder (Ok df) template 0
             [(n1, imgs1); (n2, imgs2)] ([], w) in
  (lit "a/b" <> lit "a_b" /\ sanitize (lit "a/b") = sanitize (lit "a_b"))
  /\ output_path path_join output_folder 0 n1 = p
  /\ output_path path_join output_folder 1 n2 = p
  /\ w_fs (snd r) = <[p := later]> (w_fs w)
  /\ (w_fs w = ∅ -> w_fs (snd r) = {[p := later]}).
Proof.
  intros Hrows Hne Hsan Hnonempty. cbn zeta.
  assert (Hp1 := @output_path_sanitized 0 n1 Hnonempty).
  assert (Hp2 : output_path path_join output_folder 1 n2
                = path_join output_folder (sanitize n1 ++ lit ".docx")).
  { rewrite Hsan. apply output_path_sanitized. now rewrite <- Hsan. }
  split; [split; [discriminate|reflexivity]|].
  split; [assumption|]. split; [assumption|].
  assert (Hfs :
    w_fs (snd (case_loop img_err path_join output_folder (Ok df) template 0
                 [(n1, imgs1); (n2, imgs2)] ([], w)))
    = <[path_join output_folder (sanitize n1 ++ lit ".docx")
        := doc (build img_err df (default [] template) imgs2
                  (fst (clamp_row (length (values df)) 1)))]> (w_fs w)).
  { cbn [case_loop].
    destruct (case_step img_err path_join output_folder (Ok df) template 0 n1
                imgs1 ([], w)) as [g1 w1] eqn:E1.
    rewrite case_step_fs by assumption.
    replace (w_fs w1) with
      (w_fs (snd (case_step img_err path_join output_folder (Ok df) template 0 n1
                    imgs1 ([], w)))) by now rewrite E1.
    rewrite case_step_fs by assumption.
    rewrite Hp1, Hp2. apply insert_insert_eq. }
  split; [exact Hfs|].
  intros Hempty. rewrite Hfs, Hempty. reflexivity.
Qed.

End Cases.

Lemma row_selection_witness :
  exists st rest,
    generate_docs (fun _ => None) (Ok one_row) None [] (lit "out/a.docx") 7 (World [] ∅)
    = (Some (lit "out/a.docx"),
       World ([] ++ [row_warning 7] ++ rest) (<[lit "out/a.docx" := doc st]> ∅))
    /\ generate_docs (fun _ => None) (Ok one_row) None [] (lit "out/a.docx") 0 (World [] ∅)
       = (Some (lit "out/a.docx"),
          World ([] ++ rest) (<[lit "out/a.docx" := doc st]> ∅)).
Proof.
  destruct (@row_selection (fun _ => None) one_row None [] (lit "out/a.docx") 7
              (World [] ∅)) as (_ & H).
  destruct H as (st & rest & _ & H1 & H2);
    [discriminate|cbn; lia|].
  exists st, rest. split; [exact H1|exact H2].
Defined.

Lemma colliding_names_share_a_file_witness :
  exists d,
    w_fs (snd (case_loop (fun _ => None) posix_join (lit "outputs") (Ok one_row) None 0
                 [(lit "a#b", []); (lit "a_b", [])] ([], World [] ∅)))
    = {[lit "outputs/a_b.docx" := d]}.
Proof.
  eexists.
  apply (@colliding_names_share_a_file (fun _ => None) posix_join (lit "outputs")
           one_row None (lit "a#b") (lit "a_b") [] [] (World [] ∅)).
  - discriminate.
  - discriminate.
  - reflexivity.
  - vm_compute. discriminate.
  - reflexivity.
Defined.

End CaseFacts.

(* ================================================================== *)
(** * More properties of the code *)

(** ** Splitting, joining, sorting *)

Module PyMoreFacts.
Import PyStr PyMore PyStrFacts RenderFacts Obs Views.

Lemma drop_prefix_Some : forall p s r, drop_prefix p s = Some r -> s = p ++ r.
Proof.
  induction p as [|a p IH]; intros s r H; cbn in H.
  - now injection H as ->.
  - destruct s as [|b s]; [discriminate|].
    destruct (Strings.Ascii.eqb_spec a b) as [->|]; [|discriminate].
    cbn. f_equal. now apply IH.
Qed.

Lemma drop_prefix_app : forall p r, drop_prefix p (p ++ r) = Some r.
Proof.
  induction p as [|a p IH]; intros r; cbn; [reflexivity|].
  now rewrite Strings.Ascii.eqb_refl.
Qed.

(** A prefix of a text is a prefix of any longer text. *)
Lemma drop_prefix_None_app : forall p a b,
  drop_prefix p (a ++ b) = None -> drop_prefix p a = None.
Proof.
  induction p as [|x p IH]; intros a b H; cbn in *; [discriminate|].
  destruct a as [|y a]; [reflexivity|]. cbn in H.
  destruct (Strings.Ascii.eqb x y); [eauto|reflexivity].
Qed.

Lemma join_cons sep x l :
  l <> [] -> join sep (x :: l) = x ++ sep ++ join sep l.
Proof. destruct l; [congruence|reflexivity]. Qed.

Lemma split_go_not_nil sep s skip cur : split_go sep skip cur s <> [].
Proof.
  destruct (split_go_nonempty sep s skip cur) as (t0 & more & ->). discriminate.
Qed.

(** Joining the pieces with the separator gives the text back, whatever
    part of the scan it is taken from. *)
Lemma join_split_go sep : sep <> [] -> forall s skip cur,
  join sep (split_go sep skip cur s) = rev cur ++ drop skip s.
Proof.
  intros Hsep. induction s as [|c t IH]; intros skip cur.
  - rewrite drop_nil, app_nil_r. reflexivity.
  - rewrite split_go_cons. destruct skip as [|k]; [|apply IH].
    destruct (drop_prefix sep (c :: t)) as [rest|] eqn:E.
    + rewrite join_cons by apply split_go_not_nil.
      rewrite IH. cbn [rev app]. rewrite drop_0.
      apply drop_prefix_Some in E.
      destruct sep as [|a sep']; [congruence|].
      injection E as -> ->. cbn [length].
      replace (S (length sep') - 1) with (length sep') by lia.
      rewrite drop_app_length. reflexivity.
    + rewrite IH. cbn [rev]. rewrite drop_0, <- app_assoc. reflexivity.
Qed.

Lemma occurs_false_suffixes sep : sep <> [] -> forall p,
  (forall a b, p = a ++ b -> b <> [] -> drop_prefix sep b = None) ->
  occurs sep p = false.
Proof.
  intros Hsep. induction p as [|c p IH]; intros H.
  - cbn. destruct sep; [congruence|reflexivity].
  - cbn [occurs]. rewrite (H [] (c :: p)) by (reflexivity || discriminate).
    apply IH. intros a b -> Hb. apply (H (c :: a) b); [reflexivity|assumption].
Qed.

Lemma piece_open_closed sep cur s :
  sep <> [] -> piece_open sep cur s -> occurs sep (rev cur) = false.
Proof.
  intros Hsep H. apply occurs_false_suffixes; [assumption|].
  intros a b E Hb. eapply drop_prefix_None_app. eapply H; eassumption.
Qed.

Lemma split_go_pieces sep : sep <> [] -> forall s skip cur,
  (skip <> 0 -> cur = []) -> piece_open sep cur s ->
  Forall (fun piece => occurs sep piece = false) (split_go sep skip cur s).
Proof.
  intros Hsep. induction s as [|c t IH]; intros skip cur Hskip Hopen.
  - cbn. constructor; [|constructor]. eapply piece_open_closed; eassumption.
  - rewrite split_go_cons. destruct skip as [|k].
    + destruct (drop_prefix sep (c :: t)) as [rest|] eqn:E.
      * constructor; [eapply piece_open_closed; eassumption|].
        apply IH; [reflexivity|].
        intros a b Hab Hb. destruct a; destruct b; cbn in Hab; congruence.
      * apply IH; [congruence|].
        intros a b Hab Hb. cbn [rev] in Hab.
        destruct (exists_last Hb) as (b' & x & ->).
        rewrite app_assoc in Hab. apply app_inj_tail in Hab as [Hab ->].
        rewrite <- app_assoc. cbn [app].
        destruct b' as [|y b']; [exact E|].
        apply (Hopen a (y :: b')); [assumption|discriminate].
    + rewrite (Hskip ltac:(discriminate)).
      apply IH; [intros _; reflexivity|].
      intros a b Hab Hb. destruct a; destruct b; cbn in Hab; congruence.
Qed.

(** X1: [str.split] with a non-empty separator loses nothing and leaves no
    separator behind: there is always a first piece, joining the pieces with
    the separator gives the text back, and no piece contains the separator.
    (The producer and the sign-off index the pieces of such a split.) *)
Theorem split_join_roundtrip (sep s : str) :
  sep <> [] ->
  split_go sep 0 [] s <> []
  /\ join sep (split_go sep 0 [] s) = s
  /\ Forall (fun piece => occurs sep piece = false) (split_go sep 0 [] s).
Proof.
  intros Hsep. split; [apply split_go_not_nil|]. split.
  - rewrite join_split_go by assumption. now rewrite drop_0.
  - apply split_go_pieces; [assumption|reflexivity|].
    intros a b Hab Hb. destruct a; destruct b; cbn in Hab; congruence.
Qed.

Lemma split_join_roundtrip_witness :
  join (lit "HST") (split_go (lit "HST") 0 [] (lit "$1,000 plus HST tax included"))
  = lit "$1,000 plus HST tax included".
Proof.
  apply (@split_join_roundtrip (lit "HST") (lit "$1,000 plus HST tax included")).
  discriminate.
Defined.

(** *** The order of strings and [sorted] *)

Lemma str_ltb_irrefl a : str_ltb a a = false.
Proof.
  induction a as [|x a IH]; [reflexivity|]. cbn [str_ltb].
  now rewrite Nat.ltb_irrefl.
Qed.

Lemma code_inj x y : code x = code y -> x = y.
Proof.
  unfold code. intros H.
  rewrite <- (Ascii.ascii_nat_embedding x), <- (Ascii.ascii_nat_embedding y).
  now rewrite H.
Qed.

Lemma str_ltb_total a : forall b, str_ltb a b = false -> str_ltb b a = false -> a = b.
Proof.
  induction a as [|x a IH]; intros [|y b] H1 H2; try reflexivity; try discriminate.
  cbn [str_ltb] in H1, H2.
  destruct (Nat.ltb_spec (code x) (code y)); [discriminate|].
  destruct (Nat.ltb_spec (code y) (code x)); [discriminate|].
  assert (x = y) as -> by (apply code_inj; lia).
  f_equal. now apply IH.
Qed.

Lemma str_ltb_trans a : forall b c,
  str_ltb a b = true -> str_ltb b c = true -> str_ltb a c = true.
Proof.
  induction a as [|x a IH]; intros [|y b] [|z c] H1 H2; try reflexivity; try discriminate.
  cbn [str_ltb] in *.
  destruct (Nat.ltb_spec (code x) (code y)).
  - destruct (Nat.ltb_spec (code y) (code z)).
    + destruct (Nat.ltb_spec (code x) (code z)); [reflexivity|lia].
    + destruct (Nat.ltb_spec (code z) (code y)); [discriminate|].
      destruct (Nat.ltb_spec (code x) (code z)); [reflexivity|lia].
  - destruct (Nat.ltb_spec (code y) (code x)); [discriminate|].
    destruct (Nat.ltb_spec (code y) (code z)).
    + destruct (Nat.ltb_spec (code x) (code z)); [reflexivity|lia].
    + destruct (Nat.ltb_spec (code z) (code y)); [discriminate|].
      destruct (Nat.ltb_spec (code x) (code z)); [lia|].
      destruct (Nat.ltb_spec (code z) (code x)); [lia|].
      eapply IH; eassumption.
Qed.

Lemma str_ltb_asym a : forall b, str_ltb a b = true -> str_ltb b a = false.
Proof.
  induction a as [|x a IH]; intros [|y b] H; try reflexivity; try discriminate.
  cbn [str_ltb] in *.
  destruct (Nat.ltb_spec (code x) (code y)).
  - destruct (Nat.ltb_spec (code y) (code x)); [lia|reflexivity].
  - destruct (Nat.ltb_spec (code y) (code x)); [discriminate|]. now apply IH.
Qed.

Lemma str_le_trans a b c : str_le a b -> str_le b c -> str_le a c.
Proof.
  unfold str_le. intros H1 H2.
  destruct (str_ltb c a) eqn:E; [|reflexivity].
  destruct (str_ltb a b) eqn:E1.
  - rewrite (str_ltb_trans _ _ _ E E1) in H2. discriminate.
  - assert (a = b) as -> by now apply str_ltb_total. congruence.
Qed.

Lemma insert_sorted_perm x l : insert_sorted x l ≡ₚ x :: l.
Proof.
  induction l as [|y l IH]; cbn; [reflexivity|].
  destruct (str_ltb y x); [|reflexivity].
  rewrite IH. apply Permutation_swap.
Qed.

Lemma sorted_perm l : sorted l ≡ₚ l.
Proof.
  induction l as [|x l IH]; cbn; [reflexivity|].
  now rewrite insert_sorted_perm, IH.
Qed.

Lemma insert_sorted_ascending x l :
  Sorted.StronglySorted str_le l -> Sorted.StronglySorted str_le (insert_sorted x l).
Proof.
  induction 1 as [|y l Hs IH Hy]; cbn.
  - repeat constructor.
  - destruct (str_ltb y x) eqn:E.
    + constructor; [assumption|].
      rewrite insert_sorted_perm. constructor; [|assumption].
      unfold str_le. now apply str_ltb_asym.
    + constructor; [now constructor|].
      constructor; [exact E|].
      eapply Forall_impl; [exact Hy|]. intros z Hz.
      eapply str_le_trans; [exact E|exact Hz].
Qed.

Lemma sorted_ascending l : Sorted.StronglySorted str_le (sorted l).
Proof.
  induction l as [|x l IH]; cbn; [constructor|].
  now apply insert_sorted_ascending.
Qed.

Lemma sorted_nil l : sorted l = [] -> l = [].
Proof.
  intros H. apply Permutation_nil_r. rewrite <- H. symmetry. apply sorted_perm.
Qed.

(** *** Dicts in insertion order *)

Lemma dict_set_not_nil {A} k (v : A) d : dict_set k v d <> [].
Proof. destruct d as [|[k' v'] d]; cbn; [|destruct (eqb k k')]; discriminate. Qed.

Lemma assoc_dict_set {A} k (v : A) d : ReportGen.assoc k (dict_set k v d) = Some v.
Proof.
  induction d as [|[k' v'] d IH]; cbn.
  - unfold eqb. now rewrite bool_decide_eq_true_2.
  - destruct (eqb k k') eqn:E; cbn; rewrite E; [reflexivity|exact IH].
Qed.

Lemma assoc_dict_set_ne {A} k k2 (v : A) d :
  k2 <> k -> ReportGen.assoc k2 (dict_set k v d) = ReportGen.assoc k2 d.
Proof.
  intros Hne. induction d as [|[k' v'] d IH]; cbn.
  - unfold eqb. now rewrite bool_decide_eq_false_2.
  - destruct (eqb k k') eqn:E; cbn.
    + apply bool_decide_eq_true in E. subst k'.
      unfold eqb. now rewrite bool_decide_eq_false_2.
    + now rewrite IH.
Qed.

Lemma dict_set_same {A} k (v : A) d :
  ReportGen.assoc k d = Some v -> dict_set k v d = d.
Proof.
  induction d as [|[k' v'] d IH]; cbn; [discriminate|].
  destruct (eqb k k'); [now intros [= ->]|]. intros H. now rewrite IH.
Qed.

Lemma dict_set_values {A} (P : A -> Prop) k v d :
  P v -> Forall (fun kv => P (snd kv)) d ->
  Forall (fun kv => P (snd kv)) (dict_set k v d).
Proof.
  intros Hv. induction 1 as [|[k' v'] d Hx Hd IH]; cbn.
  - repeat constructor. exact Hv.
  - destruct (eqb k k'); constructor; auto.
Qed.

End PyMoreFacts.

(** ** The style registry *)

Module StyleFacts.
Import PyStr Docx Py ReportGen Obs.

(** X2: applying a style twice is the same as applying it once. *)
Theorem apply_style_idempotent (style_key : str) (p : para) :
  apply_style style_key (apply_style style_key p) = apply_style style_key p.
Proof.
  unfold apply_style. cbn [p_style p_runs p_align p_spacing].
  rewrite map_map. cbn [r_items].
  f_equal. now destruct (alignment (style_get style_key)).
Qed.

(** X3: a style applied after another replaces all it wrote to the runs and
    the line spacing, and neither touches the content of the runs or the
    named style; the alignment is the exception: a style without one
    ("Normal", "List Paragraph", an unknown key) leaves the alignment of the
    earlier style in place. *)
Theorem apply_style_last_wins (k1 k2 : str) (p : para) :
  let q := apply_style k2 (apply_style k1 p) in
  p_runs q = p_runs (apply_style k2 p)
  /\ p_spacing q = p_spacing (apply_style k2 p)
  /\ p_style q = p_style p
  /\ map r_items (p_runs q) = map r_items (p_runs p)
  /\ para_text q = para_text p
  /\ p_align q =
     match alignment (style_get k2), alignment (style_get k1) with
     | Some a, _ => Some a
     | None, Some a => Some a
     | None, None => p_align p
     end.
Proof.
  cbn zeta. unfold apply_style. cbn [p_style p_runs p_align p_spacing].
  rewrite !map_map. cbn [r_items].
  repeat split.
  all: try (unfold para_text; cbn [p_runs]; rewrite map_map; reflexivity).
  all: destruct (alignment (style_get k2)), (alignment (style_get k1)); reflexivity.
Qed.

End StyleFacts.

(** ** Cell margins *)

Module MarginFacts.
Import PyStr PyMore CellMargins Views PyMoreFacts.

#[local] Arguments lit : simpl never.

Lemma tag_stamp v e : tag (stamp v e) = tag e.
Proof. reflexivity. Qed.

Lemma find_lookup t : forall m i,
  find t m = Some i -> exists e, m !! i = Some e /\ tag e = t.
Proof.
  induction m as [|e m IH]; intros i H; cbn in H; [discriminate|].
  destruct (eqb (tag e) t) eqn:E.
  - injection H as <-. exists e. split; [reflexivity|].
    now apply bool_decide_eq_true in E.
  - destruct (find t m) as [j|]; [|discriminate]. injection H as <-.
    apply (IH j). reflexivity.
Qed.

Lemma find_alter t (f : element -> element) :
  (forall e, tag (f e) = tag e) ->
  forall m i, find t (alter f i m) = find t m.
Proof.
  intros Hf. induction m as [|e m IH]; intros i; [reflexivity|].
  destruct i as [|i]; cbn.
  - now rewrite Hf.
  - now rewrite IH.
Qed.

Lemma find_snoc t x : forall m,
  find t (m ++ [x]) =
  match find t m with
  | Some i => Some i
  | None => if eqb (tag x) t then Some (length m) else None
  end.
Proof.
  induction m as [|e m IH]; cbn.
  - now destruct (eqb (tag x) t).
  - destruct (eqb (tag e) t); [reflexivity|]. rewrite IH.
    destruct (find t m); [reflexivity|]. now destruct (eqb (tag x) t).
Qed.

Lemma alter_fixed {A} (f : A -> A) : forall (l : list A) (i : nat) x,
  l !! i = Some x -> f x = x -> alter f i l = l.
Proof.
  induction l as [|y l IH]; intros [|i] x H Hx; cbn in *; try discriminate.
  - injection H as ->. now rewrite Hx.
  - f_equal. eapply IH; eassumption.
Qed.

Lemma set_side_unfold m side v :
  set_side m side v =
  match find (lit "w:" ++ side) m with
  | Some i => alter (stamp v) i m
  | None => m ++ [stamp v (Element (lit "w:" ++ side) [])]
  end.
Proof.
  unfold set_side. destruct (find (lit "w:" ++ side) m); [reflexivity|].
  apply RenderFacts.alter_snoc.
Qed.

Lemma attrs_stamp v e :
  ReportGen.assoc (lit "w:w") (attrs (stamp v e)) = Some (of_nat v)
  /\ ReportGen.assoc (lit "w:type") (attrs (stamp v e)) = Some (lit "dxa").
Proof.
  unfold stamp, set_attr. cbn [attrs]. split.
  - rewrite assoc_dict_set_ne by discriminate. apply assoc_dict_set.
  - apply assoc_dict_set.
Qed.

(** A side reads the value just written to it. *)
Lemma margin_set_side m side v : margin side (set_side m side v) = set_to v.
Proof.
  unfold margin, set_to. rewrite set_side_unfold.
  destruct (find (lit "w:" ++ side) m) as [i|] eqn:E.
  - rewrite find_alter by apply tag_stamp. rewrite E.
    destruct (find_lookup _ _ E) as (e & He & _).
    rewrite list_lookup_alter_eq, He. cbn [fmap option_fmap option_map].
    now destruct (attrs_stamp v e) as [-> ->].
  - rewrite find_snoc, E. cbn [tag stamp set_attr].
    unfold eqb. rewrite bool_decide_eq_true_2 by reflexivity.
    rewrite RenderFacts.lookup_snoc.
    now destruct (attrs_stamp v (Element (lit "w:" ++ side) [])) as [-> ->].
Qed.

(** Writing one side leaves what the others read. *)
Lemma margin_set_side_ne m side side2 v :
  side2 <> side -> margin side2 (set_side m side v) = margin side2 m.
Proof.
  intros Hne.
  assert (Ht : lit "w:" ++ side2 <> lit "w:" ++ side).
  { intros H. apply app_inv_head in H. contradiction. }
  unfold margin. rewrite set_side_unfold.
  destruct (find (lit "w:" ++ side) m) as [i|] eqn:E.
  - rewrite find_alter by apply tag_stamp.
    destruct (find (lit "w:" ++ side2) m) as [j|] eqn:E2; [|reflexivity].
    destruct (find_lookup _ _ E) as (e & He & Hte).
    destruct (find_lookup _ _ E2) as (e2 & He2 & Hte2).
    rewrite list_lookup_alter_ne; [reflexivity|].
    intros ->. congruence.
  - rewrite find_snoc. cbn [tag stamp set_attr].
    destruct (find (lit "w:" ++ side2) m) as [j|] eqn:E2.
    + destruct (find_lookup _ _ E2) as (e2 & He2 & _).
      rewrite lookup_app_l by (eapply lookup_lt_Some; eassumption).
      reflexivity.
    + unfold eqb. now rewrite bool_decide_eq_false_2 by congruence.
Qed.

(** A side that already reads the value is left as it is. *)
Lemma set_side_fixed m side v : margin side m = set_to v -> set_side m side v = m.
Proof.
  unfold margin, set_to. rewrite set_side_unfold.
  destruct (find (lit "w:" ++ side) m) as [i|]; [|discriminate].
  destruct (m !! i) as [e|] eqn:He; [|discriminate].
  intros [= Hw Ht]. eapply alter_fixed; [exact He|].
  destruct e as [t a]. unfold stamp, set_attr. cbn [tag attrs] in *.
  rewrite (dict_set_same _ _ Hw). now rewrite (dict_set_same _ _ Ht).
Qed.

(** Nodes that are there keep their place, and those of other tags their
    content. *)
Lemma set_side_keeps m side v i e :
  m !! i = Some e -> tag e <> lit "w:" ++ side -> set_side m side v !! i = Some e.
Proof.
  intros He Ht. rewrite set_side_unfold.
  destruct (find (lit "w:" ++ side) m) as [j|] eqn:E.
  - destruct (find_lookup _ _ E) as (e' & He' & Hte).
    rewrite list_lookup_alter_ne; [assumption|]. intros ->. congruence.
  - rewrite lookup_app_l by (eapply lookup_lt_Some; eassumption). assumption.
Qed.

Lemma set_side_length m side v :
  length m <= length (set_side m side v) <= S (length m).
Proof.
  rewrite set_side_unfold. destruct (find (lit "w:" ++ side) m).
  - rewrite length_alter. lia.
  - rewrite length_app. cbn. lia.
Qed.

Lemma set_cell_padding_unfold tcMar t s b e :
  set_cell_padding tcMar t s b e =
  set_side (set_side (set_side (set_side (default [] tcMar) (lit "top") t)
                         (lit "start") s) (lit "bottom") b) (lit "end") e.
Proof. destruct tcMar; reflexivity. Qed.

(** X4: whatever margins the cell had, after [set_cell_padding] each of the
    four sides reads the value given for it, in twentieths of a point
    (["dxa"]); the nodes that were there keep their position, those of other
    tags are left as they were, and at most four nodes are added. *)
Theorem set_cell_padding_margins (tcMar : option (list element))
    (top start bottom end_ : nat) :
  let before := default [] tcMar in
  let after := set_cell_padding tcMar top start bottom end_ in
  margin (lit "top") after = Some (Some (of_nat top), Some (lit "dxa"))
  /\ margin (lit "start") after = Some (Some (of_nat start), Some (lit "dxa"))
  /\ margin (lit "bottom") after = Some (Some (of_nat bottom), Some (lit "dxa"))
  /\ margin (lit "end") after = Some (Some (of_nat end_), Some (lit "dxa"))
  /\ (forall i e, before !! i = Some e -> ~ In (tag e) side_tags ->
        after !! i = Some e)
  /\ length before <= length after <= length before + 4.
Proof.
  cbn zeta. rewrite set_cell_padding_unfold.
  generalize (default [] tcMar). intros m.
  repeat split.
  - rewrite !margin_set_side_ne by discriminate. apply margin_set_side.
  - rewrite !margin_set_side_ne by discriminate. apply margin_set_side.
  - rewrite !margin_set_side_ne by discriminate. apply margin_set_side.
  - apply margin_set_side.
  - intros i e He Ht.
    repeat (apply set_side_keeps;
            [|intros Hx; apply Ht; rewrite Hx; vm_compute; tauto]).
    assumption.
  - repeat (etransitivity; [|apply set_side_length]). reflexivity.
  - pose proof (set_side_length m (lit "top") top).
    pose proof (set_side_length (set_side m (lit "top") top) (lit "start") start).
    pose proof (set_side_length
                  (set_side (set_side m (lit "top") top) (lit "start") start)
                  (lit "bottom") bottom).
    pose proof (set_side_length
                  (set_side (set_side (set_side m (lit "top") top) (lit "start") start)
                     (lit "bottom") bottom) (lit "end") end_).
    lia.
Qed.

(** X5: [set_cell_padding] is idempotent: a second call with the same
    values changes nothing. *)
Theorem set_cell_padding_idempotent (tcMar : option (list element))
    (top start bottom end_ : nat) :
  let after := set_cell_padding tcMar top start bottom end_ in
  set_cell_padding (Some after) top start bottom end_ = after.
Proof.
  cbn zeta.
  rewrite (set_cell_padding_unfold (Some _)). cbn [default].
  rewrite set_cell_padding_unfold. generalize (default [] tcMar). intros m.
  set (after := set_side (set_side (set_side (set_side m (lit "top") top)
                                     (lit "start") start)
                           (lit "bottom") bottom) (lit "end") end_).
  assert (Ht : margin (lit "top") after = set_to top)
    by (subst after; rewrite !margin_set_side_ne by discriminate;
        apply margin_set_side).
  assert (Hs : margin (lit "start") after = set_to start)
    by (subst after; rewrite !margin_set_side_ne by discriminate;
        apply margin_set_side).
  assert (Hb : margin (lit "bottom") after = set_to bottom)
    by (subst after; rewrite !margin_set_side_ne by discriminate;
        apply margin_set_side).
  assert (He : margin (lit "end") after = set_to end_)
    by (subst after; apply margin_set_side).
  clearbody after. unfold id.
  now rewrite (set_side_fixed _ _ Ht), (set_side_fixed _ _ Hs),
    (set_side_fixed _ _ Hb), (set_side_fixed _ _ He).
Qed.

End MarginFacts.

(** ** Output names *)

Module NameFacts.
Import PyStr PyStrFacts ReportGen Obs SanitizeFacts Views.

Lemma allowed_safe_char c : allowed (safe_char c).
Proof.
  unfold safe_char.
  destruct (isalnum c) eqn:E1; cbn [orb]; [now left|].
  destruct (char_in c (lit " ._-")) eqn:E2.
  - right. now apply char_in_In.
  - right. vm_compute. tauto.
Qed.

Lemma strip_In s c : In c (strip s) -> In c s.
Proof.
  unfold strip. intros H.
  destruct (LabelFacts.rstrip_prefix (lstrip s)) as [q Hq].
  destruct (lstrip_suffix s) as [p Hp].
  rewrite Hp, Hq. apply in_or_app. right. apply in_or_app. now left.
Qed.

Lemma map_fixed {A} (f : A -> A) l : (forall x, In x l -> f x = x) -> map f l = l.
Proof.
  induction l as [|x l IH]; intros H; cbn; [reflexivity|].
  rewrite H by now left. f_equal. apply IH. intros y Hy. apply H. now right.
Qed.

Lemma sanitize_allowed name c : In c (sanitize name) -> allowed c.
Proof.
  unfold sanitize. intros H. apply strip_In, in_map_iff in H as (x & <- & _).
  apply allowed_safe_char.
Qed.

(** X6: sanitising a sanitised name changes nothing. *)
Theorem sanitize_idempotent (claim_name : str) :
  sanitize (sanitize claim_name) = sanitize claim_name.
Proof.
  unfold sanitize at 1. rewrite map_fixed.
  - unfold sanitize. apply strip_idem.
  - intros c Hc. apply safe_char_allowed. eapply sanitize_allowed, Hc.
Qed.

Lemma uint_digits u :
  Forall digit (lit (DecimalString.NilEmpty.string_of_uint u)).
Proof. induction u; cbn; constructor; (reflexivity || assumption). Qed.

Lemma of_nat_digits n : Forall digit (of_nat n).
Proof. apply uint_digits. Qed.

Lemma digit_allowed c : digit c -> allowed c.
Proof.
  unfold digit, allowed, isalnum. intros ->. now left.
Qed.

Lemma digit_not_space c : digit c -> isspace c = false.
Proof. intros H. apply isalnum_not_space. unfold isalnum. now rewrite H. Qed.

Lemma lstrip_fixed s : Forall (fun c => isspace c = false) s -> lstrip s = s.
Proof. destruct 1 as [|c s Hc _]; cbn; [reflexivity|]. now rewrite Hc. Qed.

Lemma strip_fixed s : Forall (fun c => isspace c = false) s -> strip s = s.
Proof.
  intros H. unfold strip, rstrip. rewrite (lstrip_fixed H).
  rewrite lstrip_fixed by now apply Forall_rev.
  apply rev_involutive.
Qed.

Lemma allowed_not_separator c :
  allowed c -> c <> "/"%char /\ c <> "092"%char /\ c <> ":"%char.
Proof.
  intros [H|H].
  - repeat split; intros ->; discriminate.
  - vm_compute in H. repeat split; intros ->; intuition discriminate.
Qed.

(** X7: the name a document is saved under is never empty, is made of
    alphanumeric characters, spaces, dots, underscores and hyphens only (so
    it holds no path separator and no drive colon), and has no white space
    at either end. *)
Theorem safe_name_safe (i : nat) (claim_name : str) :
  let name := safe_name i claim_name in
  name <> []
  /\ Forall allowed name
  /\ Forall (fun c => c <> "/"%char /\ c <> "092"%char /\ c <> ":"%char) name
  /\ strip name = name.
Proof.
  cbn zeta.
  assert (Hall : Forall allowed (safe_name i claim_name)).
  { unfold safe_name. destruct (sanitize claim_name) as [|c s] eqn:E.
    - apply Forall_app. split.
      + repeat constructor; vm_compute; tauto.
      + eapply Forall_impl; [apply of_nat_digits|]. apply digit_allowed.
    - rewrite <- E. apply List.Forall_forall. intros x. apply sanitize_allowed. }
  split; [|split; [exact Hall|split]].
  - unfold safe_name. destruct (sanitize claim_name); discriminate.
  - eapply Forall_impl; [exact Hall|]. apply allowed_not_separator.
  - unfold safe_name. destruct (sanitize claim_name) as [|c s] eqn:E.
    + apply strip_fixed, Forall_app. split.
      * repeat constructor.
      * eapply Forall_impl; [apply of_nat_digits|]. apply digit_not_space.
    + rewrite <- E. unfold sanitize. apply strip_idem.
Qed.

End NameFacts.

(** ** What the field loop leaves in place *)

Module FrameFacts.
Import PyStr PyMore Label Docx Py ReportGen RenderFacts Obs Views.

Lemma cell_kept_refl c : cell_kept c c.
Proof. split; [reflexivity|split; reflexivity]. Qed.

Lemma cell_kept_trans c0 c1 c2 : cell_kept c0 c1 -> cell_kept c1 c2 -> cell_kept c0 c2.
Proof.
  intros (H1 & H2 & H3) (H4 & H5 & H6). repeat split; [|congruence|congruence].
  etransitivity; eassumption.
Qed.

Lemma kept_refl st : kept st st.
Proof. constructor; try reflexivity. intros s. apply cell_kept_refl. Qed.

Lemma slot_eq_dec (a b : slot) : {a = b} + {a <> b}.
Proof. decide equality. Qed.

Lemma get_alter_slot f s m : get_slot s (alter_slot f s m) = f (get_slot s m).
Proof. now destruct s. Qed.

Lemma get_alter_slot_ne f s s2 m :
  s2 <> s -> get_slot s2 (alter_slot f s m) = get_slot s2 m.
Proof. destruct s, s2; congruence || reflexivity. Qed.

Lemma image_alter_slot f s m :
  s <> ImageCell -> m_image (alter_slot f s m) = m_image m.
Proof. destruct s; congruence || reflexivity. Qed.

Lemma prefix_alter {A} (f : A -> A) (l0 l : list A) i :
  l0 `prefix_of` l -> length l0 <= i -> l0 `prefix_of` alter f i l.
Proof.
  intros [k ->] Hi. replace i with (length l0 + (i - length l0)) by lia.
  rewrite alter_app_r. now eexists.
Qed.

Lemma prefix_snoc {A} (l0 l : list A) x : l0 `prefix_of` l -> l0 `prefix_of` l ++ [x].
Proof. intros H. now apply prefix_app_r. Qed.

(** *** The rules *)

Lemma safe_ret {A} st0 (Q : A -> Prop) a : Q a -> safe st0 Q (ret a).
Proof. intros Ha st H. cbn. repeat split; [apply H..|]. now intros ? [= <-]. Qed.

Lemma safe_raise {A} st0 (Q : A -> Prop) e : safe st0 Q (raise e).
Proof. intros st H. cbn. repeat split; [apply H..|]. discriminate. Qed.

Lemma safe_bind {A B} st0 (Q : A -> Prop) (R : B -> Prop) (m : M A) (k : A -> M B) :
  safe st0 Q m -> (forall a, Q a -> safe st0 R (k a)) -> safe st0 R (bind m k).
Proof.
  intros Hm Hk st H. unfold bind.
  destruct (Hm st H) as (H1 & H2 & H3).
  destruct (m st) as [[a|e] st1]; cbn [fst snd] in *.
  - destruct (Hk a (H3 a eq_refl) st1 H1) as (H4 & H5 & H6).
    repeat split; [apply H4..|congruence|exact H6].
  - repeat split; [apply H1..|assumption|discriminate].
Qed.

Lemma safe_weaken {A} st0 (Q R : A -> Prop) (m : M A) :
  safe st0 Q m -> (forall a, Q a -> R a) -> safe st0 R m.
Proof.
  intros Hm HQ st H. destruct (Hm st H) as (H1 & H2 & H3).
  repeat split; [apply H1..|assumption|auto].
Qed.

Lemma safe_gets {A} st0 (f : rstate -> A) : safe st0 (fun _ => True) (gets f).
Proof. intros st H. cbn. repeat split; apply H. Qed.

Lemma safe_index {A} st0 (l : list A) i : safe st0 (fun _ => True) (index l i).
Proof. unfold index. destruct (l !! i); [now apply safe_ret|apply safe_raise]. Qed.

Lemma safe_split st0 v sep : safe st0 (fun _ => True) (split_method v sep).
Proof. destruct v; [now apply safe_ret|apply safe_raise]. Qed.

Lemma safe_data_at st0 data ri i : safe st0 (fun _ => True) (data_at data ri i).
Proof.
  unfold data_at. eapply safe_bind; [apply safe_index|]. intros; apply safe_index.
Qed.

Lemma safe_set_note st0 s : safe st0 (fun _ => True) (set_note s).
Proof. intros st H. cbn. repeat split; apply H. Qed.

Lemma safe_when st0 b m :
  safe st0 (fun _ => True) m -> safe st0 (fun _ => True) (when b m).
Proof. destruct b; [auto|intros _; now apply safe_ret]. Qed.

Lemma safe_for_each {A} st0 (l : list A) body :
  (forall x, safe st0 (fun _ => True) (body x)) ->
  safe st0 (fun _ => True) (for_each l body).
Proof.
  intros H. induction l as [|x l IH]; [now apply safe_ret|].
  cbn [for_each]. eapply safe_bind; [apply H|]. intros; apply IH.
Qed.

Lemma kept_push st0 st b :
  kept st0 st -> kept st0 (RState (push_block b (doc st)) (note st) (log st)).
Proof.
  intros [H1 H2 H3 H4]. constructor; cbn; try assumption.
  now apply prefix_snoc.
Qed.

Lemma kept_length st0 st :
  kept st0 st -> length (d_body (doc st0)) <= length (d_body (doc st)).
Proof. intros H. apply prefix_length, H. Qed.

Lemma safe_add_paragraph st0 text style :
  safe st0 (fresh st0) (add_paragraph text style).
Proof.
  intros st H. cbn. repeat split; try apply (kept_push _ H).
  intros a [= <-]. cbn. now apply kept_length.
Qed.

Lemma safe_add_heading st0 text level :
  safe st0 (fresh st0) (add_heading text level).
Proof.
  intros st H. cbn. repeat split; try apply (kept_push _ H).
  intros a [= <-]. cbn. now apply kept_length.
Qed.

Lemma safe_add_page_break st0 : safe st0 (fun _ => True) add_page_break.
Proof. intros st H. cbn. repeat split; apply (kept_push _ H). Qed.

Lemma safe_cell_add_paragraph st0 s :
  s <> ImageCell -> safe st0 (fresh st0) (cell_add_paragraph s).
Proof.
  intros Hs st [H1 H2 H3 H4]. cbn. split; [|split; [reflexivity|]].
  - constructor; cbn; try assumption.
    + now rewrite image_alter_slot.
    + intros s2. destruct (slot_eq_dec s2 s) as [->|Hne].
      * rewrite get_alter_slot. destruct (H4 s) as (H5 & H6 & H7).
        repeat split; cbn; try assumption. now apply prefix_snoc.
      * rewrite get_alter_slot_ne by assumption. apply H4.
  - intros a [= <-]. cbn. split; [assumption|].
    apply prefix_length, (H4 s).
Qed.

Lemma safe_alter_para st0 r f :
  fresh st0 r -> safe st0 (fun _ => True) (alter_para r f).
Proof.
  intros Hr st [H1 H2 H3 H4]. cbn. split; [|split; [reflexivity|trivial]].
  destruct r as [i|s i]; cbn in Hr |- *.
  - constructor; cbn; try assumption. now apply prefix_alter.
  - destruct Hr as [Hs Hi]. constructor; cbn; try assumption.
    + now rewrite image_alter_slot.
    + intros s2. destruct (slot_eq_dec s2 s) as [->|Hne].
      * rewrite get_alter_slot. destruct (H4 s) as (H5 & H6 & H7).
        repeat split; cbn; try assumption. now apply prefix_alter.
      * rewrite get_alter_slot_ne by assumption. apply H4.
Qed.

Lemma safe_alter_run st0 r f :
  fresh st0 (fst r) -> safe st0 (fun _ => True) (alter_run r f).
Proof. intros H. unfold alter_run. now apply safe_alter_para. Qed.

Lemma safe_add_break st0 r : fresh st0 (fst r) -> safe st0 (fun _ => True) (add_break r).
Proof. intros H. unfold add_break. now apply safe_alter_run. Qed.

Lemma safe_apply_style st0 r k :
  fresh st0 r -> safe st0 (fun _ => True) (apply_style_to r k).
Proof. intros H. unfold apply_style_to. now apply safe_alter_para. Qed.

Lemma safe_add_run st0 r text :
  fresh st0 r -> safe st0 (fun rr => fresh st0 (fst rr)) (add_run r text).
Proof.
  intros Hr. unfold add_run.
  eapply safe_bind; [apply safe_gets|]. intros n _.
  eapply safe_bind; [now apply safe_alter_para|]. intros _ _.
  now apply safe_ret.
Qed.

Create HintDb safe.
#[local] Hint Resolve safe_ret safe_raise safe_gets safe_index safe_split
  safe_data_at safe_set_note safe_add_paragraph safe_add_heading
  safe_add_page_break safe_cell_add_paragraph safe_alter_para safe_alter_run
  safe_add_break safe_apply_style safe_add_run : safe.

(** Straight-line code made of the operations above. *)
Ltac safe :=
  repeat first
    [ solve [eauto with safe]
    | match goal with |- safe _ _ (if ?b then _ else _) => destruct b end
    | apply safe_when
    | apply safe_for_each; intro
    | eapply safe_bind; [|intros ? ?] ].

Lemma text_cell_not_image key : text_cell key <> ImageCell.
Proof.
  unfold text_cell.
  destruct (mem key secondary_keys); [discriminate|].
  destruct (eqb key (lit "description of risk")); [discriminate|].
  destruct (eqb key (lit "cause of loss")); discriminate.
Qed.

Section Fields.

Variable data : list (list value).
Variable row_index : nat.

Lemma safe_metadata st0 key display i :
  safe st0 (fun _ => True) (metadata_field data row_index key display i).
Proof.
  unfold metadata_field. pose proof (text_cell_not_image key). safe.
Qed.

Lemma safe_reserve st0 key display i :
  safe st0 (fun _ => True) (reserve_field data row_index key display i).
Proof. unfold reserve_field. safe. Qed.

Lemma safe_manager st0 display i :
  safe st0 (fun _ => True) (manager_field data row_index display i).
Proof.
  unfold manager_field.
  assert (NestedLeft <> ImageCell) by discriminate. safe.
Qed.

Lemma safe_narrative st0 key display i :
  safe st0 (fun _ => True) (narrative_field data row_index key display i).
Proof. unfold narrative_field. safe. Qed.

Lemma safe_render st0 key display i :
  safe st0 (fun _ => True) (render_field data row_index key display i).
Proof.
  unfold render_field.
  destruct (mem key metadata_keys); [apply safe_metadata|].
  destruct (mem key reserve_keys); [apply safe_reserve|].
  destruct (eqb key (lit "product manager"));
    [apply safe_manager|apply safe_narrative].
Qed.

Lemma is_warning_for display e : is_warning (warning_for display e).
Proof. reflexivity. Qed.

(** One field: what was there is kept, and the log gets at most one
    line, a warning. *)
Lemma field_step_kept st0 label i st :
  kept st0 st ->
  let st' := snd (field_step data row_index label i st) in
  kept st0 st'
  /\ exists msgs, log st' = log st ++ msgs
       /\ Forall is_warning msgs /\ length msgs <= 1.
Proof.
  intros H. cbn zeta. rewrite FieldErrors.field_step_recovers. cbn [snd].
  destruct (@safe_render st0 (normalize label) (display_name label) i st H)
    as (H1 & H2 & _).
  destruct (render_field _ _ _ _ _ st) as [[[]|e] st1]; cbn [snd recovered] in *.
  - split; [assumption|]. exists []. rewrite app_nil_r.
    split; [assumption|split; [constructor|cbn; lia]].
  - split.
    + destruct H1 as [F1 F2 F3 F4]. constructor; assumption.
    + exists [warning_for (display_name label) e]. cbn [log]. rewrite H2.
      split; [reflexivity|split; [|cbn; lia]].
      constructor; [apply is_warning_for|constructor].
Qed.

Lemma field_loop_kept : forall labels st0 i st,
  kept st0 st ->
  let st' := snd (field_loop data row_index labels i st) in
  kept st0 st'
  /\ exists msgs, log st' = log st ++ msgs
       /\ Forall is_warning msgs /\ length msgs <= length labels.
Proof.
  induction labels as [|label rest IH]; intros st0 i st H; cbn zeta.
  - cbn. split; [assumption|]. exists []. rewrite app_nil_r.
    split; [reflexivity|split; [constructor|cbn; lia]].
  - rewrite FieldErrors.field_loop_cons.
    destruct (@field_step_kept st0 label i st H) as (H1 & m1 & E1 & W1 & L1).
    destruct (IH st0 (S i) _ H1) as (H2 & m2 & E2 & W2 & L2).
    split; [assumption|]. exists (m1 ++ m2).
    rewrite E2, E1, <- app_assoc.
    split; [reflexivity|split; [now apply Forall_app|]].
    rewrite length_app. cbn. lia.
Qed.

(** X8: whatever the data, rendering the columns never changes or removes
    what the document already had: the front matter and the image cell are
    as they were, the blocks of the body and the paragraphs of every cell
    of the metadata table stay, unchanged, in front of what the fields add;
    and the log grows by warnings only, at most one for each column. *)
Theorem field_loop_keeps (labels : list str) (i : nat) (st : rstate) :
  let st' := snd (field_loop data row_index labels i st) in
  d_front (doc st') = d_front (doc st)
  /\ m_image (d_meta (doc st')) = m_image (d_meta (doc st))
  /\ (exists added, d_body (doc st') = d_body (doc st) ++ added)
  /\ (forall s, exists added,
        c_paras (get_slot s (d_meta (doc st')))
        = c_paras (get_slot s (d_meta (doc st))) ++ added)
  /\ exists msgs, log st' = log st ++ msgs
       /\ Forall is_warning msgs /\ length msgs <= length labels.
Proof.
  cbn zeta.
  destruct (@field_loop_kept labels st i st (kept_refl st)) as ([H1 H2 H3 H4] & H5).
  repeat split; try assumption.
  intros s. apply (H4 s).
Qed.

End Fields.

End FrameFacts.

(** ** Which fields fail *)

Module FieldOutcome.
Import PyStr PyMore Label Docx Py ReportGen RenderFacts Obs Views FrameFacts.

#[local] Arguments lit : simpl never.
#[local] Arguments split_go : simpl never.

(** A text with the separator in it splits into two pieces at least. *)
Lemma split_two sep : sep <> [] -> forall s cur,
  occurs sep s = true ->
  exists t0 t1 rest, split_go sep 0 cur s = t0 :: t1 :: rest.
Proof.
  intros Hsep. induction s as [|c t IH]; intros cur H.
  - cbn in H. destruct sep; [congruence|discriminate].
  - rewrite split_go_cons. cbn [occurs] in H.
    destruct (drop_prefix sep (c :: t)).
    + destruct (split_go_nonempty sep t (length sep - 1) []) as (t1 & rest & ->).
      eauto.
    + apply IH. exact H.
Qed.

Section Outcome.

Variable data : list (list value).
Variable row_index : nat.

Lemma manager_fails display i row ty r st :
  data !! row_index = Some row -> row !! i = Some (VOther ty r) ->
  manager_field data row_index display i st
  = (Raise (AttributeError ty (lit "split")), st).
Proof.
  intros H1 H2. unfold manager_field, data_at, index, bind.
  rewrite H1. cbn. rewrite H2. reflexivity.
Qed.

Lemma render_outcome key display i row v st :
  data !! row_index = Some row -> row !! i = Some v ->
  fst (render_field data row_index key display i st)
  = match field_error key v with Some e => Raise e | None => Ok tt end.
Proof.
  intros H1 H2.
  destruct (Dispatch.dispatch data row_index key display i)
    as (Hd & _ & Hp & _ & _ & Hn).
  unfold field_error. destruct (classify key) eqn:E.
  - rewrite Hd. cbn [handle]. erewrite metadata_run by eassumption.
    now destruct v.
  - assert (key = lit "indemnity reserves:") as -> by now apply Hp.
    destruct v as [s|ty r].
    + destruct (occurs HST s) eqn:Eo.
      * destruct (@split_two HST ltac:(discriminate) s [] Eo) as (t0 & t1 & rest & Hs).
        change (render_field data row_index (lit "indemnity reserves:") display i)
          with (reserve_field data row_index (lit "indemnity reserves:") display i).
        erewrite producer_run by eassumption. reflexivity.
      * destruct (@FieldErrors.failed_producer_run data row_index display i row
                    (VStr s) st H1 H2) as (e & -> & ->); [|reflexivity].
        unfold producer_ok. now rewrite H1, H2.
    + destruct (@FieldErrors.failed_producer_run data row_index display i row
                  (VOther ty r) st H1 H2) as (e & -> & ->); [|reflexivity].
      unfold producer_ok. now rewrite H1, H2.
  - rewrite Hd. cbn [handle]. erewrite consumer_run by eassumption.
    now destruct v.
  - rewrite Hd. cbn [handle]. destruct v as [s|ty r].
    + destruct (split_go_nonempty nl s 0 []) as (t0 & more & Hs).
      erewrite manager_run by eassumption. reflexivity.
    + erewrite manager_fails by eassumption. reflexivity.
  - rewrite Hd. cbn [handle]. erewrite conclusion_run by eassumption.
    now destruct v.
  - rewrite Hd. cbn [handle]. erewrite narrative_run; try eassumption.
    + now destruct v.
    + destruct (eqb key (lit "conclusion")) eqn:Ek; [|reflexivity].
      apply Dispatch.eqb_eq in Ek. apply Hn in Ek. congruence.
Qed.

(** X9: on a row that has a value in the column, a field fails in two
    cases only: the note producer whose value is not a text with ["HST"]
    in it, and the sign-off whose value is not text.  Every other field
    renders whatever the value (a number or a missing value is shown by
    its [str()]).  A failing field logs exactly one warning, naming the
    column and the exception; a field that renders logs nothing. *)
Theorem field_outcome (label : str) (i : nat) (row : list value) (v : value)
    (st : rstate) :
  data !! row_index = Some row -> row !! i = Some v ->
  fst (render_field data row_index (normalize label) (display_name label) i st)
  = match field_error (normalize label) v with
    | Some e => Raise e
    | None => Ok tt
    end
  /\ log (snd (field_step data row_index label i st))
     = log st ++ field_warning label v.
Proof.
  intros H1 H2.
  pose proof (@render_outcome (normalize label) (display_name label) i row v st H1 H2)
    as Hr.
  split; [exact Hr|].
  rewrite FieldErrors.field_step_recovers. cbn [snd].
  destruct (@safe_render data row_index st (normalize label) (display_name label)
              i st (kept_refl st)) as (_ & Hlog & _).
  unfold field_warning.
  destruct (render_field data row_index (normalize label) (display_name label) i st)
    as [[[]|e] st1]; cbn [fst snd recovered log] in *.
  - destruct (field_error (normalize label) v); [discriminate|].
    now rewrite app_nil_r.
  - destruct (field_error (normalize label) v) as [e'|]; [|discriminate].
    injection Hr as ->. now rewrite Hlog.
Qed.

End Outcome.

Lemma field_outcome_witness :
  log (snd (field_step [[VOther (lit "float") (lit "nan")]] 0
              (lit "Product Manager") 0 (RState (start_document []) [] [])))
  = [lit "[WARNING] Failed to insert column Product Manager: 'float' object has no attribute 'split'"].
Proof.
  apply (@field_outcome [[VOther (lit "float") (lit "nan")]] 0
           (lit "Product Manager") 0 [VOther (lit "float") (lit "nan")]
           (VOther (lit "float") (lit "nan")) (RState (start_document []) [] []));
    reflexivity.
Defined.

End FieldOutcome.

(** ** The header image *)

Module HeaderFacts.
Import PyStr PyMore Label Docx Py ReportGen RenderFacts Obs Views.

#[local] Arguments lit : simpl never.
#[local] Arguments new_run : simpl never.

Section Header.

Variable img_err : str -> option str.

(** The run of [header_image] on a state whose image cell has a first
    paragraph. *)
Lemma header_image_cell m f l r p ps va pad rk ca b n lg :
  header_image img_err m
    (RState (Document f (Meta l r (Cell (p :: ps) va pad) rk ca) b) n lg)
  = (Ok tt,
     with_image (fst (header_cell img_err m (Cell (p :: ps) va pad)))
                (snd (header_cell img_err m (Cell (p :: ps) va pad)))
                (RState (Document f (Meta l r (Cell (p :: ps) va pad) rk ca) b) n lg)).
Proof.
  unfold header_image, header_cell, with_image, try_except.
  destruct (find_home m) as [[k images]|].
  - unfold bind at 1. unfold with_image_cell, with_doc, modify. cbn.
    unfold add_picture, index.
    destruct images as [|path images]; cbn.
    + reflexivity.
    + destruct (img_err path) as [msg|]; cbn.
      * reflexivity.
      * unfold picture_cell, alter_cell_para, push_run, set_align.
        repeat first [rewrite alter_snoc | progress cbn].
        rewrite app_nil_r. reflexivity.
  - cbn. rewrite app_nil_r. reflexivity.
Qed.

(** X10: [header_image] never raises and changes the image cell and the log
    only.  Without a ["home"] key (in any letter case) the cell reads
    ["[Header image not provided]"] and nothing is logged; with one whose
    list is empty or whose first image cannot be inserted it reads
    ["[Header image missing]"] and one warning is logged; otherwise the
    first image of the first such key is put, at its natural size between
    line breaks, in the first paragraph of the cell, which is centred. *)
Theorem header_image_outcome (m : list (str * list str)) (st : rstate)
    (p : para) (ps : list para) :
  c_paras (m_image (d_meta (doc st))) = p :: ps ->
  let r := header_cell img_err m (m_image (d_meta (doc st))) in
  header_image img_err m st = (Ok tt, with_image (fst r) (snd r) st).
Proof.
  intros Hc. cbn zeta.
  destruct st as [[f [l r [paras va pad] rk ca] b] n lg].
  cbn [doc d_meta m_image c_paras] in Hc. subst paras.
  cbn [doc d_meta m_image]. apply header_image_cell.
Qed.

End Header.

Lemma header_image_outcome_witness :
  header_image (fun _ => None) [(lit "Kitchen", [lit "k.jpg"]); (lit "HOME", [])]
    (RState (start_document []) [] [])
  = (Ok tt,
     with_image (message_cell (lit "[Header image missing]") new_cell)
       [lit "[WARNING] Failed to insert header image: list index out of range"]
       (RState (start_document []) [] [])).
Proof.
  apply (@header_image_outcome (fun _ => None)
           [(lit "Kitchen", [lit "k.jpg"]); (lit "HOME", [])]
           (RState (start_document []) [] []) (new_para [] []) []).
  reflexivity.
Defined.

End HeaderFacts.

(** ** The images of a sub-category *)

Module GridOrder.
Import PyStr Docx Py ReportGen Obs Views GridFacts.

#[local] Arguments lit : simpl never.

(** Lists can be taken four elements at a time. *)
Lemma by_fours {A} (P : list A -> Prop) :
  P [] -> (forall a, P [a]) -> (forall a b, P [a; b]) -> (forall a b c, P [a; b; c]) ->
  (forall a b c d l, P l -> P (a :: b :: c :: d :: l)) ->
  forall l, P l.
Proof.
  intros H0 H1 H2 H3 H4 l.
  assert (H : forall n (l : list A), length l <= n -> P l).
  { induction n as [|n IH]; intros [|a [|b [|c [|d k]]]] Hk; auto; cbn in Hk; try lia.
    apply H4. apply IH. cbn in Hk. lia. }
  apply (H (length l)). lia.
Qed.

Section Grid.

Variable img_err : str -> option str.

Lemma grid_tables_cons4 a b c d l :
  grid_tables img_err (a :: b :: c :: d :: l)
  = grid_table img_err [a; b; c; d] :: grid_tables img_err l.
Proof.
  unfold grid_tables. rewrite !range_0_4. cbn [length].
  replace (S (S (S (S (length l)))) + 3) with ((length l + 3) + 1 * 4) by lia.
  rewrite Nat.div_add by lia. rewrite Nat.add_1_r. cbn [seq map].
  f_equal. rewrite <- seq_shift, !map_map. apply map_ext. intros k.
  f_equal. unfold batch_at.
  replace (4 * S k) with (S (S (S (S (4 * k))))) by lia. reflexivity.
Qed.

Lemma grid_tables_short l :
  0 < length l <= 4 -> grid_tables img_err l = [grid_table img_err l].
Proof.
  intros H. unfold grid_tables. rewrite range_0_4.
  destruct l as [|a [|b [|c [|d [|e l]]]]]; cbn in H; try lia; reflexivity.
Qed.

Ltac by_images :=
  repeat match goal with
  | |- context [img_err ?p] => destruct (img_err p)
  end; reflexivity.

Lemma grid_table_pictures batch :
  length batch <= 4 ->
  table_pictures (fst (grid_table img_err batch))
  = map (fun path => (path, Some (inches_2_5, inches_2_5))) (shown img_err batch)
  /\ snd (grid_table img_err batch) = failures img_err batch.
Proof.
  intros H.
  destruct batch as [|a [|b [|c [|d [|e l]]]]]; cbn in H; try lia;
    unfold grid_table, fill_cell, table_pictures, shown, failures;
    cbn; split; by_images.
Qed.

(** The lines logged for the tables of a list of images. *)
Lemma grid_failures (image_list : list str) :
  concat (map snd (grid_tables img_err image_list)) = failures img_err image_list.
Proof.
  induction image_list as [|a|a b|a b c|a b c d l IH] using by_fours.
  - reflexivity.
  - rewrite grid_tables_short by (cbn; lia). cbn [map concat].
    rewrite app_nil_r. apply grid_table_pictures. cbn; lia.
  - rewrite grid_tables_short by (cbn; lia). cbn [map concat].
    rewrite app_nil_r. apply grid_table_pictures. cbn; lia.
  - rewrite grid_tables_short by (cbn; lia). cbn [map concat].
    rewrite app_nil_r. apply grid_table_pictures. cbn; lia.
  - rewrite grid_tables_cons4. cbn [map concat]. rewrite IH.
    destruct (@grid_table_pictures [a; b; c; d]) as [_ ->]; [cbn; lia|].
    change (a :: b :: c :: d :: l) with ([a; b; c; d] ++ l).
    unfold failures. now rewrite omap_app.
Qed.

(** X11: batching loses, repeats and reorders nothing: read table by table
    and row by row, the pictures of a sub-category are the images of its
    list that could be inserted, in the order of the list, each 2.5 by 2.5
    inches; and the lines logged are the warnings for the images that could
    not, in the order of the list. *)
Theorem grid_pictures_in_order (image_list : list str) :
  let tables := grid_tables img_err image_list in
  concat (map (fun g => table_pictures (fst g)) tables)
  = map (fun path => (path, Some (inches_2_5, inches_2_5))) (shown img_err image_list)
  /\ concat (map snd tables) = failures img_err image_list.
Proof.
  cbn zeta. induction image_list as [|a|a b|a b c|a b c d l [IH1 IH2]] using by_fours.
  - split; reflexivity.
  - rewrite grid_tables_short by (cbn; lia). cbn [map concat].
    rewrite !app_nil_r. apply grid_table_pictures. cbn; lia.
  - rewrite grid_tables_short by (cbn; lia). cbn [map concat].
    rewrite !app_nil_r. apply grid_table_pictures. cbn; lia.
  - rewrite grid_tables_short by (cbn; lia). cbn [map concat].
    rewrite !app_nil_r. apply grid_table_pictures. cbn; lia.
  - rewrite grid_tables_cons4. cbn [map concat]. rewrite IH1, IH2.
    destruct (@grid_table_pictures [a; b; c; d]) as [-> ->]; [cbn; lia|].
    change (a :: b :: c :: d :: l) with ([a; b; c; d] ++ l).
    unfold shown, failures.
    rewrite List.filter_app, map_app, omap_app. split; reflexivity.
Qed.

End Grid.

End GridOrder.

(** ** The whole document *)

Module LayoutFacts.
Import PyStr PyMore Label Docx Py ReportGen RenderFacts Obs Views.
Import FrameFacts HeaderFacts GridOrder PhotoFacts.

#[local] Arguments lit : simpl never.
#[local] Arguments style_get : simpl never.
#[local] Arguments new_para : simpl never.
#[local] Arguments new_run : simpl never.
#[local] Arguments upper : simpl never.
#[local] Arguments grid_tables : simpl never.

Section Layout.

Variable img_err : str -> option str.

Lemma room_section_log count idx room_name image_list f m b n l :
  room_section img_err count idx room_name image_list (RState (Document f m b) n l)
  = (Ok tt, RState (Document f m (b ++ room_blocks img_err count idx room_name image_list))
                   n (l ++ failures img_err image_list)).
Proof.
  unfold room_section, room_blocks.
  generalize (idx <? count - 1). intros pb.
  unfold bind. unfold_ops. cbn.
  rewrite !lookup_snoc, !alter_snoc. cbn. rewrite !alter_snoc. cbn.
  rewrite for_each_grid.
  rewrite grid_failures.
  destruct pb; cbn.
  - unfold push_block. cbn. rewrite <- !app_assoc. reflexivity.
  - rewrite app_nil_r, <- !app_assoc. reflexivity.
Qed.

Lemma room_loop_log count : forall rooms idx f m b n l,
  room_loop img_err count idx rooms (RState (Document f m b) n l)
  = (Ok tt, RState (Document f m (b ++ rooms_blocks img_err count idx rooms)) n
                   (l ++ concat (map (fun kv => failures img_err (snd kv)) rooms))).
Proof.
  induction rooms as [|[room_name image_list] rooms IH]; intros idx f m b n l.
  - cbn. now rewrite !app_nil_r.
  - cbn [room_loop rooms_blocks map concat snd]. unfold bind.
    rewrite room_section_log, IH. now rewrite <- !app_assoc.
Qed.

Lemma photo_section_log rooms f m b n l :
  photo_section img_err rooms (RState (Document f m b) n l)
  = (Ok tt, RState (Document f m (b ++ photo_blocks img_err rooms)) n
                   (l ++ photo_warnings img_err rooms)).
Proof.
  unfold photo_section, photo_blocks, photo_warnings. fold (not_home rooms).
  destruct (any_images rooms); cbn [when].
  2:{ cbn. now rewrite !app_nil_r. }
  generalize (not_home rooms). intros nh.
  unfold bind. unfold_ops. cbn.
  rewrite !lookup_snoc, !alter_snoc. cbn. rewrite !alter_snoc. cbn.
  destruct nh as [|kv rest].
  - unfold ret, push_block. cbn. rewrite <- !app_assoc, app_nil_r. reflexivity.
  - unfold ret. rewrite room_loop_log. now rewrite <- !app_assoc.
Qed.

Lemma image_warning_is_warning path msg : is_warning (image_warning path msg).
Proof. reflexivity. Qed.

Lemma failures_are_warnings l : Forall is_warning (failures img_err l).
Proof.
  unfold failures. induction l as [|p l IH]; cbn; [constructor|].
  destruct (img_err p); cbn; [constructor; [reflexivity|assumption]|assumption].
Qed.

Lemma photo_warnings_are_warnings m : Forall is_warning (photo_warnings img_err m).
Proof.
  unfold photo_warnings. destruct (any_images m); [|constructor].
  induction (not_home m) as [|kv rest IH]; cbn; [constructor|].
  apply Forall_app. split; [apply failures_are_warnings|assumption].
Qed.

(** X12: the photo section never raises, leaves the front matter and the
    metadata table alone, and logs exactly one warning for every image of a
    sub-category that cannot be inserted, in order, and nothing else (an
    image under the ["home"] key is not inserted here and gives no
    warning). *)
Theorem photo_section_outcome (m : list (str * list str)) (st : rstate) :
  photo_section img_err m st
  = (Ok tt,
     RState (Document (d_front (doc st)) (d_meta (doc st))
                      (d_body (doc st) ++ photo_blocks img_err m))
            (note st) (log st ++ photo_warnings img_err m))
  /\ Forall is_warning (photo_warnings img_err m).
Proof.
  destruct st as [[f meta b] n l]. split; [apply photo_section_log|].
  apply photo_warnings_are_warnings.
Qed.

Lemma header_msgs_are_warnings m c : Forall is_warning (snd (header_cell img_err m c)).
Proof.
  unfold header_cell. destruct (find_home m) as [[k [|path images]]|].
  - repeat constructor.
  - destruct (img_err path); repeat constructor.
  - constructor.
Qed.

(** The state [build] ends in, step by step. *)
Lemma build_steps df front m ri :
  let hc := header_cell img_err m new_cell in
  let st1 := with_image (fst hc) (snd hc) (RState (start_document front) [] []) in
  let st2 := snd (field_loop (values df) ri (columns df) 0 st1) in
  build img_err df front m ri
  = RState (Document (d_front (doc st2)) (d_meta (doc st2))
                     (d_body (doc st2) ++ photo_blocks img_err m))
           (note st2) (log st2 ++ photo_warnings img_err m).
Proof.
  cbn zeta. unfold build.
  unfold bind at 1.
  assert (Hh : header_image img_err m (RState (start_document front) [] [])
               = (Ok tt, with_image (fst (header_cell img_err m new_cell))
                           (snd (header_cell img_err m new_cell))
                           (RState (start_document front) [] [])))
    by apply header_image_cell.
  rewrite Hh. clear Hh.
  unfold bind at 1. unfold set_note at 1, modify at 1.
  cbn [doc note log with_image].
  unfold bind at 1.
  pose proof (FieldErrors.field_loop_ok (values df) ri (columns df) 0
    (with_image (fst (header_cell img_err m new_cell))
       (snd (header_cell img_err m new_cell)) (RState (start_document front) [] [])))
    as Hok.
  unfold with_image in Hok. cbn [doc note log start_document d_front d_meta d_body m_image app] in *.
  destruct (field_loop (values df) ri (columns df) 0 _) as [[[]|e] [[f2 m2 b2] n2 l2]];
    [|discriminate].
  cbn [snd]. rewrite photo_section_log. reflexivity.
Qed.

(** All that [build] logs is warnings. *)
Lemma build_warnings df front m ri :
  Forall is_warning (log (build img_err df front m ri)).
Proof.
  rewrite build_steps. cbn zeta.
  set (st1 := with_image _ _ _). cbn [log].
  destruct (@field_loop_kept (values df) ri (columns df) st1 0 st1 (kept_refl st1))
    as (_ & msgs & -> & Hw & _).
  apply Forall_app. split; [|apply photo_warnings_are_warnings].
  apply Forall_app. split; [|assumption].
  subst st1. cbn. apply header_msgs_are_warnings.
Qed.

(** X13: the document [generate_docs] builds is laid out in this order,
    whatever the data: the content of the template, the title, the metadata
    table, what the columns added to the body, and the photo section last.
    The image cell of the table is as the header image left it; and the
    lines logged on the way are warnings only: those of the header image,
    at most one for each column, and those of the photo section. *)
Theorem build_layout (df : table) (front : list block) (m : list (str * list str))
    (ri : nat) :
  let st := build img_err df front m ri in
  let hc := header_cell img_err m new_cell in
  exists fields field_msgs,
    d_front (doc st) = front ++ [BPara title]
    /\ m_image (d_meta (doc st)) = fst hc
    /\ d_body (doc st) = fields ++ photo_blocks img_err m
    /\ log st = snd hc ++ field_msgs ++ photo_warnings img_err m
    /\ length field_msgs <= length (columns df)
    /\ Forall is_warning (log st).
Proof.
  cbn zeta. rewrite build_steps. cbn zeta.
  set (st1 := with_image _ _ _).
  destruct (@field_loop_kept (values df) ri (columns df) st1 0 st1 (kept_refl st1))
    as ([H1 H2 [added H3] _] & msgs & H5 & H6 & H7).
  exists added, msgs. cbn [doc d_front d_meta d_body log].
  rewrite H1, H2, H3, H5. subst st1. cbn.
  repeat split; try assumption.
  - now rewrite <- app_assoc.
  - rewrite <- app_assoc. apply Forall_app. split; [apply header_msgs_are_warnings|].
    apply Forall_app. split; [assumption|apply photo_warnings_are_warnings].
Qed.

End Layout.

End LayoutFacts.

(** ** Page breaks of the photo section *)

Module PageBreaks.
Import PyStr Docx Py ReportGen Obs Views.

#[local] Arguments grid_tables : simpl never.

Section Breaks.

Variable img_err : str -> option str.









End Breaks.

End PageBreaks.

(** ** The lines of the log *)

Module LogFacts.
Import PyStr PyMore Docx Py ReportGen Obs Views LayoutFacts.

#[local] Arguments lit : simpl never.

Lemma warning_yellow msg : is_warning msg -> MultiDocApp.log_color msg = lit "yellow".
Proof.
  unfold is_warning, startswith. intros H.
  destruct (drop_prefix (lit "[WARNING]") msg) as [rest|] eqn:E; [|discriminate].
  apply PyMoreFacts.drop_prefix_Some in E. subst msg. reflexivity.
Qed.

(** The log area holds one entry for each line, in order. *)
Lemma log_area_app content l1 l2 :
  log_area content (l1 ++ l2) = log_area (log_area content l1) l2.
Proof. unfold log_area. apply fold_left_app. Qed.

Section Lines.

Variable img_err : str -> option str.

(** X15: every call of [generate_docs] ends its lines with exactly one
    that is shown in red or in light green, after warnings only (shown in
    yellow): red, with no warning before it, nothing written and no
    result, when the source cannot be read or has no rows; light green,
    naming the output path, which is returned and written, otherwise.  No
    other file is touched. *)
Theorem generate_docs_lines (excel : result table) (template : option (list block))
    (m : list (str * list str)) (out : str) (ri : nat) (w : world) :
  let r := generate_docs img_err excel template m out ri w in
  exists warnings final,
    w_log (snd r) = w_log w ++ warnings ++ [final]
    /\ Forall (fun msg => MultiDocApp.log_color msg = lit "yellow") warnings
    /\ match read_error excel with
       | Some err =>
           fst r = None /\ warnings = [] /\ final = err
           /\ MultiDocApp.log_color final = lit "red"
           /\ w_fs (snd r) = w_fs w
       | None =>
           fst r = Some out
           /\ final = lit "[SUCCESS] Document saved: " ++ out
           /\ MultiDocApp.log_color final = lit "lightgreen"
           /\ is_Some (w_fs (snd r) !! out)
           /\ forall p, p <> out -> w_fs (snd r) !! p = w_fs w !! p
       end.
Proof.
  cbn zeta. unfold generate_docs, read_error.
  destruct excel as [df|e].
  2:{ exists [], (lit "[ERROR] Failed to read Excel file: " ++ exn_str e).
      cbn. repeat split. constructor. }
  destruct (values df) as [|row rows] eqn:E.
  { exists [], (lit "[ERROR] Excel file contains no rows.").
    cbn. repeat split. constructor. }
  cbn [length Nat.eqb].
  destruct (clamp_row (S (length rows)) ri) as [ri' warn] eqn:Ec.
  assert (Hwarn : Forall is_warning warn).
  { unfold clamp_row in Ec. destruct (S (length rows) <=? ri); injection Ec as <- <-.
    - repeat constructor.
    - constructor. }
  set (front := match template with Some t => t | None => [] end).
  set (fallback := match template with
                   | Some _ => []
                   | None => [lit "[WARNING] Template missing or inaccessible. Using blank document."]
                   end).
  assert (Hfall : Forall is_warning fallback).
  { subst fallback. destruct template; repeat constructor. }
  pose proof (@build_warnings img_err df front m ri') as Hlog.
  exists (warn ++ fallback ++ log (build img_err df front m ri')),
         (lit "[SUCCESS] Document saved: " ++ out).
  assert (Hgen :
    (let '(front0, fallback0) :=
       match template with
       | Some t => (t, [])
       | None => ([], [lit "[WARNING] Template missing or inaccessible. Using blank document."])
       end in
     (Some out,
      World (w_log w ++ warn ++ fallback0 ++ log (build img_err df front0 m ri')
             ++ [lit "[SUCCESS] Document saved: " ++ out])
            (<[out := doc (build img_err df front0 m ri')]> (w_fs w))))
    = (Some out,
       World (w_log w ++ warn ++ fallback ++ log (build img_err df front m ri')
              ++ [lit "[SUCCESS] Document saved: " ++ out])
             (<[out := doc (build img_err df front m ri')]> (w_fs w)))).
  { subst front fallback. now destruct template. }
  rewrite Hgen. cbn [fst snd w_log w_fs].
  split; [now rewrite <- !app_assoc|].
  split.
  { eapply Forall_impl; [|apply warning_yellow].
    apply Forall_app. split; [assumption|].
    apply Forall_app. split; assumption. }
  repeat split.
  - rewrite lookup_insert_eq. eauto.
  - intros p Hp. now rewrite lookup_insert_ne.
Qed.

End Lines.

End LogFacts.

(** ** process_files *)

Module ProcessFacts.
Import PyStr PyMore Docx Py ReportGen Obs Views MultiDocApp.

#[local] Arguments lit : simpl never.

Section Process.

Variable img_err : str -> option str.
Variable path_join : str -> str -> str.
Variable basename : str -> str.
Variable output_folder : str.
Variable template : option (list block).

Lemma say_say a b w : say b (say a w) = say (a ++ b) w.
Proof. unfold say. cbn. now rewrite app_assoc. Qed.

Lemma generate_docs_failed excel err m out ri w :
  read_error excel = Some err ->
  generate_docs img_err excel template m out ri w = (None, say [err] w).
Proof.
  unfold read_error, generate_docs. destruct excel as [df|e].
  - destruct (values df); [|discriminate]. now intros [= <-].
  - now intros [= <-].
Qed.

Lemma case_loop_failed excel err : read_error excel = Some err ->
  forall claims i generated w,
    case_loop img_err path_join output_folder excel template i claims (generated, w)
    = (generated, say (failed_lines path_join output_folder err i claims) w).
Proof.
  intros Herr. induction claims as [|[claim_name room_images] rest IH];
    intros i generated w.
  - cbn. unfold say. rewrite app_nil_r. now destruct w.
  - cbn [case_loop failed_lines]. unfold case_step.
    erewrite generate_docs_failed by exact Herr.
    rewrite IH, !say_say. reflexivity.
Qed.





(** X17: when nothing can be generated nothing is lost: without a source
    file or without cases [process_files] adds one error line to the log
    and does nothing else; with a source that cannot be read or has no
    rows it restarts the log and adds three lines for every case (the
    case, the error, a warning) and a final warning; in both cases no
    file of the output folder, nor the archive, nor the download path is
    changed, so a download still gives the archive of an earlier run. *)
Theorem process_files_without_result (excel : result table) (a : app) :
  let a' := process_files img_err path_join basename output_folder excel template a in
  (has_input a = false ->
   a' = set_out (say [lit "[ERROR] Please upload an Excel file and a valid image folder structure (ZIP)."]
                     (out a)) a)
  /\ (has_input a = true -> forall err, read_error excel = Some err ->
      a' = set_out
             (World (lit "[INFO] Preparing to generate documents..."
                     :: failed_lines path_join output_folder err 0 (claim_image_map a)
                     ++ [lit "[WARNING] No documents were generated."])
                    (w_fs (out a))) a)
  /\ (has_input a = false \/ read_error excel <> None ->
      archive a' = archive a /\ download_path a' = download_path a
      /\ w_fs (out a') = w_fs (out a) /\ claim_image_map a' = claim_image_map a).
Proof.
  cbn zeta.
  assert (H1 : has_input a = false ->
    process_files img_err path_join basename output_folder excel template a
    = set_out (say [lit "[ERROR] Please upload an Excel file and a valid image folder structure (ZIP)."]
                   (out a)) a).
  { unfold has_input, process_files.
    destruct (excel_path a) as [[|c xp]|]; try reflexivity.
    destruct (claim_image_map a); [reflexivity|discriminate]. }
  assert (H2 : has_input a = true -> forall err, read_error excel = Some err ->
    process_files img_err path_join basename output_folder excel template a
    = set_out
        (World (lit "[INFO] Preparing to generate documents..."
                :: failed_lines path_join output_folder err 0 (claim_image_map a)
                ++ [lit "[WARNING] No documents were generated."])
               (w_fs (out a))) a).
  { unfold has_input, process_files. intros Hin err Herr.
    destruct (excel_path a) as [[|c xp]|]; try discriminate.
    destruct (claim_image_map a) as [|kv claims] eqn:Ec; [discriminate|].
    cbn [orb]. erewrite case_loop_failed by exact Herr.
    unfold say. cbn [w_log w_fs Datatypes.app]. reflexivity. }
  split; [exact H1|]. split; [exact H2|].
  intros [Hno|Herr].
  - rewrite (H1 Hno). repeat split.
  - destruct (has_input a) eqn:Hin.
    + destruct (read_error excel) as [err|] eqn:E; [|congruence].
      rewrite (H2 eq_refl err eq_refl). repeat split.
    + rewrite (H1 eq_refl). repeat split.
Qed.

End Process.


End ProcessFacts.

(** ** The scan of an upload *)

Module ScanFacts.
Import PyStr PyMore Docx Py ReportGen Obs Views PyMoreFacts.
Import MultiDocApp.

#[local] Arguments lit : simpl never.

Lemma dict_set_fresh {A} k (v : A) : forall d,
  ~ In k (map fst d) -> dict_set k v d = d ++ [(k, v)].
Proof.
  induction d as [|[k' v'] d IH]; intros H; cbn; [reflexivity|].
  destruct (eqb k k') eqn:E.
  - apply bool_decide_eq_true in E. subst. exfalso. apply H. now left.
  - rewrite IH; [reflexivity|]. intros Hin. apply H. now right.
Qed.

Lemma omap_fst_incl {A B} (f : str * A -> option (str * B)) :
  (forall e y, f e = Some y -> fst y = fst e) ->
  forall l k, In k (map fst (omap f l)) -> In k (map fst l).
Proof.
  intros Hf. induction l as [|e l IH]; intros k H; cbn in *; [assumption|].
  destruct (f e) as [y|] eqn:E; cbn in H.
  - destruct H as [<-|H]; [left; symmetry; eapply Hf, E|right; auto].
  - right. auto.
Qed.

(** A loop that sets a key of a dict for some of the entries of a listing
    without duplicate names appends them in the order of the listing. *)
Lemma fold_dict_set {A B} (f : str * A -> option (str * B)) :
  (forall e y, f e = Some y -> fst y = fst e) ->
  forall l acc,
    NoDup (map fst l) ->
    (forall k, In k (map fst acc) -> ~ In k (map fst l)) ->
    fold_left (fun d e => match f e with
                          | Some y => dict_set (fst y) (snd y) d
                          | None => d
                          end) l acc
    = acc ++ omap f l.
Proof.
  intros Hf. induction l as [|e l IH]; intros acc Hnd Hacc; cbn.
  - now rewrite app_nil_r.
  - cbn in Hnd. apply NoDup_cons in Hnd as [Hhd Hnd].
    destruct (f e) as [[k v]|] eqn:E; cbn [fst snd].
    + pose proof (Hf _ _ E) as Hk. cbn in Hk. subst k.
      rewrite dict_set_fresh.
      2:{ intros Hin. apply (Hacc _ Hin). now left. }
      rewrite IH; [now rewrite <- app_assoc|assumption|].
      intros k Hin. rewrite map_app, in_app_iff in Hin. cbn in Hin.
      destruct Hin as [Hin|[<-|[]]].
      * intros Hl. apply (Hacc _ Hin). now right.
      * intros Hl. apply Hhd. now apply list_elem_of_In.
    + apply IH; [assumption|]. intros k Hin Hl. apply (Hacc _ Hin). now right.
Qed.

Lemma fold_left_same {A B} (f g : A -> B -> A) :
  (forall d e, f d e = g d e) ->
  forall l acc, fold_left f l acc = fold_left g l acc.
Proof.
  intros H. induction l as [|e l IH]; intros acc; cbn; [reflexivity|].
  now rewrite H, IH.
Qed.

Section Scan.

Variable path_join : str -> str -> str.

Lemma scan_rooms_fold claim_path entries :
  scan_rooms path_join claim_path entries
  = fold_left (fun d e => match room_entry path_join claim_path e with
                          | Some y => dict_set (fst y) (snd y) d
                          | None => d
                          end) entries [].
Proof.
  unfold scan_rooms. apply fold_left_same. intros d e. unfold room_entry.
  destruct (isdir (snd e)); [|reflexivity].
  now destruct (images_of path_join (path_join claim_path (fst e)) (listdir (snd e))).
Qed.

Lemma scan_claims_fold parent_folder entries :
  scan_claims path_join parent_folder entries
  = fold_left (fun d e => match claim_entry path_join parent_folder e with
                          | Some y => dict_set (fst y) (snd y) d
                          | None => d
                          end) entries [].
Proof.
  unfold scan_claims. apply fold_left_same. intros d e. unfold claim_entry.
  destruct (isdir (snd e)); [|reflexivity].
  now destruct (scan_rooms path_join (path_join parent_folder (fst e)) (listdir (snd e))).
Qed.

Lemma room_entry_key claim_path e y :
  room_entry path_join claim_path e = Some y -> fst y = fst e.
Proof.
  unfold room_entry. destruct (isdir (snd e)); [|discriminate].
  destruct (images_of _ _ _); [discriminate|]. now intros [= <-].
Qed.

Lemma claim_entry_key parent_folder e y :
  claim_entry path_join parent_folder e = Some y -> fst y = fst e.
Proof.
  unfold claim_entry. destruct (isdir (snd e)); [|discriminate].
  destruct (scan_rooms _ _ _); [discriminate|]. now intros [= <-].
Qed.

(** X18: a folder listing has no name twice, so the scan keeps the order
    of the listing: the sub-categories of a case are its folders that hold
    an image at least, in the order they are listed, entries that are not
    folders being passed over; and the cases are the folders of the parent
    folder that have such a sub-category, in the order they are listed. *)
Theorem scan_follows_listing (folder : str) (entries : list (str * node)) :
  NoDup (map fst entries) ->
  scan_rooms path_join folder entries = omap (room_entry path_join folder) entries
  /\ scan_claims path_join folder entries = omap (claim_entry path_join folder) entries.
Proof.
  intros Hnd. split.
  - rewrite scan_rooms_fold.
    rewrite (@fold_dict_set _ _ (room_entry path_join folder));
      [reflexivity|apply room_entry_key|assumption|intros k []].
  - rewrite scan_claims_fold.
    rewrite (@fold_dict_set _ _ (claim_entry path_join folder));
      [reflexivity|apply claim_entry_key|assumption|intros k []].
Qed.

(** The list of a sub-category: the joined paths of the entries with an
    image extension, ascending. *)
Lemma images_of_spec room_path entries :
  Sorted.StronglySorted str_le (images_of path_join room_path entries)
  /\ images_of path_join room_path entries
     ≡ₚ map (fun f => path_join room_path (fst f))
            (List.filter (fun f => is_image (fst f)) entries).
Proof. unfold images_of. split; [apply sorted_ascending|apply sorted_perm]. Qed.

Lemma fold_tidy {A B} (P : B -> Prop) (step : list (str * B) -> A -> list (str * B)) :
  (forall d e, Forall (fun kv => P (snd kv)) d -> Forall (fun kv => P (snd kv)) (step d e)) ->
  forall l acc, Forall (fun kv => P (snd kv)) acc ->
    Forall (fun kv => P (snd kv)) (fold_left step l acc).
Proof.
  intros Hstep. induction l as [|e l IH]; intros acc H; cbn; [assumption|].
  apply IH, Hstep, H.
Qed.

Lemma scan_rooms_tidy claim_path entries :
  Forall (fun room => tidy_room (snd room)) (scan_rooms path_join claim_path entries).
Proof.
  unfold scan_rooms. apply fold_tidy; [|constructor].
  intros d e Hd. destruct (isdir (snd e)); [|assumption].
  destruct (images_of path_join (path_join claim_path (fst e)) (listdir (snd e)))
    as [|x images] eqn:E; [assumption|].
  apply dict_set_values; [|assumption].
  split; [discriminate|]. rewrite <- E. apply images_of_spec.
Qed.

Lemma scan_claims_tidy parent_folder entries :
  tidy (scan_claims path_join parent_folder entries).
Proof.
  unfold tidy, scan_claims. apply fold_tidy; [|constructor].
  intros d e Hd. destruct (isdir (snd e)); [|assumption].
  destruct (scan_rooms path_join (path_join parent_folder (fst e)) (listdir (snd e)))
    as [|x rooms] eqn:E; [assumption|].
  apply dict_set_values; [|assumption].
  split; [discriminate|]. rewrite <- E. apply scan_rooms_tidy.
Qed.

(** X19: whatever is uploaded, the map of cases stays tidy: every case has
    a sub-category at least and every sub-category an image at least, its
    images in ascending order of their paths.  (An upload without any folder
    leaves the map of the upload before in place.)  The list of a
    sub-category holds the joined paths of exactly the entries of its
    folder whose name, in lower case, ends in [.jpg], [.jpeg] or [.png],
    folders with such a name included. *)
Theorem upload_keeps_map_tidy (extract_base : str) (extracted : list (str * node))
    (a : app) :
  tidy (claim_image_map a) ->
  tidy (claim_image_map (handle_folder_zip_upload path_join extract_base extracted a))
  /\ (forall parent_folder entries, tidy (scan_claims path_join parent_folder entries))
  /\ (forall room_path entries,
        images_of path_join room_path entries
        ≡ₚ map (fun f => path_join room_path (fst f))
               (List.filter (fun f => is_image (fst f)) entries)).
Proof.
  intros H. split; [|split].
  - unfold handle_folder_zip_upload.
    destruct (List.filter (fun d => isdir (snd d)) extracted) as [|d rest];
      [exact H|].
    cbn [claim_image_map]. apply scan_claims_tidy.
  - apply scan_claims_tidy.
  - intros. apply images_of_spec.
Qed.

End Scan.




Lemma scan_follows_listing_witness :
  scan_claims posix_join (lit "up")
    [ (lit "readme.txt", File);
      (lit "ClaimA",
       Dir [ (lit "Kitchen", Dir [(lit "b.JPG", File); (lit "notes.txt", File);
                                  (lit "a.png", File)]);
             (lit "Empty", Dir []) ]) ]
  = [ (lit "ClaimA",
       [ (lit "Kitchen", [lit "up/ClaimA/Kitchen/a.png"; lit "up/ClaimA/Kitchen/b.JPG"]) ]) ].
Proof.
  etransitivity.
  - apply (@scan_follows_listing posix_join (lit "up")
             [ (lit "readme.txt", File);
               (lit "ClaimA",
                Dir [ (lit "Kitchen", Dir [(lit "b.JPG", File); (lit "notes.txt", File);
                                           (lit "a.png", File)]);
                      (lit "Empty", Dir []) ]) ]).
    refine (bool_decide_unpack _ _). vm_compute. exact I.
  - reflexivity.
Defined.

Lemma upload_keeps_map_tidy_witness :
  tidy (claim_image_map
          (handle_folder_zip_upload posix_join (lit "uploads/z")
             [(lit "top", Dir [(lit "ClaimA", Dir [(lit "Kitchen", Dir [(lit "a.png", File)])])])]
             (App None [] [] None (World [] ∅)))).
Proof.
  apply (@upload_keeps_map_tidy posix_join (lit "uploads/z")
           [(lit "top", Dir [(lit "ClaimA", Dir [(lit "Kitchen", Dir [(lit "a.png", File)])])])]
           (App None [] [] None (World [] ∅))).
  constructor.
Defined.


End ScanFacts.

(** ** ReportGenTemp.py: the placeholders *)

Module PlaceholderFacts.
Import PyStr PyMore Docx Py ReportGen RenderFacts Obs Views PyMoreFacts.
Import ReportGenTemp.

#[local] Arguments lit : simpl never.

Lemma replace_go_cons old new skip c t :
  replace_go old new skip (c :: t) =
  match skip with
  | S k => replace_go old new k t
  | 0 =>
      match drop_prefix old (c :: t) with
      | Some _ => new ++ replace_go old new (length old - 1) t
      | None => c :: replace_go old new 0 t
      end
  end.
Proof. reflexivity. Qed.

Lemma replace_go_absent old new : forall s,
  occurs old s = false -> replace_go old new 0 s = s.
Proof.
  induction s as [|c t IH]; intros H; [reflexivity|].
  rewrite replace_go_cons. cbn [occurs] in H.
  destruct (drop_prefix old (c :: t)); [discriminate|].
  now rewrite IH.
Qed.

(** Replacing a text that does not occur changes nothing. *)
Lemma replace_absent old new s : occurs old s = false -> replace old new s = s.
Proof.
  intros H. unfold replace. destruct old as [|c old].
  - destruct s; discriminate.
  - now apply replace_go_absent.
Qed.

Lemma replace_go_skip old new : forall u b,
  replace_go old new (length u) (u ++ b) = replace_go old new 0 b.
Proof. induction u as [|x u IH]; intros b; [reflexivity|apply IH]. Qed.

Lemma occurs_no_brace k s : no_brace s -> occurs ("{"%char :: k) s = false.
Proof.
  unfold no_brace. induction s as [|c s IH]; intros H; [reflexivity|].
  cbn [occurs drop_prefix].
  destruct (Strings.Ascii.eqb_spec "{"%char c) as [<-|_].
  - exfalso. apply H. now left.
  - apply IH. intros Hin. apply H. now right.
Qed.

Lemma placeholder_key_cons key :
  placeholder_key key ->
  exists body, key = "{"%char :: "{"%char :: body ++ ["}"; "}"]%char
               /\ ~ In "{"%char body /\ ~ In "}"%char body.
Proof. intros (body & -> & H1 & H2). exists body. auto. Qed.

Lemma no_brace_app a b : no_brace a -> no_brace b -> no_brace (a ++ b).
Proof. unfold no_brace. intros Ha Hb H. apply in_app_or in H. tauto. Qed.

Lemma no_brace_close : no_brace ["}"; "}"]%char.
Proof. unfold no_brace. cbn. intuition discriminate. Qed.

(** The first closing brace of a text is where it is. *)
Lemma first_close : forall x y r1 r2,
  ~ In "}"%char x -> ~ In "}"%char y ->
  x ++ "}"%char :: r1 = y ++ "}"%char :: r2 -> x = y.
Proof.
  induction x as [|c x IH]; intros [|d y] r1 r2 Hx Hy E; cbn in E.
  - reflexivity.
  - injection E as <- _. exfalso. apply Hy. now left.
  - injection E as -> _. exfalso. apply Hx. now left.
  - injection E as -> E. f_equal. eapply IH; [| |exact E].
    + intros H. apply Hx. now right.
    + intros H. apply Hy. now right.
Qed.

(** A placeholder occurs in a text without braces around one placeholder
    only if it is that placeholder. *)
Lemma other_key_absent k key a b :
  placeholder_key k -> placeholder_key key -> k <> key ->
  no_brace a -> no_brace b -> occurs k (a ++ key ++ b) = false.
Proof.
  intros Hk Hkey Hne Ha Hb.
  apply placeholder_key_cons in Hk as (body' & -> & Hk1 & Hk2).
  apply placeholder_key_cons in Hkey as (body & -> & Hb1 & Hb2).
  induction a as [|x a IH].
  - cbn [app occurs drop_prefix]. rewrite !Strings.Ascii.eqb_refl.
    destruct (drop_prefix (body' ++ ["}"; "}"]%char) ((body ++ ["}"; "}"]%char) ++ b))
      as [r|] eqn:E.
    { apply drop_prefix_Some in E. rewrite <- !app_assoc in E. cbn [app] in E.
      apply first_close in E; [|assumption|assumption]. congruence. }
    assert (Hrest : no_brace ((body ++ ["}"; "}"]%char) ++ b)).
    { apply no_brace_app; [apply no_brace_app; [assumption|apply no_brace_close]|assumption]. }
    destruct ((body ++ ["}"; "}"]%char) ++ b) as [|c rest] eqn:Er.
    + reflexivity.
    + destruct (Strings.Ascii.eqb_spec "{"%char c) as [<-|_].
      * exfalso. apply Hrest. now left.
      * now apply occurs_no_brace.
  - cbn [app occurs drop_prefix].
    destruct (Strings.Ascii.eqb_spec "{"%char x) as [<-|_].
    + exfalso. apply Ha. now left.
    + apply IH. intros H. apply Ha. now right.
Qed.

(** A placeholder between texts without braces is replaced by the value. *)
Lemma replace_at key v a b :
  placeholder_key key -> no_brace a -> no_brace b ->
  replace key v (a ++ key ++ b) = a ++ v ++ b.
Proof.
  intros Hkey Ha Hb.
  apply placeholder_key_cons in Hkey as (body & -> & Hb1 & Hb2).
  unfold replace.
  set (key := "{"%char :: "{"%char :: body ++ ["}"; "}"]%char).
  induction a as [|x a IH].
  - cbn [app]. subst key. cbn [app]. rewrite replace_go_cons.
    change ("{"%char :: "{"%char :: (body ++ ["}"; "}"]%char) ++ b)
      with (("{"%char :: "{"%char :: body ++ ["}"; "}"]%char) ++ b).
    rewrite drop_prefix_app. cbn [length].
    replace (S (S (length (body ++ ["}"; "}"]%char))) - 1)
      with (length ("{"%char :: body ++ ["}"; "}"]%char)) by (cbn; lia).
    change ("{"%char :: (body ++ ["}"; "}"]%char) ++ b)
      with (("{"%char :: body ++ ["}"; "}"]%char) ++ b).
    rewrite replace_go_skip, replace_go_absent; [reflexivity|].
    now apply occurs_no_brace.
  - cbn [app]. rewrite replace_go_cons.
    assert (Hx : drop_prefix key (x :: a ++ key ++ b) = None).
    { subst key. cbn [drop_prefix].
      destruct (Strings.Ascii.eqb_spec "{"%char x) as [<-|_]; [|reflexivity].
      exfalso. apply Ha. now left. }
    rewrite Hx. f_equal. apply IH. intros H. apply Ha. now right.
Qed.

Lemma fill_cons kv reps text :
  fill (kv :: reps) text = fill reps (replace (fst kv) (str_of (snd kv)) text).
Proof. reflexivity. Qed.

Lemma fill_no_brace : forall reps text,
  Forall placeholder_key (map fst reps) -> no_brace text -> fill reps text = text.
Proof.
  induction reps as [|[k v] reps IH]; intros text Hk Ht; [reflexivity|].
  cbn in Hk. apply Forall_cons in Hk as [Hk Hks].
  rewrite fill_cons. cbn [fst snd].
  rewrite replace_absent; [now apply IH|].
  apply placeholder_key_cons in Hk as (body & -> & _). now apply occurs_no_brace.
Qed.

Lemma fill_placeholder : forall reps key v a b,
  NoDup (map fst reps) -> Forall placeholder_key (map fst reps) ->
  Forall (fun kv => no_brace (str_of (snd kv))) reps ->
  In (key, v) reps -> no_brace a -> no_brace b ->
  fill reps (a ++ key ++ b) = a ++ str_of v ++ b.
Proof.
  induction reps as [|[k1 v1] reps IH]; intros key v a b Hnd Hk Hv Hin Ha Hb;
    [contradiction|].
  cbn in Hnd, Hk. apply NoDup_cons in Hnd as [Hhd Hnd].
  apply Forall_cons in Hk as [Hk1 Hks]. apply Forall_cons in Hv as [Hv1 Hvs].
  rewrite fill_cons. cbn [fst snd].
  destruct (decide (k1 = key)) as [->|Hne].
  - assert (v1 = v) as ->.
    { destruct Hin as [[= ->]|Hin]; [reflexivity|].
      exfalso. apply Hhd. apply list_elem_of_In.
      apply in_map_iff. exists (key, v). auto. }
    rewrite replace_at by assumption.
    apply fill_no_brace; [assumption|].
    apply no_brace_app; [assumption|apply no_brace_app; assumption].
  - destruct Hin as [[= -> ->]|Hin]; [congruence|].
    rewrite replace_absent.
    + now apply IH.
    + apply other_key_absent; try assumption.
      apply (proj1 (List.Forall_forall _ _) Hks). apply in_map_iff.
      exists (key, v). auto.
Qed.

Lemma para_text_set_text t p : para_text (set_text t p) = t.
Proof.
  unfold para_text, set_text. cbn [p_runs map concat].
  now rewrite run_text_new_run, app_nil_r.
Qed.

Lemma replace_step_text p (kv : str * value) :
  para_text (if occurs (fst kv) (para_text p)
             then set_text (replace (fst kv) (str_of (snd kv)) (para_text p)) p
             else p)
  = replace (fst kv) (str_of (snd kv)) (para_text p).
Proof.
  destruct (occurs (fst kv) (para_text p)) eqn:E.
  - apply para_text_set_text.
  - now rewrite replace_absent.
Qed.

Lemma replace_in_para_cons kv reps p :
  replace_in_para (kv :: reps) p
  = replace_in_para reps
      (if occurs (fst kv) (para_text p)
       then set_text (replace (fst kv) (str_of (snd kv)) (para_text p)) p
       else p).
Proof. reflexivity. Qed.

(** The text of a paragraph after the replacements. *)
Lemma replace_in_para_fill : forall reps p,
  para_text (replace_in_para reps p) = fill reps (para_text p).
Proof.
  induction reps as [|kv reps IH]; intros p; [reflexivity|].
  now rewrite replace_in_para_cons, fill_cons, IH, replace_step_text.
Qed.

(** X21: what [replace_placeholders] does to a paragraph.  Its text becomes
    the text with the replacements applied one after the other, in the
    order of the dict, each on the result of the one before (so a value is
    itself open to later replacements); the style, the alignment and the
    spacing of the paragraph are kept; and the paragraph either is left
    exactly as it was or ends as one run without any formatting of its
    own. *)
Theorem replace_in_para_text (reps : list (str * value)) (p : para) :
  let q := replace_in_para reps p in
  para_text q = fill reps (para_text p)
  /\ p_style q = p_style p /\ p_align q = p_align p /\ p_spacing q = p_spacing p
  /\ (q = p \/ p_runs q = [new_run (para_text q)]).
Proof.
  cbn zeta. revert p. induction reps as [|kv reps IH]; intros p.
  - cbn. auto 6.
  - rewrite replace_in_para_cons, fill_cons.
    set (p1 := if occurs (fst kv) (para_text p)
               then set_text (replace (fst kv) (str_of (snd kv)) (para_text p)) p
               else p).
    destruct (IH p1) as (H1 & H2 & H3 & H4 & H5).
    assert (Ht : para_text p1 = replace (fst kv) (str_of (snd kv)) (para_text p))
      by apply replace_step_text.
    assert (Hs : p_style p1 = p_style p /\ p_align p1 = p_align p
                 /\ p_spacing p1 = p_spacing p
                 /\ (p1 = p \/ p_runs p1 = [new_run (para_text p1)])).
    { subst p1. destruct (occurs (fst kv) (para_text p)); [|auto 6].
      repeat split. right. cbn [set_text p_runs].
      now rewrite para_text_set_text. }
    destruct Hs as (S1 & S2 & S3 & S4).
    split; [now rewrite H1, Ht|].
    split; [congruence|]. split; [congruence|]. split; [congruence|].
    destruct H5 as [H5|H5]; [|now right].
    rewrite H5. destruct S4 as [S4|S4]; [left; exact S4|right; exact S4].
Qed.

Lemma replace_in_para_untouched reps p :
  Forall (fun kv => occurs (fst kv) (para_text p) = false) reps ->
  replace_in_para reps p = p.
Proof.
  induction 1 as [|kv reps Hkv _ IH]; [reflexivity|].
  rewrite replace_in_para_cons, Hkv. exact IH.
Qed.

(** X22: a document in which no key occurs in the text of any paragraph,
    of the body or of a cell of a table, is left exactly as it is; so a
    blank document, which is what a missing template is replaced by, gets
    none of the values of the row. *)
Theorem replace_placeholders_untouched (d : template_doc) (reps : list (str * value)) :
  Forall (fun p => Forall (fun kv => occurs (fst kv) (para_text p) = false) reps)
         (all_paragraphs d) ->
  replace_placeholders d reps = d
  /\ replace_placeholders (TemplateDoc [] []) reps = TemplateDoc [] [].
Proof.
  intros H. split; [|reflexivity].
  unfold all_paragraphs in H. apply Forall_app in H as [Hp Ht].
  destruct d as [ps ts]. unfold replace_placeholders. cbn [paragraphs tables] in *.
  f_equal.
  - apply NameFacts.map_fixed. intros p Hin.
    apply replace_in_para_untouched. rewrite List.Forall_forall in Hp. auto.
  - rewrite List.Forall_forall in Ht.
    apply NameFacts.map_fixed. intros t Hin_t.
    apply NameFacts.map_fixed. intros r Hin_r.
    apply NameFacts.map_fixed. intros c Hin_c.
    destruct c as [paras va pad]. unfold replace_in_cell. cbn [c_paras c_valign_center c_padding].
    f_equal. apply NameFacts.map_fixed. intros p Hin_p.
    apply replace_in_para_untouched, Ht.
    apply in_concat. exists paras. split; [|assumption].
    apply in_map_iff. exists (Cell paras va pad). split; [reflexivity|].
    apply in_concat. exists r. split; [|assumption].
    apply in_concat. exists t. split; assumption.
Qed.

Lemma braceless_spec s :
  braceless s = true -> ~ In "{"%char s /\ ~ In "}"%char s.
Proof.
  unfold braceless. rewrite forallb_forall. intros H.
  split; intros Hin; apply H in Hin; discriminate.
Qed.

Lemma is_placeholder_key_spec key :
  is_placeholder_key key = true -> placeholder_key key.
Proof.
  unfold is_placeholder_key. intros H. apply andb_true_iff in H as [H1 H2].
  apply bool_decide_eq_true in H1. apply braceless_spec in H2.
  exists (inner key). now split.
Qed.

Lemma placeholders_keys :
  Forall placeholder_key (map fst placeholders) /\ NoDup (map fst placeholders).
Proof.
  split.
  - apply List.Forall_forall. intros key Hin. apply is_placeholder_key_spec.
    revert key Hin. apply forallb_forall. vm_compute. reflexivity.
  - refine (bool_decide_unpack _ _). vm_compute. exact I.
Qed.

Lemma no_brace_row_get columns row label :
  Forall (fun v => no_brace (str_of v)) row ->
  no_brace (str_of (row_get columns row label)).
Proof.
  intros H. unfold row_get.
  destruct (assoc label (zip columns row)) as [v|] eqn:E; [|intros []].
  revert row H E. induction columns as [|c columns IH]; intros [|v0 row] H E;
    try discriminate.
  cbn in E. apply Forall_cons in H as [H0 H].
  destruct (eqb label c); [now injection E as <-|]. eapply IH; eassumption.
Qed.

(** X23: with the [replacements] that [generate_docs] builds from a row,
    a paragraph whose text is one placeholder between texts without an
    opening brace ends with the value of the placeholder's column in its
    place, and an empty text in its place when the frame has no column of
    exactly that label; this holds when no value of the row has an opening
    brace in it. *)
Theorem placeholder_filled (columns : list str) (row : list value) (p : para)
    (key label a b : str) :
  In (key, label) placeholders ->
  para_text p = a ++ key ++ b ->
  no_brace a -> no_brace b ->
  Forall (fun v => no_brace (str_of v)) row ->
  para_text (replace_in_para (replacements columns row) p)
  = a ++ str_of (row_get columns row label) ++ b
  /\ (~ In label columns -> para_text (replace_in_para (replacements columns row) p) = a ++ b).
Proof.
  intros Hin Htext Ha Hb Hrow.
  destruct placeholders_keys as [Hkeys Hnd].
  assert (Hfill : para_text (replace_in_para (replacements columns row) p)
                  = a ++ str_of (row_get columns row label) ++ b).
  { rewrite replace_in_para_fill.
    rewrite Htext. unfold replacements.
    apply fill_placeholder; try assumption.
    - apply List.Forall_forall. intros kv Hkv. apply in_map_iff in Hkv as (kl & <- & _).
      cbn [snd]. now apply no_brace_row_get.
    - apply in_map_iff. exists (key, label). auto. }
  split; [exact Hfill|].
  intros Hmiss. rewrite Hfill. unfold row_get.
  assert (Hnone : assoc label (zip columns row) = None).
  { clear -Hmiss. revert row. induction columns as [|c columns IH]; intros [|v row];
      try reflexivity. cbn.
    destruct (eqb label c) eqn:E.
    - apply bool_decide_eq_true in E. subst. exfalso. apply Hmiss. now left.
    - apply IH. intros H. apply Hmiss. now right. }
  now rewrite Hnone.
Qed.

Lemma replace_placeholders_untouched_witness :
  replace_placeholders
    (TemplateDoc [new_para (lit "Dear Sir,") []] [[[new_cell]]])
    (replacements [lit "ADDRESS"] [VStr (lit "1 Main St")])
  = TemplateDoc [new_para (lit "Dear Sir,") []] [[[new_cell]]].
Proof.
  apply (@replace_placeholders_untouched
           (TemplateDoc [new_para (lit "Dear Sir,") []] [[[new_cell]]])
           (replacements [lit "ADDRESS"] [VStr (lit "1 Main St")])).
  repeat constructor.
Defined.

Lemma placeholder_filled_witness :
  para_text (replace_in_para
               (replacements [lit "ADDRESS"] [VStr (lit "1 Main St")])
               (new_para (lit "Risk at: {{ADDRESS}}.") []))
  = lit "Risk at: " ++ lit "1 Main St" ++ lit ".".
Proof.
  apply (@placeholder_filled [lit "ADDRESS"] [VStr (lit "1 Main St")]
           (new_para (lit "Risk at: {{ADDRESS}}.") [])
           (lit "{{ADDRESS}}") (lit "ADDRESS") (lit "Risk at: ") (lit ".")).
  - vm_compute. tauto.
  - reflexivity.
  - vm_compute. intuition discriminate.
  - vm_compute. intuition discriminate.
  - repeat constructor. vm_compute. intuition discriminate.
Defined.

End PlaceholderFacts.
